(** * mbs-manager: the bedrock package's backup protocol

    A shallow embedding of [pkg/bedrock] (console, correlator, backup
    orchestrator, save-query parser and path resolver) together with the
    properties its specification states about them.

    Go strings are byte strings and are modelled by [string]; [int64] and
    [time.Duration] values are modelled by [Z]; [error] values by the
    inductive [error], with [None : option error] for Go's [nil]. *)

From Stdlib Require Import ZArith Ascii String List Lia Bool.
From stdpp Require Import base gmap sets list strings.

Local Open Scope Z_scope.

(** ** Go library functions used by the package *)

(** The line feed, Go's ["\n"]. *)
Definition LF : string := String "010"%char "".

Definition code (c : ascii) : Z := Z.of_N (N_of_ascii c).

(** [error] values.  [Errorf] is the result of [fmt.Errorf] (the formatted
    message), [Canceled] and [DeadlineExceeded] are the two errors of package
    [context], [NumError] is what [strconv] returns, [SyntaxError] is a
    pattern [regexp.Compile] rejects, and [Failure] stands for any error
    produced outside the package (a sink, the file system). *)
Inductive error : Type :=
| Errorf (msg : string)
| Canceled
| DeadlineExceeded
| NumError (range : bool)
| SyntaxError (pattern : string)
| Failure (msg : string).

Module strings.

(** [splitGo sep skip s]: the pieces of [s] between occurrences of [sep],
    scanning left to right; [skip] counts the bytes of an occurrence of
    [sep] still to be passed over.  The head of the result is the piece
    being read. *)
Fixpoint splitGo (sep : string) (skip : nat) (s : string) : list string :=
  match s with
  | EmptyString => [""]
  | String c s' =>
      match skip with
      | S k => splitGo sep k s'
      | O =>
          if String.prefix sep s
          then "" :: splitGo sep (String.length sep - 1) s'
          else match splitGo sep 0 s' with
               | p :: ps => String c p :: ps
               | [] => [String c ""]
               end
      end
  end.

Fixpoint explode (s : string) : list string :=
  match s with
  | EmptyString => []
  | String c s' => String c "" :: explode s'
  end.

(** [strings.Split(s, sep)]: [s] cut at every (leftmost, non-overlapping)
    occurrence of [sep]; with an empty [sep], one piece per byte (Go cuts
    after each UTF-8 sequence, which is the same on ASCII text). *)
Definition Split (s sep : string) : list string :=
  match sep with
  | EmptyString => explode s
  | _ => splitGo sep 0 s
  end.

(** [strings.Contains(s, substr)]. *)
Fixpoint Contains (s substr : string) : bool :=
  String.prefix substr s ||
  match s with
  | EmptyString => false
  | String _ s' => Contains s' substr
  end.

(** [strings.Join(elems, sep)]. *)
Fixpoint Join (elems : list string) (sep : string) : string :=
  match elems with
  | [] => ""
  | [e] => e
  | e :: rest => e +:+ sep +:+ Join rest sep
  end.

End strings.

Module strconv.

Definition maxUint64 : Z := 2 ^ 64 - 1.

(** [uint64(x)] and [int64(x)]: the value reduced into the type's range. *)
Definition uint64 (x : Z) : Z := x mod 2 ^ 64.
Definition int64 (x : Z) : Z := (x + 2 ^ 63) mod 2 ^ 64 - 2 ^ 63.

(** [lower(c)]: [c | ('x' - 'X')]. *)
Definition lower (c : ascii) : Z := Z.lor (code c) 32.

(** The loop of [strconv.ParseUint(s, 10, 64)] over the bytes of [s],
    [n] being the value read so far.  The result is the pair [(n, err)]
    the function returns. *)
Fixpoint parseUintLoop (base : Z) (s : string) (n : Z) : Z * option error :=
  match s with
  | EmptyString => (n, None)
  | String c s' =>
      let cutoff := maxUint64 / base + 1 in
      let maxVal := maxUint64 in
      let digit :=
        if (48 <=? code c) && (code c <=? 57) then Some (code c - 48)
        else if (97 <=? lower c) && (lower c <=? 122) then Some (lower c - 97 + 10)
        else None in
      match digit with
      | None => (0, Some (NumError false))
      | Some d =>
          if base <=? d then (0, Some (NumError false))
          else if cutoff <=? n then (maxVal, Some (NumError true))
          else
            let n' := uint64 (n * base) in
            let n1 := uint64 (n' + d) in
            if (n1 <? n') || (maxVal <? n1) then (maxVal, Some (NumError true))
            else parseUintLoop base s' n1
      end
  end.

(** [strconv.ParseUint(s, base, 64)] for an explicit base between 2 and
    36 (the package passes 10), where no underscore or prefix is accepted. *)
Definition ParseUint (s : string) (base : Z) : Z * option error :=
  match s with
  | EmptyString => (0, Some (NumError false))
  | _ => parseUintLoop base s 0
  end.

Definition isRange (e : error) : bool :=
  match e with
  | NumError true => true
  | _ => false
  end.

(** [strconv.ParseInt(s, base, 64)]. *)
Definition ParseInt (s : string) (base : Z) : Z * option error :=
  match s with
  | EmptyString => (0, Some (NumError false))
  | String c0 s' =>
      let neg := Ascii.eqb c0 "-" in
      let s1 := if Ascii.eqb c0 "+" || neg then s' else s in
      let (un, err) := ParseUint s1 base in
      if match err with Some e => negb (isRange e) | None => false end
      then (0, err)
      else
        let cutoff := 2 ^ 63 in
        if negb neg && (cutoff <=? un) then (int64 (cutoff - 1), Some (NumError true))
        else if neg && (cutoff <? un) then (int64 (- int64 cutoff), Some (NumError true))
        else
          let n := int64 un in
          (if neg then int64 (- n) else n, None)
  end.

End strconv.

(** ** Files and the save-query parser *)

Record File : Type := { Name : string; Length : Z }.

(** [parseSaveQuery]'s first loop: the first line mentioning
    [levelname.txt], or the empty string when there is none. *)
Fixpoint findResultLine (lines : list string) : string :=
  match lines with
  | [] => ""
  | line :: rest =>
      if strings.Contains line "levelname.txt" then line else findResultLine rest
  end.

Definition invalidEntry (e : string) : error := Errorf ("invalid entry: " +:+ e).

(** [parseSaveQuery]'s second loop, from index [i] on: [files] is the slice
    made before the loop, which the loop fills in place and returns as it
    is when an entry is rejected. *)
Fixpoint parseEntries (entries : list string) (i : nat) (files : list File)
  : list File * option error :=
  match entries with
  | [] => (files, None)
  | e :: rest =>
      match strings.Split e ":" with
      | f0 :: f1 :: _ =>
          match strconv.ParseInt f1 10 with
          | (length, None) =>
              parseEntries rest (S i) (<[i := {| Name := f0; Length := length |}]> files)
          | (_, Some _) => (files, Some (invalidEntry e))
          end
      | _ => (files, Some (invalidEntry e))
      end
  end.

(** [parseSaveQuery] returns the files with their length from the
    [save query] command response. *)
Definition parseSaveQuery (response : string) : list File * option error :=
  let lines := strings.Split response LF in
  if (length lines <? 1)%nat then ([], Some (Errorf "not enough lines in response"))
  else
    let resultLine := findResultLine lines in
    if String.eqb resultLine "" then ([], Some (Errorf "no results fount in given response"))
    else
      let entries := strings.Split (List.last lines "") ", " in
      parseEntries entries 0 (replicate (length entries) {| Name := ""; Length := 0 |}).

(** ** Path resolution *)

(** Go's [path/filepath] on a Unix system, where the separator is [/] and
    there are no volume names.  A path is handled through its elements, the
    pieces between separators. *)
Module filepath.

(** One element of the path read by [Clean]; [out] holds the elements
    written so far, last one first.  An empty element (doubled or trailing
    separator) and [.] are dropped; [..] removes the element before it,
    or is kept when there is none to remove and the path is not rooted. *)
Definition cleanStep (rooted : bool) (out : list string) (elem : string) : list string :=
  if String.eqb elem "" || String.eqb elem "." then out
  else if String.eqb elem ".." then
    match out with
    | top :: out' =>
        if String.eqb top ".." then (if rooted then out else ".." :: out) else out'
    | [] => if rooted then [] else [".."]
    end
  else elem :: out.

(** [filepath.Clean(path)]: the shortest path equivalent to [path] by
    purely lexical processing. *)
Definition Clean (path : string) : string :=
  if String.eqb path "" then "."
  else
    let rooted := String.prefix "/" path in
    let out := fold_left (cleanStep rooted) (strings.Split path "/") [] in
    let body := strings.Join (rev out) "/" in
    if rooted then "/" +:+ body
    else if String.eqb body "" then "." else body.

(** [filepath.Join(elem...)]: leading empty elements are ignored, the rest
    is joined with separators and cleaned. *)
Fixpoint Join (elem : list string) : string :=
  match elem with
  | [] => ""
  | e :: rest =>
      if String.eqb e "" then Join rest else Clean (strings.Join elem "/")
  end.

(** [filepath.Base(path)]: the last element of [path], trailing
    separators removed first. *)
Definition Base (path : string) : string :=
  if String.eqb path "" then "."
  else List.last (List.filter (fun e => negb (String.eqb e "")) (strings.Split path "/")) "/".

(** [path[:i+1]] for [i] the index of the last separator of [path]. *)
Definition throughLastSeparator (path : string) : string :=
  let elems := strings.Split path "/" in
  if (length elems <=? 1)%nat then ""
  else strings.Join (removelast elems) "/" +:+ "/".

(** [filepath.Dir(path)]: all but the last element of [path], cleaned. *)
Definition Dir (path : string) : string := Clean (throughLastSeparator path).

End filepath.

(** [nonDBFiles] are the files of a world that are not in the [db] directory. *)
Definition nonDBFiles : list string := ["level.dat"; "level.dat_old"; "levelname.txt"].

(** [realFilePath] returns the real location of the path since most files in
    the results are located under a separate [db] directory.  (This is the
    resolver with the static list; the later one probes the disk instead.) *)
Definition realFilePath (file : File) : string :=
  let base := filepath.Base (Name file) in
  let dir := filepath.Dir (Name file) in
  let nonDBFile := existsb (String.eqb base) nonDBFiles in
  let dir := if negb nonDBFile then filepath.Join [dir; "db"] else dir in
  filepath.Join [dir; base].

(** ** Time and contexts *)

(** [time.Duration]: a number of nanoseconds. *)
Definition Duration : Type := Z.
Definition Second : Duration := 1000000000.
Definition Minute : Duration := 60 * Second.

(** A [context.Context], as far as the package looks at it: [Err] is what
    [ctx.Err()] returns when the context is handed over ([None] while it is
    not done), and [timeouts] are the durations given to
    [context.WithTimeout] on the way, innermost first.  A context with a
    timeout is done at the latest when its timer fires. *)
Record Context : Type := { Err : option error; timeouts : list Duration }.

Definition Background : Context := {| Err := None; timeouts := [] |}.

(** [context.WithTimeout(parent, timeout)].  The child of a done parent is
    done with the parent's error; a timeout that is not positive has
    expired at once. *)
Definition WithTimeout (parent : Context) (timeout : Duration) : Context :=
  {| Err := match Err parent with
            | Some e => Some e
            | None => if timeout <=? 0 then Some DeadlineExceeded else None
            end;
     timeouts := timeout :: timeouts parent |}.

(** ** The console *)

(** The console, as seen by its callers: [input] holds the commands written
    to the server's standard input so far, oldest first (the queue's single
    consumer writes each followed by a line feed), and [subs] is the set of
    subscribed channels, channels being told apart by a number. *)
Record console : Type := { input : list string; subs : gset nat }.

(** [Subscribe] and [Unsubscribe] change the map of subscribers once they
    hold the console's mutex; what they do to the map is given here, and
    their wait for the mutex, which a broadcast can hold for ever, with
    [Contended.SendRawCommandWaitResponse] below. *)
Module Console.

Definition SendRawCommand (rawCommand : string) (c : console) : console :=
  {| input := input c ++ [rawCommand]; subs := subs c |}.

Definition Subscribe (messages : nat) (c : console) : console :=
  {| input := input c; subs := {[messages]} ∪ subs c |}.

Definition Unsubscribe (messages : nat) (c : console) : console :=
  {| input := input c; subs := subs c ∖ {[messages]} |}.

End Console.

(** ** The server and the correlator *)

(** What a caller did on the server, in order: taking and releasing
    [backupMutex], a command sent through the correlator together with the
    timeouts of the context it waits under, and a call of the sink. *)
Inductive event : Type :=
| Locked
| Unlocked
| Command (rawCommand : string) (waits : list Duration)
| Backed (files : list File).

(** The server: its console and [backupMutex] ([true] while held).  Two
    more fields keep track of the run: [chans] counts the channels made so
    far, so that the next [make(chan string)] is channel number [chans],
    and [journal] lists the events so far, oldest first. *)
Record Server : Type :=
  { theConsole : console; backupMutex : bool; chans : nat; journal : list event }.

(** Steps on the server: a step returns a value and the server after it, or
    [None] when it never returns (a wait that nothing ends). *)
Definition M (A : Type) : Type := Server -> option (A * Server).

Definition ret {A : Type} (a : A) : M A := fun s => Some (a, s).

Definition bind {A B : Type} (m : M A) (k : A -> M B) : M B :=
  fun s => match m s with
           | Some (a, s') => k a s'
           | None => None
           end.

Notation "x <- m ;; k" := (bind m (fun x => k))
  (at level 100, m at next level, right associativity).
Notation "m ;;; k" := (bind m (fun _ => k))
  (at level 100, right associativity).

Definition onConsole (f : console -> console) : M unit :=
  fun s => Some (tt, {| theConsole := f (theConsole s); backupMutex := backupMutex s;
                        chans := chans s; journal := journal s |}).

Definition record (e : event) : M unit :=
  fun s => Some (tt, {| theConsole := theConsole s; backupMutex := backupMutex s;
                        chans := chans s; journal := journal s ++ [e] |}).

(** [make(chan string)]. *)
Definition makeChan : M nat :=
  fun s => Some (chans s, {| theConsole := theConsole s; backupMutex := backupMutex s;
                             chans := S (chans s); journal := journal s |}).

(** [s.backupMutex.Lock()]: waits for ever when the mutex is held and
    nobody else runs. *)
Definition Lock : M unit :=
  fun s => if backupMutex s then None
           else Some (tt, {| theConsole := theConsole s; backupMutex := true;
                             chans := chans s; journal := journal s ++ [Locked] |}).

Definition Unlock : M unit :=
  fun s => Some (tt, {| theConsole := theConsole s; backupMutex := false;
                        chans := chans s; journal := journal s ++ [Unlocked] |}).

(** What one wait of the correlator meets: the lines its channel delivers,
    in order, before the [select] takes the [ctx.Done()] case, and, when
    the context is then done for a reason of its own (a parent cancelled),
    the error [ctx.Err()] gives.  The [select] chooses freely among the
    cases that are ready, so lines may be delivered even under a context
    that is done from the start. *)
Record Observed : Type := { received : list string; cancelled : option error }.

(** [ctx.Err()] once the [ctx.Done()] case is taken; [None] when the context
    is never done. *)
Definition doneErr (ctx : Context) (o : Observed) : option error :=
  match Err ctx with
  | Some e => Some e
  | None =>
      match cancelled o with
      | Some e => Some e
      | None => match timeouts ctx with
                | [] => None
                | _ :: _ => Some DeadlineExceeded
                end
      end
  end.

(** The [for { select { ... } }] loop of [SendRawCommandWaitResponse]:
    [lines] are the messages still to come, [done] is [ctx.Err()] for the
    [ctx.Done()] case and [output] the text gathered so far. *)
Fixpoint selectLoop (respRegex : string -> bool) (lines : list string)
  (done : option error) (output : string) : option (string * option error) :=
  match lines with
  | m :: rest =>
      let output := if String.eqb output "" then m else output +:+ LF +:+ m in
      if respRegex output then Some (output, None)
      else selectLoop respRegex rest done output
  | [] =>
      match done with
      | Some e => Some (output, Some e)
      | None => None
      end
  end.

Definition await (ctx : Context) (respRegex : string -> bool) (o : Observed)
  : option (string * option error) :=
  selectLoop respRegex (received o) (doneErr ctx o) "".

(** [regexp.Compile] and [MatchString]: an engine gives, for an expression
    it accepts, the test of a text against it. *)
Class Regexp : Type := { regexp_Compile : string -> option (string -> bool) }.

(** The three expressions the package waits for. *)
Definition holdPattern : string := "(?m)^Saving\.\.\.".
Definition queryPattern : string :=
  "(?s)Data saved. Files are now ready to be copied.*levelname.txt".
Definition resumePattern : string := "(?m)^Changes to the world are resumed".

Section Correlator.

Context {R : Regexp}.

(** [SendRawCommandWaitResponse] sends a command and returns when the
    response is returned or the context is canceled.  The deferred
    [Unsubscribe] runs on every return taken after [Subscribe].  (This is
    the call when [Unsubscribe] gets the console's mutex; the call that
    does not get it is [Contended.SendRawCommandWaitResponse].) *)
Definition SendRawCommandWaitResponse (ctx : Context) (rawCommand response : string)
  (o : Observed) : M (string * option error) :=
  match regexp_Compile response with
  | None => ret ("", Some (SyntaxError response))
  | Some respRegex =>
      messages <- makeChan ;;
      onConsole (Console.Subscribe messages) ;;;
      onConsole (Console.SendRawCommand rawCommand) ;;;
      record (Command rawCommand (timeouts ctx)) ;;;
      fun s =>
        match await ctx respRegex o with
        | None => None
        | Some result => (onConsole (Console.Unsubscribe messages) ;;; ret result) s
        end
  end.

Definition saveHold (ctx : Context) (timeout : Duration) (o : Observed) : M (option error) :=
  let c := WithTimeout ctx timeout in
  r <- SendRawCommandWaitResponse c "save hold" holdPattern o ;;
  ret (snd r).

Definition saveQuery (ctx : Context) (timeout : Duration) (o : Observed)
  : M (string * option error) :=
  let c := WithTimeout ctx timeout in
  SendRawCommandWaitResponse c "save query" queryPattern o.

Definition saveResume (ctx : Context) (timeout : Duration) (o : Observed) : M (option error) :=
  let c := WithTimeout ctx timeout in
  r <- SendRawCommandWaitResponse c "save resume" resumePattern o ;;
  ret (snd r).

End Correlator.

(** ** The correlator and the console's mutex *)

(** How a call ends: it returns a value and leaves the server in a state,
    or it waits for ever, the server staying in the state it is then in. *)
Inductive Ending (A : Type) : Type :=
| Returns (a : A) (after : Server)
| Waits (there : Server).

Arguments Returns {A} a after.
Arguments Waits {A} there.

Module Contended.

Section Correlator.

Context {R : Regexp}.

(** [SendRawCommandWaitResponse] with the console's mutex.  [Unsubscribe]
    takes [console.mutex], which [BroadcastMessage] holds for reading
    while it sends a line to the subscribers, one after the other.  A
    broadcast that has still to send to the channel of the call when the
    call has left its loop finds no receiver, so that it never gives the
    mutex back, and the deferred [Unsubscribe] never gets it: the call
    does not return, and its channel stays subscribed.  [sending] lists
    the channels which the broadcast that holds the mutex when the
    deferred [Unsubscribe] asks for it has still to send to; it is empty
    when there is no such broadcast.  (A broadcast that has no more to
    send to the call's channel ends, the other subscribers receiving, and
    [Unsubscribe] goes first then; so does [Subscribe] at the beginning of
    the call, when the call's channel is not subscribed yet.) *)
Definition SendRawCommandWaitResponse (ctx : Context) (rawCommand response : string)
  (o : Observed) (sending : list nat) (s : Server) : Ending (string * option error) :=
  match regexp_Compile response with
  | None => Returns ("", Some (SyntaxError response)) s
  | Some respRegex =>
      match (messages <- makeChan ;;
             onConsole (Console.Subscribe messages) ;;;
             onConsole (Console.SendRawCommand rawCommand) ;;;
             record (Command rawCommand (timeouts ctx)) ;;;
             ret messages) s with
      | None => Waits s
      | Some (messages, s1) =>
          match await ctx respRegex o with
          | None => Waits s1
          | Some result =>
              if existsb (Nat.eqb messages) sending then Waits s1
              else match onConsole (Console.Unsubscribe messages) s1 with
                   | Some (_, s2) => Returns result s2
                   | None => Waits s1
                   end
          end
      end
  end.

End Correlator.

End Contended.

(** ** The backup orchestrator *)

(** A [Backupper] is given by its [Backup] method; [None] is the [nil]
    interface value. *)
Record BackupOptions : Type :=
  { Backupper : option (list File -> option error);
    CommandTimeout : Duration;
    SavePause : Duration }.

Definition defaultOptions (opts : BackupOptions) : BackupOptions * option error :=
  let b := opts in
  match Backupper b with
  | None => (b, Some (Errorf "Backupper is mandatory but is nil"))
  | Some _ =>
      let b := if CommandTimeout b =? 0
               then {| Backupper := Backupper b; CommandTimeout := 3 * Second;
                       SavePause := SavePause b |}
               else b in
      let b := if SavePause b =? 0
               then {| Backupper := Backupper b; CommandTimeout := CommandTimeout b;
                       SavePause := 3 * Second |}
               else b in
      (b, None)
  end.

(** What one call of [Backup] meets: what each of its waits observes (the
    query's by number of the attempt, from 0), and whether the [select]
    after the hold takes [ctx.Done()] ([Some] of [ctx.Err()]) or the timer
    of [SavePause] ([None]). *)
Record Env : Type :=
  { onHold : Observed;
    onPause : option error;
    onQuery : nat -> Observed;
    onResume : Observed;
    onDeferredResume : Observed }.

Section Orchestrator.

Context {R : Regexp}.

(** The query loop, [retry] attempts left, the next being attempt number
    [attempt]; [output] and [err] are the variables the loop assigns. *)
Fixpoint queryLoop (ctx : Context) (opts : BackupOptions) (env : Env)
  (retry attempt : nat) (output : string) (err : option error)
  : M (string * option error) :=
  match retry with
  | O => ret (output, err)
  | S retry' =>
      r <- saveQuery ctx (CommandTimeout opts) (onQuery env attempt) ;;
      match snd r with
      | None => ret r
      | Some _ => queryLoop ctx opts env retry' (S attempt) (fst r) (snd r)
      end
  end.

(** The statements of [Backup] between the two [defer]s and the return:
    the result is the value given to [return] paired with the variable
    [err] at that moment, which is what the deferred function looks at. *)
Definition backupBody (ctx : Context) (opts : BackupOptions) (env : Env)
  (sink : list File -> option error) : M (option error * option error) :=
  err <- saveHold ctx (CommandTimeout opts) (onHold env) ;;
  match err with
  | Some _ => ret (err, err)
  | None =>
      match onPause env with
      | Some ctxErr => ret (Some ctxErr, err)
      | None =>
          r <- queryLoop ctx opts env 3 0 "" err ;;
          let output := fst r in
          let err := snd r in
          match err with
          | Some _ => ret (err, err)
          | None =>
              let (files, err) := parseSaveQuery output in
              match err with
              | Some _ => ret (err, err)
              | None =>
                  record (Backed files) ;;;
                  let err := sink files in
                  match err with
                  | Some _ => ret (err, err)
                  | None =>
                      err <- saveResume ctx (CommandTimeout opts) (onResume env) ;;
                      match err with
                      | Some _ => ret (err, err)
                      | None => ret (None, err)
                      end
                  end
              end
          end
      end
  end.

(** [Backup] holds, queries, calls the external backup function and
    resumes the server.  [onError] is the timeout of the deferred resume.
    The deferred calls run last registered first: the resume on error,
    then [Unlock].  (Once [defaultOptions] has accepted the options the
    sink is there; the branch without one is never taken.  [time.Sleep]
    and the timer of the pause change nothing of the server.) *)
Definition BackupWith (onError : Duration) (ctx : Context) (opts : BackupOptions)
  (env : Env) : M (option error) :=
  match defaultOptions opts with
  | (_, Some err) => ret (Some err)
  | (opts, None) =>
      match Backupper opts with
      | None => ret (Some (Errorf "Backupper is mandatory but is nil"))
      | Some sink =>
          Lock ;;;
          r <- backupBody ctx opts env sink ;;
          match snd r with
          | Some _ => saveResume ctx onError (onDeferredResume env) ;;; ret tt
          | None => ret tt
          end ;;;
          Unlock ;;;
          ret (fst r)
      end
  end.

(** [Backup] as the package has it now: the deferred resume waits five
    minutes. *)
Definition Backup : Context -> BackupOptions -> Env -> M (option error) :=
  BackupWith (5 * Minute).

(** The earlier [Backup] kept in the file, whose deferred resume waits
    five seconds. *)
Definition Backup_5s : Context -> BackupOptions -> Env -> M (option error) :=
  BackupWith (5 * Second).

End Orchestrator.

(** The commands a part of the journal sent, and the timeouts the resume
    commands in it waited under. *)
Definition commandOf (e : event) : option string :=
  match e with
  | Command c _ => Some c
  | _ => None
  end.

Definition commands (j : list event) : list string := omap commandOf j.

Definition resumeWait (e : event) : option Duration :=
  match e with
  | Command c (d :: _) => if String.eqb c "save resume" then Some d else None
  | _ => None
  end.

Definition resumeWaits (j : list event) : list Duration := omap resumeWait j.

(** ** The expressions of the package, tested directly

    The three expressions are simple enough to be tested by hand: a line
    that starts with a text, and two texts one after the other in which a
    dot stands for any byte. *)
Module regexp.

(** [(?m)^text]: some line of [output] starts with [text]. *)
Definition lineStartsWith (text output : string) : bool :=
  existsb (String.prefix text) (strings.Split output LF).

(** [s] starts with [p], a dot in [p] standing for any byte; the result
    is the rest of [s]. *)
Fixpoint matchPrefix (p s : string) : option string :=
  match p, s with
  | EmptyString, _ => Some s
  | String a p', String c s' =>
      if Ascii.eqb a "." || Ascii.eqb a c then matchPrefix p' s' else None
  | String _ _, EmptyString => None
  end.

(** The rest of [s] after the leftmost place where [p] matches. *)
Fixpoint find (p s : string) : option string :=
  match matchPrefix p s with
  | Some rest => Some rest
  | None =>
      match s with
      | EmptyString => None
      | String _ s' => find p s'
      end
  end.

(** [(?s)p1.*p2]. *)
Definition thenLater (p1 p2 output : string) : bool :=
  match find p1 output with
  | Some rest => match find p2 rest with Some _ => true | None => false end
  | None => false
  end.

(** [regexp.Compile] on the expressions of the package; another
    expression is not looked at and is reported as an error. *)
Definition Compile (expr : string) : option (string -> bool) :=
  if String.eqb expr holdPattern then Some (lineStartsWith "Saving...")
  else if String.eqb expr queryPattern
  then Some (thenLater "Data saved. Files are now ready to be copied" "levelname.txt")
  else if String.eqb expr resumePattern
  then Some (lineStartsWith "Changes to the world are resumed")
  else None.

End regexp.

#[export] Instance packageRegexp : Regexp := {| regexp_Compile := regexp.Compile |}.

(** What a call returned, with the events and the console input it left. *)
Definition outcome (r : option (option error * Server))
  : option (option error * list event * list string) :=
  match r with
  | Some (result, after) => Some (result, journal after, input (theConsole after))
  | None => None
  end.

(** ** Runs of [Backup], event by event *)

(** The server after one event. *)
Definition apply_event (e : event) (s : Server) : Server :=
  match e with
  | Locked =>
      {| theConsole := theConsole s; backupMutex := true;
         chans := chans s; journal := journal s ++ [Locked] |}
  | Unlocked =>
      {| theConsole := theConsole s; backupMutex := false;
         chans := chans s; journal := journal s ++ [Unlocked] |}
  | Command rawCommand waits =>
      {| theConsole :=
           Console.Unsubscribe (chans s)
             (Console.SendRawCommand rawCommand
                (Console.Subscribe (chans s) (theConsole s)));
         backupMutex := backupMutex s;
         chans := S (chans s);
         journal := journal s ++ [Command rawCommand waits] |}
  | Backed files =>
      {| theConsole := theConsole s; backupMutex := backupMutex s;
         chans := chans s; journal := journal s ++ [Backed files] |}
  end.

Definition replay (j : list event) (s : Server) : Server :=
  fold_left (fun s e => apply_event e s) j s.

(** The ways through [Backup] once the options are accepted: where it
    stopped, after how many query attempts, on which files and with which
    error. *)
Inductive Path : Type :=
| HoldFailed (e : error)
| PauseCancelled (e : error)
| QueryFailed (e : error)
| ParseFailed (attempts : nat) (e : error)
| SinkFailed (attempts : nat) (files : list File) (e : error)
| ResumeFailed (attempts : nat) (files : list File) (e : error)
| Completed (attempts : nat) (files : list File).

(** What [Backup] returns on a path. *)
Definition pathResult (p : Path) : option error :=
  match p with
  | HoldFailed e | PauseCancelled e | QueryFailed e | ParseFailed _ e
  | SinkFailed _ _ e | ResumeFailed _ _ e => Some e
  | Completed _ _ => None
  end.

(** The variable [err] when [Backup] returns on a path: the error
    returned, except where the pause was cancelled, which returns
    [ctx.Err()] and leaves [err] as it was. *)
Definition errAtReturn (p : Path) : option error :=
  match p with
  | PauseCancelled _ => None
  | _ => pathResult p
  end.

(** The events of a path from the hold to the [return] statement, [waits]
    being the timeouts of the commands of the sequence. *)
Definition bodyEvents (waits : list Duration) (p : Path) : list event :=
  let hold := Command "save hold" waits in
  let queries k := repeat (Command "save query" waits) k in
  let resume := Command "save resume" waits in
  match p with
  | HoldFailed _ => [hold]
  | PauseCancelled _ => [hold]
  | QueryFailed _ => hold :: queries 3%nat
  | ParseFailed k _ => hold :: queries k
  | SinkFailed k files _ => hold :: queries k ++ [Backed files]
  | ResumeFailed k files _ => hold :: queries k ++ [Backed files; resume]
  | Completed k files => hold :: queries k ++ [Backed files; resume]
  end.

(** The events of a path between [Lock] and [Unlock]: those of the body,
    then the deferred resume, under the timeouts [onErrorWaits], when [err]
    is set. *)
Definition pathEvents (waits onErrorWaits : list Duration) (p : Path) : list event :=
  bodyEvents waits p ++
  match errAtReturn p with
  | Some _ => [Command "save resume" onErrorWaits]
  | None => []
  end.

(** Whether a wait ends with the awaited response ([None]) or with an
    error. *)
Definition ends (ctx : Context) (respRegex : string -> bool) (o : Observed)
  (err : option error) : Prop :=
  exists output, await ctx respRegex o = Some (output, err).

(** What a path says about the run it stands for, [mHold] and [mResume]
    being the tests of the hold and resume expressions. *)
Definition follows (mHold mResume : string -> bool) (ctx : Context) (opts : BackupOptions)
  (env : Env) (sink : list File -> option error) (p : Path) : Prop :=
  let c := WithTimeout ctx (CommandTimeout opts) in
  let held := ends c mHold (onHold env) None /\ onPause env = None in
  let asked (k : nat) := (1 <= k <= 3)%nat in
  match p with
  | HoldFailed e => ends c mHold (onHold env) (Some e)
  | PauseCancelled e => ends c mHold (onHold env) None /\ onPause env = Some e
  | QueryFailed _ => held
  | ParseFailed k _ => held /\ asked k
  | SinkFailed k files e => held /\ asked k /\ sink files = Some e
  | ResumeFailed k files e =>
      held /\ asked k /\ sink files = None /\ ends c mResume (onResume env) (Some e)
  | Completed k files =>
      held /\ asked k /\ sink files = None /\ ends c mResume (onResume env) None
  end.

(** ** Two calls of [Backup] on one server

    Two goroutines each call [Backup] on the same server.  A call goes
    through its steps one at a time, and the scheduler picks which call
    moves next.  The steps are those of the code, run on the server the
    two calls share; a step that does not return there, as [Lock] on a
    mutex that is held, leaves the call where it is. *)
Inductive caller : Type := CallA | CallB.

Definition other (t : caller) : caller :=
  match t with
  | CallA => CallB
  | CallB => CallA
  end.

(** The events of one call of [Backup], in order. *)
Definition script `{R : Regexp} (ctx : Context) (opts : BackupOptions) (env : Env)
  : list event :=
  match Backup ctx opts env
          {| theConsole := {| input := []; subs := ∅ |}; backupMutex := false;
             chans := 0; journal := [] |} with
  | Some (_, s) => journal s
  | None => []
  end.

Record Pool : Type :=
  { shared : Server;
    todoA : list event;
    todoB : list event;
    trace : list (caller * event) }.

Definition todo (t : caller) (p : Pool) : list event :=
  match t with
  | CallA => todoA p
  | CallB => todoB p
  end.

(** The step of [Backup] an event stands for: [s.backupMutex.Lock()],
    the deferred [Unlock()], a call of the correlator that returns, with
    the channel it makes, subscribes and unsubscribes, and the call of the
    sink. *)
Definition perform (e : event) : M unit :=
  match e with
  | Locked => Lock
  | Unlocked => Unlock
  | Command rawCommand waits =>
      messages <- makeChan ;;
      onConsole (Console.Subscribe messages) ;;;
      onConsole (Console.SendRawCommand rawCommand) ;;;
      record (Command rawCommand waits) ;;;
      onConsole (Console.Unsubscribe messages)
  | Backed files => record (Backed files)
  end.

(** The steps of a call, one after the other, by a caller that is alone. *)
Fixpoint performAll (j : list event) (s : Server) : option Server :=
  match j with
  | [] => Some s
  | e :: rest =>
      match perform e s with
      | Some (_, s') => performAll rest s'
      | None => None
      end
  end.

(** The pool once call [t] has done its next event [e], [rest] being what
    it has left. *)
Definition move (t : caller) (e : event) (rest : list event) (p : Pool) : Pool :=
  {| shared := apply_event e (shared p);
     todoA := match t with CallA => rest | CallB => todoA p end;
     todoB := match t with CallA => todoB p | CallB => rest end;
     trace := trace p ++ [(t, e)] |}.

(** The scheduler lets call [t] move: its next step is run on the shared
    server; when the step does not return, the call waits and nothing
    changes. *)
Definition advance (t : caller) (p : Pool) : Pool :=
  match todo t p with
  | [] => p
  | e :: rest =>
      match perform e (shared p) with
      | Some (_, s') =>
          {| shared := s';
             todoA := match t with CallA => rest | CallB => todoA p end;
             todoB := match t with CallA => todoB p | CallB => rest end;
             trace := trace p ++ [(t, e)] |}
      | None => p
      end
  end.

Definition interleave (schedule : list caller) (p : Pool) : Pool :=
  fold_left (fun p t => advance t p) schedule p.

Definition start (s : Server) (scriptA scriptB : list event) : Pool :=
  {| shared := s; todoA := scriptA; todoB := scriptB; trace := [] |}.

Definition tagged (t : caller) (j : list event) : list (caller * event) :=
  map (pair t) j.

(** A call is inside [Backup]'s critical section when it has done some of
    its events and has some left. *)
Definition inside (done rest : list event) : bool :=
  match done, rest with
  | _ :: _, _ :: _ => true
  | _, _ => false
  end.

(** The events of a call are bracketed: none, or [Locked] first,
    [Unlocked] last and neither in between. *)
Definition bracketed (j : list event) : Prop :=
  j = [] \/
  exists mid, j = Locked :: mid ++ [Unlocked] /\
              Forall (fun e => e <> Locked /\ e <> Unlocked) mid.

Definition scriptOf (scriptA scriptB : list event) (t : caller) : list event :=
  match t with
  | CallA => scriptA
  | CallB => scriptB
  end.

(** The state of two calls that have run one after the other so far:
    [first] has done [doneF], the other [doneO], and the other has done
    nothing unless [first] has finished; the mutex is held when one of
    them is inside. *)
Definition serial (scriptA scriptB : list event) (p : Pool) (first : caller)
  (doneF doneO : list event) : Prop :=
  trace p = tagged first doneF ++ tagged (other first) doneO /\
  scriptOf scriptA scriptB first = doneF ++ todo first p /\
  scriptOf scriptA scriptB (other first) = doneO ++ todo (other first) p /\
  (doneO <> [] -> todo first p = []) /\
  backupMutex (shared p)
  = inside doneF (todo first p) || inside doneO (todo (other first) p).

(** ** Vocabulary of the statements *)

(** The byte [c] does not occur in [s]. *)
Fixpoint noByte (c : ascii) (s : string) : Prop :=
  match s with
  | EmptyString => True
  | String a s' => a <> c /\ noByte c s'
  end.

(** An entry of the listing line, [name:length]. *)
Definition entry (name text : string) : string := name +:+ ":" +:+ text.

(** An entry without [:], or whose field after the first [:] is not an
    integer ([rest] is empty or goes on with a further [:]). *)
Definition malformed (e : string) : Prop :=
  noByte ":" e \/
  exists name text rest,
    e = name +:+ ":" +:+ text +:+ rest /\
    noByte ":" name /\ noByte ":" text /\
    (rest = "" \/ String.prefix ":" rest = true) /\
    snd (strconv.ParseInt text 10) <> None.

(** An ordinary path element: not empty, not [.] or [..], without [/]. *)
Definition plain (e : string) : Prop :=
  e <> "" /\ e <> "." /\ e <> ".." /\ noByte "/" e.

(** The byte is a decimal digit. *)
Definition isDigit (c : ascii) : bool := (48 <=? code c) && (code c <=? 57).

(** The byte of the decimal digit [d]. *)
Definition digitChar (d : Z) : ascii := ascii_of_N (Z.to_N (48 + d)).

(** The decimal digits of [n] put in front of [acc], least significant
    digit first; [fuel] bounds their number. *)
Fixpoint digits (fuel : nat) (n : Z) (acc : string) : string :=
  match fuel with
  | O => acc
  | S fuel' =>
      let acc' := String (digitChar (n mod 10)) acc in
      if n <? 10 then acc' else digits fuel' (n / 10) acc'
  end.

(** The decimal numeral of an [int64], as the server prints a length. *)
Definition decimal (n : Z) : string :=
  if n <? 0 then String "-" (digits 20 (- n) "") else digits 20 n "".

(** An entry the second loop of [parseSaveQuery] turns down. *)
Definition turnedDown (e : string) : Prop :=
  match strings.Split e ":" with
  | _ :: f1 :: _ => snd (strconv.ParseInt f1 10) <> None
  | _ => True
  end.

(** The response has no line mentioning [levelname.txt]. *)
Definition lacksMarker (response : string) : Prop :=
  Forall (fun line => strings.Contains line "levelname.txt" = false)
    (strings.Split response LF).

(** Some entry of the listing line, the last line of the response cut at
    [", "], is malformed. *)
Definition hasMalformedEntry (response : string) : Prop :=
  exists e,
    In e (strings.Split (List.last (strings.Split response LF) "") ", ") /\ malformed e.

(** A file of the listing together with the text of its length: the name
    is free of the bytes that separate entries, fields and lines, and the
    text is what [ParseInt] reads as the length. *)
Definition listed (it : File * string) : Prop :=
  noByte ":" (Name it.1) /\ noByte "," (Name it.1) /\ noByte "010" (Name it.1) /\
  strconv.ParseInt it.2 10 = (Length it.1, None).

(** A file the server can list: a name free of the bytes that separate
    entries, fields and lines, and a length that is an [int64]. *)
Definition wellFormed (f : File) : Prop :=
  noByte ":" (Name f) /\ noByte "," (Name f) /\ noByte "010" (Name f) /\
  - 2 ^ 63 <= Length f < 2 ^ 63.

(** The entry of a file on the listing line. *)
Definition listingEntry (f : File) : string := entry (Name f) (decimal (Length f)).


(** The commands of a backup that went through: one hold, one to three
    queries, one resume. *)
Definition holdQueriesResume (cmds : list string) : Prop :=
  exists k : nat, (1 <= k <= 3)%nat /\
    cmds = "save hold" :: repeat "save query" k ++ ["save resume"].

(** ** Sample data for the closed instances *)

Definition idle : Server :=
  {| theConsole := {| input := []; subs := ∅ |}; backupMutex := false;
     chans := 0; journal := [] |}.

Definition lines (l : list string) : Observed := {| received := l; cancelled := None |}.

Definition silence : Observed := lines [].

Definition queryReply : list string :=
  ["Data saved. Files are now ready to be copied.";
   "world/db/CURRENT:16, world/level.dat:2049, world/levelname.txt:12"].

(** A server that answers every command as expected. *)
Definition answering : Env :=
  {| onHold := lines ["Saving..."];
     onPause := None;
     onQuery := fun _ => lines queryReply;
     onResume := lines ["Changes to the world are resumed."];
     onDeferredResume := lines ["Changes to the world are resumed."] |}.

(** A server that answers nothing. *)
Definition mute : Env :=
  {| onHold := silence; onPause := None; onQuery := fun _ => silence;
     onResume := silence; onDeferredResume := silence |}.

(** A server that answers the hold and the query, and then nothing. *)
Definition unresumed : Env :=
  {| onHold := lines ["Saving..."];
     onPause := None;
     onQuery := fun _ => lines queryReply;
     onResume := silence;
     onDeferredResume := silence |}.

(** A server that answers, under a caller whose own deadline passes
    during the pause. *)
Definition expiresInPause : Env :=
  {| onHold := lines ["Saving..."];
     onPause := Some DeadlineExceeded;
     onQuery := fun _ => lines queryReply;
     onResume := lines ["Changes to the world are resumed."];
     onDeferredResume := lines ["Changes to the world are resumed."] |}.

Definition okSink : list File -> option error := fun _ => None.
Definition fullSink : list File -> option error := fun _ => Some (Failure "disk full").

Definition withSink (sink : list File -> option error) (timeout : Duration) : BackupOptions :=
  {| Backupper := Some sink; CommandTimeout := timeout; SavePause := 0 |}.

(** The options the HTTP handler of [/backup] gives. *)
Definition handlerOptions (sink : list File -> option error) : BackupOptions :=
  {| Backupper := Some sink; CommandTimeout := 5 * Second; SavePause := 1 * Minute |}.

(** ** The rest of the console and of the server *)

(** [BroadcastMessage] sends a message to all subscribers.  Its [select]
    has the one case of the send, so the send on a channel waits until the
    subscriber receives: [receiving] tells which channels have a receiver,
    and the call does not return ([None]) when some subscriber has none.
    The result lists the deliveries made, each channel with the message.
    Go ranges over the map in no fixed order; the list follows the numbers
    of the channels. *)
Definition BroadcastMessage (message : string) (receiving : nat -> bool) (c : console)
  : option (list (nat * string)) :=
  if forallb receiving (elements (subs c))
  then Some (map (fun channel => (channel, message)) (elements (subs c)))
  else None.

(** [Server.SendRawCommand] sends the given string directly to the server
    console (and logs it). *)
Definition SendRawCommand (rawCommand : string) : M unit :=
  onConsole (Console.SendRawCommand rawCommand).

(** [Stop] the server gracefully. *)
Definition Stop : M unit := onConsole (Console.SendRawCommand "stop").

(** The loop of [Attach] over the lines its scanner finds. *)
Fixpoint sendScanned (scanned : list string) : M unit :=
  match scanned with
  | [] => ret tt
  | line :: rest => SendRawCommand line ;;; sendScanned rest
  end.

(** [Attach]: [scanned] are the lines the scanner reads from [in] and
    [scanErr] is what [scanner.Err()] gives when it stops.  The goroutine
    that prints to [out] is the receiver of the channel. *)
Definition Attach (scanned : list string) (scanErr : option error) : M (option error) :=
  messages <- makeChan ;;
  onConsole (Console.Subscribe messages) ;;;
  sendScanned scanned ;;;
  onConsole (Console.Unsubscribe messages) ;;;
  ret scanErr.

(** ** The resolver that asks the disk *)

(** The later [realFilePath], which returns the real relative location of
    the path: if the given file does not exist it is taken to miss the
    [db] subdirectory.  [stat path] is the error of [os.Stat(path)]. *)
Definition realFilePath_stat (stat : string -> option error) (file : File) : string :=
  let base := filepath.Base (Name file) in
  let dir := filepath.Dir (Name file) in
  let dir := match stat (filepath.Join ["worlds"; Name file]) with
             | Some _ => filepath.Join [dir; "db"]
             | None => dir
             end in
  filepath.Join [dir; base].

(** ** Copying the files *)

Module io.

(** [io.EOF]. *)
Definition EOF : error := Failure "EOF".

(** [io.CopyN(dst, src, n)], which is [io.Copy(dst, io.LimitReader(src, n))]
    with its result adjusted: [content] holds the bytes [src] has left,
    and [fault], when there is one, is a read or a write that fails after
    so many bytes were written, with its error.  The result is the number
    of bytes written, which are the first ones of [content], and the
    error.  A limit that is not positive reads nothing. *)
Definition CopyN (content : string) (fault : option (Z * error)) (n : Z) : Z * option error :=
  let want := Z.max n 0 in
  let normal := Z.min want (Z.of_nat (String.length content)) in
  let copied :=
    match fault with
    | Some (w, e) =>
        if (0 <=? w) && (w <=? normal) && (w <? want) then (w, Some e) else (normal, None)
    | None => (normal, None)
    end in
  let written := fst copied in
  let err := snd copied in
  if written =? n then (n, None)
  else if (written <? n) && match err with None => true | Some _ => false end
       then (written, Some EOF)
       else (written, err).

End io.

(** What the calls of [copyFile] into the operating system return:
    the error of [os.Stat], the bytes the file opened by [os.Open] yields
    to its reader or the error of the call, the errors of [os.MkdirAll]
    and of [os.Create], and the fault of the copy, if any. *)
Record FileSystem : Type :=
  { os_Stat : string -> option error;
    os_Open : string -> string + error;
    os_MkdirAll : string -> option error;
    os_Create : string -> option error;
    copyFault : option (Z * error) }.

(** The error of the check after the copy. *)
Definition bytesCopied (file : File) (n : Z) : error :=
  Errorf ("bytes copied for " +:+ Name file +:+ " did match " +:+ decimal n +:+
          " != " +:+ decimal (Length file)).

(** [copyFile] copies the given file to the [dest] directory.  The result
    is the error, together with what the call leaves at the destination:
    nothing when it does not get to create the file, or else the path
    created and the bytes written to it. *)
Definition copyFile (fs : FileSystem) (file : File) (dest : string)
  : option error * option (string * string) :=
  let p := realFilePath_stat (os_Stat fs) file in
  match os_Open fs (filepath.Join ["worlds"; p]) with
  | inr err => (Some err, None)
  | inl content =>
      let destPath := filepath.Join [dest; p] in
      match os_MkdirAll fs (filepath.Dir destPath) with
      | Some err => (Some err, None)
      | None =>
          match os_Create fs destPath with
          | Some err => (Some err, None)
          | None =>
              let (n, err) := io.CopyN content (copyFault fs) (Length file) in
              let made := Some (destPath, substring 0 (Z.to_nat n) content) in
              match err with
              | Some _ => (err, made)
              | None =>
                  if negb (n =? Length file) then (Some (bytesCopied file n), made)
                  else (None, made)
              end
          end
      end
  end.

(** The loop of [copyBackup] from file number [i] on, [fs i] being what
    the calls for that file meet: the error returned, and the files the
    copies have made, in order. *)
Fixpoint copyEach (fs : nat -> FileSystem) (i : nat) (files : list File) (tmpdir : string)
  : option error * list (string * string) :=
  match files with
  | [] => (None, [])
  | f :: rest =>
      match copyFile (fs i) f tmpdir with
      | (Some err, made) => (Some err, option_list made)
      | (None, made) =>
          let (err, mades) := copyEach fs (S i) rest tmpdir in
          (err, option_list made ++ mades)
      end
  end.

(** [copyBackup] writes files into a temp directory; [mkdirTemp] is what
    [os.MkdirTemp] returns. *)
Definition copyBackup (mkdirTemp : string + error) (fs : nat -> FileSystem)
  (files : list File) : option error * list (string * string) :=
  match mkdirTemp with
  | inr err => (Some err, [])
  | inl tmpdir => copyEach fs 0 files tmpdir
  end.

(** ** The run of [Backup], from what it observes *)

(** The query loop as it turns out, [observe i] being what attempt [i]
    returns: the number of attempts made, with the last values of
    [output] and [err]. *)
Fixpoint queryAttempts (observe : nat -> option (string * option error))
  (retry attempt : nat) (output : string) (err : option error)
  : option (nat * (string * option error)) :=
  match retry with
  | O => Some (0%nat, (output, err))
  | S retry' =>
      match observe attempt with
      | None => None
      | Some (out, None) => Some (1%nat, (out, None))
      | Some (out, Some e) =>
          match queryAttempts observe retry' (S attempt) out (Some e) with
          | Some (k, r) => Some (S k, r)
          | None => None
          end
      end
  end.

(** The path [Backup] takes on accepted options, decided step by step by
    what its waits observe, what the parser makes of the query's output
    and what the sink returns; [None] when a wait never ends. *)
Definition pathOf (mHold mQuery mResume : string -> bool) (ctx : Context)
  (opts : BackupOptions) (env : Env) (sink : list File -> option error) : option Path :=
  let c := WithTimeout ctx (CommandTimeout opts) in
  match await c mHold (onHold env) with
  | None => None
  | Some (_, Some e) => Some (HoldFailed e)
  | Some (_, None) =>
      match onPause env with
      | Some e => Some (PauseCancelled e)
      | None =>
          match queryAttempts (fun i => await c mQuery (onQuery env i)) 3 0 "" None with
          | None => None
          | Some (_, (_, Some e)) => Some (QueryFailed e)
          | Some (k, (output, None)) =>
              match parseSaveQuery output with
              | (_, Some e) => Some (ParseFailed k e)
              | (files, None) =>
                  match sink files with
                  | Some e => Some (SinkFailed k files e)
                  | None =>
                      match await c mResume (onResume env) with
                      | None => None
                      | Some (_, Some e) => Some (ResumeFailed k files e)
                      | Some (_, None) => Some (Completed k files)
                      end
                  end
              end
          end
      end
  end.

(** Attempt number [i] (from 0) of the query is the first one that is
    acknowledged, with [output]; those before it ended with an error. *)
Definition firstAcknowledged (mQuery : string -> bool) (ctx : Context)
  (opts : BackupOptions) (env : Env) (i : nat) (output : string) : Prop :=
  let c := WithTimeout ctx (CommandTimeout opts) in
  (forall j, (j < i)%nat -> exists e, ends c mQuery (onQuery env j) (Some e)) /\
  await c mQuery (onQuery env i) = Some (output, None).

(** The hold is acknowledged and the pause passes. *)
Definition held (mHold : string -> bool) (ctx : Context) (opts : BackupOptions)
  (env : Env) : Prop :=
  ends (WithTimeout ctx (CommandTimeout opts)) mHold (onHold env) None /\
  onPause env = None.

(** What a path says about the queries of the run it stands for. *)
Definition asks (mQuery : string -> bool) (ctx : Context) (opts : BackupOptions)
  (env : Env) (p : Path) : Prop :=
  let c := WithTimeout ctx (CommandTimeout opts) in
  let acknowledged (k : nat) (files : list File) (err : option error) :=
    exists i output,
      k = S i /\ (i < 3)%nat /\ firstAcknowledged mQuery ctx opts env i output /\
      snd (parseSaveQuery output) = err /\ (err = None -> fst (parseSaveQuery output) = files) in
  match p with
  | HoldFailed _ | PauseCancelled _ => True
  | QueryFailed e =>
      (forall j, (j < 3)%nat -> exists e', ends c mQuery (onQuery env j) (Some e')) /\
      ends c mQuery (onQuery env 2) (Some e)
  | ParseFailed k e => acknowledged k [] (Some e)
  | SinkFailed k files _ | ResumeFailed k files _ | Completed k files =>
      acknowledged k files None
  end.

(** The number of query attempts on a path. *)
Definition attemptsOf (p : Path) : nat :=
  match p with
  | HoldFailed _ | PauseCancelled _ => 0%nat
  | QueryFailed _ => 3%nat
  | ParseFailed k _ | SinkFailed k _ _ | ResumeFailed k _ _ | Completed k _ => k
  end.

(** The events of a path after its queries, up to [Unlock]. *)
Definition afterQueries (waits onErrorWaits : list Duration) (p : Path) : list event :=
  let resume := Command "save resume" waits in
  let deferred := Command "save resume" onErrorWaits in
  match p with
  | PauseCancelled _ => [Unlocked]
  | HoldFailed _ | QueryFailed _ | ParseFailed _ _ => [deferred; Unlocked]
  | SinkFailed _ files _ => [Backed files; deferred; Unlocked]
  | ResumeFailed _ files _ => [Backed files; resume; deferred; Unlocked]
  | Completed _ files => [Backed files; resume; Unlocked]
  end.

(** Every subscribed channel was made before: the next [make(chan string)]
    gives a channel that is none of them. *)
Definition freshChannels (s : Server) : Prop :=
  forall c, c ∈ subs (theConsole s) -> (c < chans s)%nat.

(** ** Vocabulary of the further statements *)

(** The lines received, without the empty ones that come before any text. *)
Fixpoint dropEmpty (lines : list string) : list string :=
  match lines with
  | EmptyString :: rest => dropEmpty rest
  | _ => lines
  end.

(** The text [SendRawCommandWaitResponse] has gathered from the lines it
    received. *)
Definition gathered (lines : list string) : string := strings.Join (dropEmpty lines) LF.

(** Some line of the response mentions [levelname.txt]. *)
Definition hasMarker (response : string) : Prop :=
  Exists (fun line => strings.Contains line "levelname.txt" = true)
    (strings.Split response LF).

(** The zero [File], as [make([]File, n)] fills a slice. *)
Definition noFile : File := {| Name := ""; Length := 0 |}.

(** What follows the second field of an entry: nothing, or further fields. *)
Definition moreFields (rest : string) : Prop :=
  (rest = "" \/ String.prefix ":" rest = true) /\ noByte "," rest /\ noByte "010" rest.

(** The second loop of [parseSaveQuery] reads the entry [e] as the file
    [f]: the first two fields of [e] are the name and, as an integer, the
    length of [f]. *)
Definition readsAs (e : string) (f : File) : Prop :=
  exists text more,
    strings.Split e ":" = Name f :: text :: more /\
    strconv.ParseInt text 10 = (Length f, None).

(** A length that is an [int64]. *)
Definition inInt64 (f : File) : Prop := - 2 ^ 63 <= Length f < 2 ^ 63.

(** ** Further sample data *)

(** A server that does not answer the first query, and answers the next. *)
Definition answersSecondQuery : Env :=
  {| onHold := lines ["Saving..."];
     onPause := None;
     onQuery := fun i => match i with O => silence | S _ => lines queryReply end;
     onResume := lines ["Changes to the world are resumed."];
     onDeferredResume := lines ["Changes to the world are resumed."] |}.

(** A server that holds and resumes, and never answers a query. *)
Definition neverListing : Env :=
  {| onHold := lines ["Saving..."];
     onPause := None;
     onQuery := fun _ => silence;
     onResume := lines ["Changes to the world are resumed."];
     onDeferredResume := lines ["Changes to the world are resumed."] |}.

(** A server whose listing has an entry without a length. *)
Definition garbledListing : Env :=
  {| onHold := lines ["Saving..."];
     onPause := None;
     onQuery := fun _ => lines ["Data saved. Files are now ready to be copied.";
                                "world/level.dat:2049, world/levelname.txt"];
     onResume := lines ["Changes to the world are resumed."];
     onDeferredResume := lines ["Changes to the world are resumed."] |}.

(** A server with one subscriber, channel 0, made before. *)
Definition watched : Server :=
  {| theConsole := {| input := ["list"]; subs := {[0%nat]} |}; backupMutex := false;
     chans := 1; journal := [] |}.

(** A server on which a backup is running. *)
Definition busy : Server :=
  {| theConsole := {| input := ["save hold"]; subs := ∅ |}; backupMutex := true;
     chans := 1; journal := [Locked; Command "save hold" [3 * Second]] |}.

(** * Properties *)

(** ** Splitting and joining *)

#[local] Arguments String.append !_ _ / : simpl nomatch.

Section SplitJoin.

Import strings.

Lemma append_empty_r (s : string) : s +:+ "" = s.
Proof. induction s as [|a s IH]; simpl; [reflexivity | now rewrite IH]. Qed.

Lemma append_assoc (a b c : string) : (a +:+ b) +:+ c = a +:+ b +:+ c.
Proof. induction a as [|x a IH]; simpl; [reflexivity | now rewrite IH]. Qed.

Lemma prefix_append (p s : string) : String.prefix p (p +:+ s) = true.
Proof.
  induction p as [|a p IH]; simpl; [now destruct s |].
  destruct (ascii_dec a a) as [_|n]; [exact IH | now destruct n].
Qed.

Lemma splitGo_not_nil (sep : string) (s : string) :
  forall skip, splitGo sep skip s <> [].
Proof.
  induction s as [|c s IH]; intros skip; cbn [splitGo]; [discriminate |].
  destruct skip as [|k]; [| apply IH].
  destruct (String.prefix sep (String c s)); [discriminate |].
  destruct (splitGo sep 0 s); discriminate.
Qed.

Lemma splitGo_skip (sep x rest : string) :
  splitGo sep (String.length x) (x +:+ rest) = splitGo sep 0 rest.
Proof. induction x as [|a x IH]; simpl; [reflexivity | exact IH]. Qed.

(** A piece without the separator's first byte is read as a whole. *)
Lemma splitGo_piece (c0 : ascii) (sep' e rest p : string) (ps : list string) :
  noByte c0 e ->
  splitGo (String c0 sep') 0 rest = p :: ps ->
  splitGo (String c0 sep') 0 (e +:+ rest) = (e +:+ p) :: ps.
Proof.
  intros He Hrest. induction e as [|a e IH]; simpl in *; [exact Hrest |].
  destruct He as [Hne He].
  destruct (ascii_dec c0 a) as [->|_]; [now destruct Hne |].
  now rewrite (IH He).
Qed.

Lemma splitGo_separator (c0 : ascii) (sep' rest : string) :
  splitGo (String c0 sep') 0 (String c0 sep' +:+ rest)
  = "" :: splitGo (String c0 sep') 0 rest.
Proof.
  change (String c0 sep' +:+ rest) with (String c0 (sep' +:+ rest)).
  cbn [splitGo].
  change (String c0 (sep' +:+ rest)) with (String c0 sep' +:+ rest).
  rewrite prefix_append.
  replace (String.length (String c0 sep') - 1)%nat with (String.length sep')
    by (cbn [String.length]; lia).
  now rewrite splitGo_skip.
Qed.

Lemma Split_piece (c0 : ascii) (sep' e : string) :
  noByte c0 e -> Split e (String c0 sep') = [e].
Proof.
  intros He. unfold Split.
  rewrite <- (append_empty_r e) at 1.
  rewrite (splitGo_piece c0 sep' e "" "" []); [| exact He | reflexivity].
  now rewrite append_empty_r.
Qed.

Lemma Split_cons (c0 : ascii) (sep' e rest : string) :
  noByte c0 e ->
  Split (e +:+ String c0 sep' +:+ rest) (String c0 sep')
  = e :: Split rest (String c0 sep').
Proof.
  intros He. unfold Split.
  rewrite (splitGo_piece c0 sep' e _ "" (splitGo (String c0 sep') 0 rest)).
  - now rewrite append_empty_r.
  - exact He.
  - apply splitGo_separator.
Qed.

(** Joining pieces that are free of the separator's first byte and
    splitting again gives the pieces back. *)
Lemma Split_Join (c0 : ascii) (sep' : string) (pieces : list string) :
  pieces <> [] ->
  Forall (noByte c0) pieces ->
  Split (Join pieces (String c0 sep')) (String c0 sep') = pieces.
Proof.
  induction pieces as [|e rest IH]; intros Hne Hall; [now destruct Hne |].
  inversion Hall as [|? ? He Hrest]; subst.
  destruct rest as [|e' rest'].
  - simpl. now apply Split_piece.
  - change (Join (e :: e' :: rest') (String c0 sep'))
      with (e +:+ String c0 sep' +:+ Join (e' :: rest') (String c0 sep')).
    rewrite Split_cons by exact He.
    f_equal. apply IH; [discriminate | exact Hrest].
Qed.

Lemma noByte_append (c : ascii) (a b : string) :
  noByte c (a +:+ b) <-> noByte c a /\ noByte c b.
Proof. induction a as [|x a IH]; simpl; tauto. Qed.

End SplitJoin.

(** ** Numerals *)

Section Numerals.

Import strconv.

(** Where the loop of [ParseUint] stops with an error, it is a syntax
    error, or a range error together with the largest value. *)
Lemma parseUintLoop_error (s : string) :
  forall n un e, parseUintLoop 10 s n = (un, Some e) ->
    e = NumError false \/ (e = NumError true /\ un = maxUint64).
Proof.
  induction s as [|c s IH]; intros n un e; cbn [parseUintLoop]; [discriminate |].
  destruct ((48 <=? code c) && (code c <=? 57)).
  - destruct (10 <=? code c - 48); [intros [= <- <-]; now left |].
    destruct (maxUint64 / 10 + 1 <=? n); [intros [= <- <-]; now right |].
    destruct ((uint64 (uint64 (n * 10) + (code c - 48)) <? uint64 (n * 10))
              || (maxUint64 <? uint64 (uint64 (n * 10) + (code c - 48))));
      [intros [= <- <-]; now right | apply IH].
  - destruct ((97 <=? lower c) && (lower c <=? 122)); [| intros [= <- <-]; now left].
    destruct (10 <=? lower c - 97 + 10); [intros [= <- <-]; now left |].
    destruct (maxUint64 / 10 + 1 <=? n); [intros [= <- <-]; now right |].
    destruct ((uint64 (uint64 (n * 10) + (lower c - 97 + 10)) <? uint64 (n * 10))
              || (maxUint64 <? uint64 (uint64 (n * 10) + (lower c - 97 + 10))));
      [intros [= <- <-]; now right | apply IH].
Qed.

(** A text the loop of [ParseUint] accepts is made of digits. *)
Lemma parseUintLoop_digits (c : ascii) (s : string) :
  isDigit c = false ->
  forall n, snd (parseUintLoop 10 s n) = None -> noByte c s.
Proof.
  intros Hc. induction s as [|a s IH]; intros n; cbn [parseUintLoop noByte]; [trivial |].
  destruct ((48 <=? code a) && (code a <=? 57)) eqn:Hd.
  - destruct (10 <=? code a - 48); [discriminate |].
    destruct (maxUint64 / 10 + 1 <=? n); [discriminate |].
    destruct ((uint64 (uint64 (n * 10) + (code a - 48)) <? uint64 (n * 10))
              || (maxUint64 <? uint64 (uint64 (n * 10) + (code a - 48))));
      [discriminate |].
    intros H. split; [| exact (IH _ H)].
    intros ->. unfold isDigit in Hc. congruence.
  - destruct ((97 <=? lower a) && (lower a <=? 122)) eqn:Hl; [| discriminate].
    apply andb_true_iff in Hl as [Hl _]. apply Z.leb_le in Hl.
    destruct (10 <=? lower a - 97 + 10) eqn:Hb; [discriminate |].
    apply Z.leb_gt in Hb. lia.
Qed.

Lemma ParseUint_digits (c : ascii) (s : string) :
  isDigit c = false -> snd (ParseUint s 10) = None -> noByte c s.
Proof.
  intros Hc. destruct s as [|a s]; [intros _; exact I |].
  apply (parseUintLoop_digits c (String a s) Hc 0).
Qed.

Lemma ParseInt_accepts_ParseUint (c0 : ascii) (s' : string) :
  snd (ParseInt (String c0 s') 10) = None ->
  snd (ParseUint (if Ascii.eqb c0 "+" || Ascii.eqb c0 "-" then s' else String c0 s') 10)
  = None.
Proof.
  cbn [ParseInt].
  set (s1 := if Ascii.eqb c0 "+" || Ascii.eqb c0 "-" then s' else String c0 s').
  destruct (ParseUint s1 10) as [un [e|]] eqn:Hu; [| reflexivity].
  assert (He : e = NumError false \/ (e = NumError true /\ un = maxUint64)).
  { destruct s1 as [|a s1]; [cbn in Hu; injection Hu as <- <-; now left |].
    exact (parseUintLoop_error _ _ _ _ Hu). }
  destruct He as [-> | [-> ->]]; cbn [isRange negb]; [discriminate |].
  destruct (Ascii.eqb c0 "-"); cbn; discriminate.
Qed.

(** A text [ParseInt] accepts holds no byte other than digits and signs. *)
Lemma ParseInt_bytes (c : ascii) (t : string) :
  isDigit c = false -> c <> "+"%char -> c <> "-"%char ->
  snd (ParseInt t 10) = None -> noByte c t.
Proof.
  intros Hc Hplus Hminus H. destruct t as [|c0 s']; [exact I |].
  apply ParseInt_accepts_ParseUint in H.
  destruct (Ascii.eqb c0 "+") eqn:Ep; [apply Ascii.eqb_eq in Ep as ->|].
  - cbn [orb] in H. split; [congruence | exact (ParseUint_digits c s' Hc H)].
  - destruct (Ascii.eqb c0 "-") eqn:Em; [apply Ascii.eqb_eq in Em as ->|].
    + cbn [orb] in H. split; [congruence | exact (ParseUint_digits c s' Hc H)].
    + cbn [orb] in H. exact (ParseUint_digits c _ Hc H).
Qed.

Lemma code_digitChar (d : Z) : 0 <= d <= 9 -> code (digitChar d) = 48 + d.
Proof.
  intros Hd.
  assert (H : d = 0 \/ d = 1 \/ d = 2 \/ d = 3 \/ d = 4 \/
              d = 5 \/ d = 6 \/ d = 7 \/ d = 8 \/ d = 9) by lia.
  repeat (destruct H as [-> | H]; [reflexivity |]). now subst d.
Qed.

(** One step of the loop of [ParseUint] on a digit, short of overflow. *)
Lemma parseUintLoop_digit (d m : Z) (s : string) :
  0 <= d <= 9 -> 0 <= m -> m * 10 + d <= maxUint64 ->
  parseUintLoop 10 (String (digitChar d) s) m = parseUintLoop 10 s (m * 10 + d).
Proof.
  intros Hd Hm Hmax. cbn [parseUintLoop]. rewrite (code_digitChar d Hd).
  unfold maxUint64, uint64 in *.
  replace ((48 <=? 48 + d) && (48 + d <=? 57)) with true
    by (symmetry; apply andb_true_iff; split; apply Z.leb_le; lia).
  replace (10 <=? 48 + d - 48) with false by (symmetry; apply Z.leb_gt; lia).
  replace ((2 ^ 64 - 1) / 10 + 1 <=? m) with false.
  2:{ symmetry. apply Z.leb_gt.
      assert (m <= (2 ^ 64 - 1) / 10) by (apply Z.div_le_lower_bound; lia). lia. }
  rewrite (Z.mod_small (m * 10)) by lia.
  replace (m * 10 + (48 + d - 48)) with (m * 10 + d) by lia.
  rewrite (Z.mod_small (m * 10 + d)) by lia.
  replace ((m * 10 + d <? m * 10) || (2 ^ 64 - 1 <? m * 10 + d)) with false; [reflexivity |].
  symmetry. apply orb_false_iff. split; apply Z.ltb_ge; lia.
Qed.

(** The loop of [ParseUint] reads the digits of [n] as [n], in front of
    what it has read so far. *)
Lemma parseUintLoop_digits_of (fuel : nat) :
  forall n acc, 0 <= n < 10 ^ Z.of_nat fuel ->
    exists k, 0 <= k /\
      forall m, 0 <= m -> m * 10 ^ k + n <= maxUint64 ->
        parseUintLoop 10 (digits fuel n acc) m = parseUintLoop 10 acc (m * 10 ^ k + n).
Proof.
  induction fuel as [|fuel IH]; intros n acc Hn.
  - exists 0. split; [lia |]. intros m _ _. cbn [digits].
    change (10 ^ Z.of_nat 0) with 1 in Hn. f_equal. lia.
  - cbn [digits]. destruct (n <? 10) eqn:Hsmall.
    + apply Z.ltb_lt in Hsmall. exists 1. split; [lia |]. intros m Hm Hmax.
      rewrite Z.mod_small by lia. change (10 ^ 1) with 10 in *.
      now apply parseUintLoop_digit; [lia | |].
    + apply Z.ltb_ge in Hsmall.
      assert (Hdiv : 0 <= n / 10 < 10 ^ Z.of_nat fuel).
      { split; [apply Z.div_pos; lia |].
        apply Z.div_lt_upper_bound; [lia |].
        rewrite Nat2Z.inj_succ, Z.pow_succ_r in Hn by lia. lia. }
      destruct (IH (n / 10) (String (digitChar (n mod 10)) acc) Hdiv) as (k & Hk & Hread).
      exists (Z.succ k). split; [lia |]. intros m Hm Hmax.
      rewrite Z.pow_succ_r in Hmax by lia.
      pose proof (Z.div_mod n 10 ltac:(lia)) as Hdm.
      pose proof (Z.mod_pos_bound n 10 ltac:(lia)) as Hmod.
      assert (Hpow : 0 < 10 ^ k) by (apply Z.pow_pos_nonneg; lia).
      rewrite Hread by nia.
      rewrite parseUintLoop_digit by nia.
      f_equal. rewrite Z.pow_succ_r by lia. nia.
Qed.

Lemma digits_head (fuel : nat) :
  forall n acc, exists d rest,
    0 <= d <= 9 /\ digits (S fuel) n acc = String (digitChar d) rest.
Proof.
  assert (Hmod : forall n, 0 <= n mod 10 <= 9)
    by (intros n; pose proof (Z.mod_pos_bound n 10 ltac:(lia)); lia).
  induction fuel as [|fuel IH]; intros n acc; cbn [digits].
  - exists (n mod 10), acc. split; [apply Hmod | now destruct (n <? 10)].
  - destruct (n <? 10); [exists (n mod 10), acc; split; [apply Hmod | reflexivity] |].
    apply IH.
Qed.

Lemma digitChar_not_sign (d : Z) :
  0 <= d <= 9 -> Ascii.eqb (digitChar d) "+" = false /\ Ascii.eqb (digitChar d) "-" = false.
Proof.
  intros Hd.
  assert (H : d = 0 \/ d = 1 \/ d = 2 \/ d = 3 \/ d = 4 \/
              d = 5 \/ d = 6 \/ d = 7 \/ d = 8 \/ d = 9) by lia.
  repeat (destruct H as [-> | H]; [now split |]). now subst d.
Qed.

Lemma ParseUint_digits_of (n : Z) :
  0 <= n <= maxUint64 -> ParseUint (digits 20 n "") 10 = (n, None).
Proof.
  intros Hn. unfold ParseUint.
  destruct (digits_head 19 n "") as (d & rest & _ & Hhead).
  rewrite Hhead, <- Hhead.
  destruct (parseUintLoop_digits_of 20 n "") as (k & _ & Hread).
  { unfold maxUint64 in Hn. split; [lia |]. change (10 ^ Z.of_nat 20) with 100000000000000000000. lia. }
  rewrite (Hread 0) by lia. cbn [parseUintLoop]. f_equal; lia.
Qed.

(** [ParseInt] reads the decimal numeral of an [int64] as that integer. *)
Lemma ParseInt_decimal (n : Z) :
  - 2 ^ 63 <= n < 2 ^ 63 -> ParseInt (decimal n) 10 = (n, None).
Proof.
  intros Hn. unfold decimal. destruct (n <? 0) eqn:Hneg.
  - apply Z.ltb_lt in Hneg. cbn [ParseInt Ascii.eqb Bool.eqb orb andb].
    rewrite ParseUint_digits_of by (unfold maxUint64; lia).
    cbn [negb andb].
    replace (2 ^ 63 <? - n) with false by (symmetry; apply Z.ltb_ge; lia).
    f_equal. unfold int64.
    destruct (Z.eq_dec n (- 2 ^ 63)) as [-> | Hne]; [reflexivity |].
    rewrite (Z.mod_small (- n + 2 ^ 63)) by lia.
    replace (- (- n + 2 ^ 63 - 2 ^ 63) + 2 ^ 63) with (n + 2 ^ 63) by lia.
    rewrite Z.mod_small by lia. lia.
  - apply Z.ltb_ge in Hneg.
    destruct (digits_head 19 n "") as (d & rest & Hd & Hhead).
    pose proof (ParseUint_digits_of n ltac:(unfold maxUint64; lia)) as Hread.
    rewrite Hhead in Hread |- *.
    destruct (digitChar_not_sign d Hd) as [Hplus Hminus].
    cbn [ParseInt]. rewrite Hplus, Hminus. cbn [orb]. rewrite Hread.
    cbn [negb andb].
    replace (2 ^ 63 <=? n) with false by (symmetry; apply Z.leb_gt; lia).
    f_equal. unfold int64. rewrite Z.mod_small by lia. lia.
Qed.

End Numerals.

(** ** The save-query parser *)

Section Parser.

Import strings.

Lemma findResultLine_none (lines : list string) :
  Forall (fun line => Contains line "levelname.txt" = false) lines ->
  findResultLine lines = "".
Proof.
  induction 1 as [|line rest Hline _ IH]; cbn [findResultLine]; [reflexivity |].
  now rewrite Hline.
Qed.

Lemma findResultLine_some (lines : list string) :
  Exists (fun line => Contains line "levelname.txt" = true) lines ->
  findResultLine lines <> "".
Proof.
  induction lines as [|line rest IH]; intros Hex; [inversion Hex |].
  cbn [findResultLine].
  destruct (Contains line "levelname.txt") eqn:Hline.
  - intros ->. discriminate.
  - apply IH. inversion Hex; subst; [congruence | assumption].
Qed.

(** The only error of the second loop is the one for an invalid entry. *)
Lemma parseEntries_error (entries : list string) :
  forall i files,
    snd (parseEntries entries i files) = None \/
    exists e, snd (parseEntries entries i files) = Some (invalidEntry e).
Proof.
  induction entries as [|e rest IH]; intros i files; cbn [parseEntries]; [now left |].
  destruct (Split e ":") as [|f0 [|f1 tl]]; [right; now exists e .. |].
  destruct (strconv.ParseInt f1 10) as [len [err|]]; [right; now exists e | apply IH].
Qed.

Lemma parseEntries_turnedDown (entries : list string) (e : string) :
  In e entries -> turnedDown e ->
  forall i files, snd (parseEntries entries i files) <> None.
Proof.
  intros Hin Hbad.
  induction entries as [|e0 rest IH]; intros i files; [destruct Hin |].
  cbn [parseEntries].
  destruct (Split e0 ":") as [|f0 [|f1 tl]] eqn:Hs; [discriminate .. |].
  destruct (strconv.ParseInt f1 10) as [len [err|]] eqn:Hp; [discriminate |].
  destruct Hin as [-> | Hin]; [| now apply IH].
  unfold turnedDown in Hbad. rewrite Hs, Hp in Hbad. now destruct Hbad.
Qed.

Lemma malformed_turnedDown (e : string) : malformed e -> turnedDown e.
Proof.
  unfold turnedDown.
  intros [Hno | (name & text & rest & -> & Hname & Htext & Hrest & Hint)].
  - now rewrite (Split_piece ":" "" e Hno).
  - rewrite (Split_cons ":" "" name (text +:+ rest) Hname).
    destruct Hrest as [-> | Hrest].
    + rewrite append_empty_r, (Split_piece ":" "" text Htext). exact Hint.
    + destruct rest as [|c rest]; [cbn in Hrest; discriminate |].
      cbn [String.prefix] in Hrest.
      destruct (ascii_dec ":" c) as [<-|]; [| discriminate].
      change (String ":" rest) with (":" +:+ rest).
      rewrite (Split_cons ":" "" text rest Htext). exact Hint.
Qed.

(** The second loop on well-formed entries fills the slice from index
    [i] on with the files they name, in order. *)
Lemma parseEntries_accepts (items : list (File * string)) :
  forall (i : nat) (files : list File),
    (i + length items <= length files)%nat ->
    Forall (fun it : File * string =>
              noByte ":" (Name it.1) /\
              strconv.ParseInt it.2 10 = (Length it.1, None)) items ->
    parseEntries (map (fun it : File * string => entry (Name it.1) it.2) items) i files
    = (take i files ++ map fst items ++ drop (i + length items) files, None).
Proof.
  induction items as [|[f t] rest IH]; intros i files Hlen Hall.
  - cbn [map parseEntries length app]. rewrite Nat.add_0_r, take_drop. reflexivity.
  - inversion Hall as [|? ? [Hname Hint] Hrest]; subst. cbn [fst snd] in *.
    cbn [map parseEntries fst snd length] in *.
    assert (Ht : noByte ":" t).
    { apply ParseInt_bytes; [reflexivity | discriminate | discriminate |].
      now rewrite Hint. }
    unfold entry at 1.
    rewrite (Split_cons ":" "" (Name f) t Hname), (Split_piece ":" "" t Ht), Hint.
    rewrite IH; [| rewrite length_insert; lia | exact Hrest].
    f_equal.
    rewrite (take_S_r (<[i:=_]> files) i {| Name := Name f; Length := Length f |})
      by (apply list_lookup_insert_eq; lia).
    rewrite take_insert_ge by lia.
    rewrite drop_insert_lt by lia.
    destruct f as [n l]. cbn [Name Length].
    rewrite <- app_assoc. cbn [app].
    replace (S i + length rest)%nat with (i + S (length rest))%nat by lia.
    reflexivity.
Qed.

End Parser.

Lemma Split_LF_not_nil (response : string) : strings.Split response LF <> [].
Proof. apply splitGo_not_nil. Qed.

Lemma at_least_one_line (response : string) :
  (1 <= length (strings.Split response LF))%nat /\
  (length (strings.Split response LF) <? 1)%nat = false.
Proof.
  assert (Hlen : (1 <= length (strings.Split response LF))%nat).
  { pose proof (Split_LF_not_nil response) as Hne.
    destruct (strings.Split response LF); [now destruct Hne | cbn; lia]. }
  split; [exact Hlen | apply Nat.ltb_ge; exact Hlen].
Qed.

(** C10.  For every response, splitting it on line feeds gives at least one
    line, so the test for fewer than one line never holds and
    [parseSaveQuery] never returns the error "not enough lines in
    response". *)
Theorem parseSaveQuery_not_enough_lines_unreachable (response : string) :
  (1 <= length (strings.Split response LF))%nat /\
  (length (strings.Split response LF) <? 1)%nat = false /\
  snd (parseSaveQuery response) <> Some (Errorf "not enough lines in response").
Proof.
  pose proof (at_least_one_line response) as [Hlen Htest].
  repeat split; [exact Hlen | exact Htest |].
  unfold parseSaveQuery. rewrite Htest.
  destruct (String.eqb (findResultLine (strings.Split response LF)) "");
    [cbn; discriminate |].
  match goal with
  | |- snd (parseEntries ?es ?i ?fs) <> _ =>
      destruct (parseEntries_error es i fs) as [-> | [e ->]]
  end; [discriminate |].
  unfold invalidEntry. discriminate.
Qed.

(** C6.  A response without the [levelname.txt] marker line, or with an
    entry on its listing line that has no [:] or whose length field is not
    an integer, makes [parseSaveQuery] return an error: no such response is
    accepted; without the marker no file is returned at all. *)
Theorem parseSaveQuery_rejects (response : string) :
  lacksMarker response \/ hasMalformedEntry response ->
  (exists err, snd (parseSaveQuery response) = Some err) /\
  (lacksMarker response ->
     parseSaveQuery response = ([], Some (Errorf "no results fount in given response"))).
Proof.
  intros H.
  pose proof (at_least_one_line response) as [_ Htest].
  assert (Hmark : lacksMarker response ->
     parseSaveQuery response = ([], Some (Errorf "no results fount in given response"))).
  { intros Hno. unfold parseSaveQuery. rewrite Htest.
    now rewrite (findResultLine_none _ Hno). }
  split; [| exact Hmark].
  destruct H as [Hno | (e & Hin & Hbad)].
  - rewrite (Hmark Hno). now eexists.
  - destruct (snd (parseSaveQuery response)) as [err|] eqn:Herr; [now exists err |].
    exfalso. revert Herr. unfold parseSaveQuery. rewrite Htest.
    destruct (String.eqb (findResultLine (strings.Split response LF)) "");
      [cbn; discriminate |].
    apply (parseEntries_turnedDown _ e Hin (malformed_turnedDown e Hbad)).
Qed.

Ltac no_byte := cbn; repeat split; discriminate.

Lemma parseSaveQuery_rejects_witness :
  (hasMalformedEntry ("levelname.txt" +:+ LF +:+ "a:10, x:notanumber") /\
   exists err, snd (parseSaveQuery ("levelname.txt" +:+ LF +:+ "a:10, x:notanumber")) = Some err)
  /\
  (lacksMarker "a:10, b:20, c:30" /\
   parseSaveQuery "a:10, b:20, c:30"
   = ([], Some (Errorf "no results fount in given response"))).
Proof.
  assert (H1 : hasMalformedEntry ("levelname.txt" +:+ LF +:+ "a:10, x:notanumber")).
  { exists "x:notanumber". split; [cbn; right; left; reflexivity |].
    right. exists "x", "notanumber", "".
    repeat split; try discriminate; try (left; reflexivity). }
  assert (H2 : lacksMarker "a:10, b:20, c:30").
  { unfold lacksMarker. cbn. repeat constructor. }
  split.
  - split; [exact H1 |].
    exact (proj1 (parseSaveQuery_rejects _ (or_intror H1))).
  - split; [exact H2 |].
    exact (proj2 (parseSaveQuery_rejects _ (or_introl H2)) H2).
Defined.

Lemma noByte_Join (c : ascii) (sep : string) (pieces : list string) :
  noByte c sep -> Forall (noByte c) pieces -> noByte c (strings.Join pieces sep).
Proof.
  intros Hsep. induction 1 as [|e rest He Hrest IH]; [exact I |].
  destruct rest as [|e' rest']; [exact He |].
  change (strings.Join (e :: e' :: rest') sep)
    with (e +:+ sep +:+ strings.Join (e' :: rest') sep).
  rewrite !noByte_append. auto.
Qed.

Lemma noByte_entry (c : ascii) (name text : string) :
  isDigit c = false -> c <> "+"%char -> c <> "-"%char -> c <> ":"%char ->
  noByte c name -> snd (strconv.ParseInt text 10) = None ->
  noByte c (entry name text).
Proof.
  intros Hd Hp Hm Hc Hname Hint. unfold entry.
  rewrite !noByte_append. repeat split; try assumption.
  - congruence.
  - now apply ParseInt_bytes.
Qed.

(** The parser on a listing whose lengths are given as texts. *)
Lemma parseSaveQuery_listing_texts (before : list string) (items : list (File * string)) :
  items <> [] ->
  Forall listed items ->
  Forall (noByte "010") before ->
  let listing := strings.Join (map (fun it : File * string => entry (Name it.1) it.2) items) ", " in
  Exists (fun line => strings.Contains line "levelname.txt" = true) (before ++ [listing]) ->
  parseSaveQuery (strings.Join (before ++ [listing]) LF) = (map fst items, None).
Proof.
  intros Hne Hitems Hbefore listing Hmark.
  assert (Hints : Forall (fun it : File * string =>
            snd (strconv.ParseInt it.2 10) = None) items).
  { eapply Forall_impl; [exact Hitems |]. intros it (_ & _ & _ & ->). reflexivity. }
  assert (Hcomma : Forall (noByte ",") (map (fun it : File * string => entry (Name it.1) it.2) items)).
  { apply Forall_map. rewrite Forall_forall in Hitems, Hints |- *. intros it Hin.
    destruct (Hitems it Hin) as (_ & Hc & _ & _).
    apply noByte_entry; try discriminate; [reflexivity | exact Hc | exact (Hints it Hin)]. }
  assert (Hlf : noByte "010" listing).
  { apply noByte_Join; [no_byte |].
    apply Forall_map. rewrite Forall_forall in Hitems, Hints |- *. intros it Hin.
    destruct (Hitems it Hin) as (_ & _ & Hl & _).
    apply noByte_entry; try discriminate; [reflexivity | exact Hl | exact (Hints it Hin)]. }
  assert (Hlines : strings.Split (strings.Join (before ++ [listing]) LF) LF = before ++ [listing]).
  { apply (Split_Join "010" ""); [now destruct before |].
    apply Forall_app. split; [exact Hbefore | now constructor]. }
  assert (Hentries : strings.Split listing ", "
                     = map (fun it : File * string => entry (Name it.1) it.2) items).
  { apply (Split_Join "," " "); [now destruct items | exact Hcomma]. }
  unfold parseSaveQuery. rewrite Hlines.
  replace (length (before ++ [listing]) <? 1)%nat with false
    by (symmetry; apply Nat.ltb_ge; rewrite length_app; cbn; lia).
  pose proof (findResultLine_some _ Hmark) as Hfound.
  apply String.eqb_neq in Hfound. rewrite Hfound.
  rewrite last_last, Hentries.
  rewrite parseEntries_accepts.
  - cbn [take app]. rewrite length_map, drop_ge by (rewrite length_replicate; lia).
    now rewrite app_nil_r.
  - rewrite length_replicate, length_map. lia.
  - eapply Forall_impl; [exact Hitems |]. intros it (Hc & _ & _ & Hp). now split.
Qed.

(** C5.  For every response whose lines are [before] followed by a listing
    line of [name:length] entries separated by [", "], the lengths written
    in decimal, some line mentioning [levelname.txt], [parseSaveQuery]
    returns exactly the files of the listing, in the order of the entries,
    and no error; so [a:10, b:20, c:30] gives [{a,10}; {b,20}; {c,30}]. *)
Theorem parseSaveQuery_returns_listing (before : list string) (files : list File) :
  files <> [] ->
  Forall wellFormed files ->
  Forall (noByte "010") before ->
  let listing := strings.Join (map listingEntry files) ", " in
  Exists (fun line => strings.Contains line "levelname.txt" = true) (before ++ [listing]) ->
  parseSaveQuery (strings.Join (before ++ [listing]) LF) = (files, None).
Proof.
  intros Hne Hfiles Hbefore listing Hmark.
  set (items := map (fun f : File => (f, decimal (Length f))) files).
  assert (Hentries : map (fun it : File * string => entry (Name it.1) it.2) items
                     = map listingEntry files).
  { unfold items. rewrite map_map. reflexivity. }
  assert (Hfst : map fst items = files).
  { unfold items. rewrite map_map. apply map_id. }
  unfold listing in *. rewrite <- Hentries in *.
  replace (files, @None error) with (map fst items, @None error) by now rewrite Hfst.
  apply parseSaveQuery_listing_texts.
  - unfold items. now destruct files.
  - unfold items. apply Forall_map. eapply Forall_impl; [exact Hfiles |].
    intros f (Hc & Hm & Hl & Hrange). cbn [fst snd].
    repeat split; try assumption. now apply ParseInt_decimal.
  - exact Hbefore.
  - exact Hmark.
Qed.

Lemma parseSaveQuery_returns_listing_witness :
  parseSaveQuery ("levelname.txt" +:+ LF +:+ "a:10, b:20, c:30")
  = ([{| Name := "a"; Length := 10 |}; {| Name := "b"; Length := 20 |};
      {| Name := "c"; Length := 30 |}], None)
  /\
  parseSaveQuery ("Data saved. Files are now ready to be copied." +:+ LF +:+
                  "world/db/CURRENT:16, world/level.dat:2049, world/levelname.txt:12")
  = ([{| Name := "world/db/CURRENT"; Length := 16 |};
      {| Name := "world/level.dat"; Length := 2049 |};
      {| Name := "world/levelname.txt"; Length := 12 |}], None).
Proof.
  split.
  - apply (parseSaveQuery_returns_listing ["levelname.txt"]
             [{| Name := "a"; Length := 10 |}; {| Name := "b"; Length := 20 |};
              {| Name := "c"; Length := 30 |}]).
    + discriminate.
    + repeat constructor; try no_byte; cbn; lia.
    + repeat constructor; no_byte.
    + apply Exists_cons_hd. reflexivity.
  - apply (parseSaveQuery_returns_listing ["Data saved. Files are now ready to be copied."]
             [{| Name := "world/db/CURRENT"; Length := 16 |};
              {| Name := "world/level.dat"; Length := 2049 |};
              {| Name := "world/levelname.txt"; Length := 12 |}]).
    + discriminate.
    + repeat constructor; try no_byte; cbn; lia.
    + repeat constructor; no_byte.
    + apply Exists_cons_tl, Exists_cons_hd. reflexivity.
Defined.

(** ** Path resolution *)

Section Paths.

Import strings.

Lemma Join_snoc (elems : list string) (e sep : string) :
  elems <> [] -> Join (elems ++ [e]) sep = Join elems sep +:+ sep +:+ e.
Proof.
  induction elems as [|a rest IH]; intros Hne; [now destruct Hne |].
  destruct rest as [|b rest']; [reflexivity |].
  change (Join ((a :: b :: rest') ++ [e]) sep)
    with (a +:+ sep +:+ Join ((b :: rest') ++ [e]) sep).
  rewrite IH by discriminate.
  change (Join (a :: b :: rest') sep) with (a +:+ sep +:+ Join (b :: rest') sep).
  now rewrite !append_assoc.
Qed.

Lemma Join_not_empty (e : string) (rest : list string) (sep : string) :
  e <> "" -> Join (e :: rest) sep <> "".
Proof.
  intros He. destruct e as [|a e]; [now destruct He |].
  destruct rest; cbn; discriminate.
Qed.

Lemma Join_not_rooted (e : string) (rest : list string) :
  plain e -> String.prefix "/" (Join (e :: rest) "/") = false.
Proof.
  intros (He & _ & _ & Hno). destruct e as [|a e]; [now destruct He |].
  destruct Hno as [Ha _].
  assert (H : forall s, String.prefix "/" (String a s) = false).
  { intros s0. cbn [String.prefix].
    destruct (ascii_dec "/" a) as [<-|_]; [now destruct Ha | reflexivity]. }
  destruct rest; cbn [Join]; [apply H | cbn [String.append]; apply H].
Qed.

Lemma plain_noByte (elems : list string) :
  Forall plain elems -> Forall (noByte "/") elems.
Proof. intros H. eapply Forall_impl; [exact H |]. now intros e (_ & _ & _ & He). Qed.

Lemma cleanStep_plain (rooted : bool) (out : list string) (e : string) :
  plain e -> filepath.cleanStep rooted out e = e :: out.
Proof.
  intros (H0 & H1 & H2 & _). unfold filepath.cleanStep.
  apply String.eqb_neq in H0, H1, H2. now rewrite H0, H1, H2.
Qed.

Lemma fold_cleanStep_plain (rooted : bool) (elems : list string) :
  Forall plain elems ->
  forall out, fold_left (filepath.cleanStep rooted) elems out = rev elems ++ out.
Proof.
  induction 1 as [|e rest He _ IH]; intros out; [reflexivity |].
  cbn [fold_left rev]. rewrite (cleanStep_plain _ _ _ He), IH.
  now rewrite <- app_assoc.
Qed.

(** A path made of ordinary elements is clean, *)
Lemma Clean_plain (elems : list string) :
  elems <> [] -> Forall plain elems ->
  filepath.Clean (Join elems "/") = Join elems "/".
Proof.
  intros Hne Hall. destruct elems as [|e rest]; [now destruct Hne |].
  assert (He : plain e) by now inversion Hall.
  pose proof (Join_not_empty e rest "/" (proj1 He)) as Hnot.
  apply String.eqb_neq in Hnot.
  unfold filepath.Clean.
  rewrite Hnot, (Join_not_rooted e rest He).
  rewrite (Split_Join "/" "") by (try discriminate; now apply plain_noByte).
  rewrite (fold_cleanStep_plain false _ Hall), app_nil_r, rev_involutive.
  now rewrite Hnot.
Qed.

(** also when a separator follows it, *)
Lemma Clean_plain_separator (elems : list string) :
  elems <> [] -> Forall plain elems ->
  filepath.Clean (Join elems "/" +:+ "/") = Join elems "/".
Proof.
  intros Hne Hall. destruct elems as [|e rest]; [now destruct Hne |].
  assert (He : plain e) by now inversion Hall.
  pose proof (Join_not_empty e rest "/" (proj1 He)) as Hnot.
  apply String.eqb_neq in Hnot.
  assert (Hsnoc : Join (e :: rest) "/" +:+ "/" = Join ((e :: rest) ++ [""]) "/")
    by (rewrite Join_snoc by discriminate; now rewrite append_empty_r).
  unfold filepath.Clean. rewrite Hsnoc.
  replace (String.eqb (Join ((e :: rest) ++ [""]) "/") "") with false
    by (symmetry; apply String.eqb_neq, Join_not_empty, He).
  rewrite (Join_not_rooted e (rest ++ [""]) He : String.prefix "/" (Join ((e :: rest) ++ [""]) "/") = false).
  rewrite (Split_Join "/" "");
    [| discriminate
     | apply Forall_app; split; [now apply plain_noByte | now repeat constructor]].
  rewrite fold_left_app, (fold_cleanStep_plain false _ Hall), app_nil_r.
  cbn [fold_left filepath.cleanStep String.eqb orb].
  rewrite rev_involutive. now rewrite Hnot.
Qed.

(** and [.] in front of it is dropped. *)
Lemma Clean_dot_plain (elems : list string) :
  elems <> [] -> Forall plain elems ->
  filepath.Clean ("." +:+ "/" +:+ Join elems "/") = Join elems "/".
Proof.
  intros Hne Hall. destruct elems as [|e rest]; [now destruct Hne |].
  assert (He : plain e) by now inversion Hall.
  pose proof (Join_not_empty e rest "/" (proj1 He)) as Hnot.
  apply String.eqb_neq in Hnot.
  unfold filepath.Clean.
  rewrite (Split_cons "/" "" "." _) by no_byte.
  rewrite (Split_Join "/" "") by (try discriminate; now apply plain_noByte).
  replace (String.eqb ("." +:+ "/" +:+ Join (e :: rest) "/") "") with false by reflexivity.
  replace (String.prefix "/" ("." +:+ "/" +:+ Join (e :: rest) "/")) with false by reflexivity.
  change (fold_left (filepath.cleanStep false) ("." :: e :: rest) [])
    with (fold_left (filepath.cleanStep false) (e :: rest) []).
  rewrite (fold_cleanStep_plain false _ Hall), app_nil_r, rev_involutive.
  now rewrite Hnot.
Qed.

Lemma Split_path (dirs : list string) (base : string) :
  Forall plain dirs -> plain base ->
  Split (Join (dirs ++ [base]) "/") "/" = dirs ++ [base].
Proof.
  intros Hd Hb. apply (Split_Join "/" ""); [now destruct dirs |].
  apply plain_noByte, Forall_app. split; [exact Hd | now constructor].
Qed.

Lemma filter_plain (elems : list string) :
  Forall plain elems ->
  List.filter (fun e => negb (String.eqb e "")) elems = elems.
Proof.
  induction 1 as [|e rest He _ IH]; [reflexivity |].
  cbn [List.filter]. destruct He as (H0 & _). apply String.eqb_neq in H0.
  now rewrite H0, IH.
Qed.

Lemma Base_path (dirs : list string) (base : string) :
  Forall plain dirs -> plain base ->
  filepath.Base (Join (dirs ++ [base]) "/") = base.
Proof.
  intros Hd Hb. unfold filepath.Base.
  assert (Hne : Join (dirs ++ [base]) "/" <> "").
  { destruct dirs as [|d dirs']; [exact (proj1 Hb) |].
    apply Join_not_empty. inversion Hd as [|? ? Hp _]. exact (proj1 Hp). }
  apply String.eqb_neq in Hne. rewrite Hne, Split_path by assumption.
  rewrite filter_plain by (apply Forall_app; split; [exact Hd | now constructor]).
  apply last_last.
Qed.

Lemma Dir_path (dirs : list string) (base : string) :
  Forall plain dirs -> plain base ->
  filepath.Dir (Join (dirs ++ [base]) "/")
  = match dirs with [] => "." | _ => Join dirs "/" end.
Proof.
  intros Hd Hb. unfold filepath.Dir, filepath.throughLastSeparator.
  rewrite Split_path by assumption.
  destruct dirs as [|d dirs']; [reflexivity |].
  replace (length ((d :: dirs') ++ [base]) <=? 1)%nat with false
    by (symmetry; apply Nat.leb_gt; rewrite length_app; cbn; lia).
  rewrite removelast_last.
  apply Clean_plain_separator; [discriminate | exact Hd].
Qed.

Lemma plain_db : plain "db".
Proof. repeat split; try discriminate. Qed.

(** Joining a directory of ordinary elements ([.] when there is none)
    and one more ordinary element. *)
Lemma Join_dir (dirs : list string) (e : string) :
  Forall plain dirs -> plain e ->
  filepath.Join [match dirs with [] => "." | _ => Join dirs "/" end; e]
  = Join (dirs ++ [e]) "/".
Proof.
  intros Hd He. destruct dirs as [|d dirs'].
  - cbn [filepath.Join String.eqb app].
    change (Join ["."; e] "/") with ("." +:+ "/" +:+ Join [e] "/").
    apply Clean_dot_plain; [discriminate | now constructor].
  - assert (Hne : Join (d :: dirs') "/" <> "").
    { apply Join_not_empty. inversion Hd as [|? ? Hp _]. exact (proj1 Hp). }
    apply String.eqb_neq in Hne.
    cbn [filepath.Join]. rewrite Hne.
    change (Join [Join (d :: dirs') "/"; e] "/") with (Join (d :: dirs') "/" +:+ "/" +:+ e).
    rewrite <- Join_snoc by discriminate.
    apply Clean_plain; [discriminate |].
    apply Forall_app. split; [exact Hd | now constructor].
Qed.

End Paths.

(** C7.  With the static list, [realFilePath] leaves the reported path of a
    file whose base name is [level.dat], [level.dat_old] or [levelname.txt]
    as it is, and for every other file puts a [db] directory between the
    directory and the base name; the reported name being a relative path of
    ordinary elements, [dirs] then [base]. *)
Theorem realFilePath_static_list (dirs : list string) (base : string) (len : Z) :
  Forall plain dirs -> plain base ->
  let name := strings.Join (dirs ++ [base]) "/" in
  (In base nonDBFiles -> realFilePath {| Name := name; Length := len |} = name) /\
  (~ In base nonDBFiles ->
     realFilePath {| Name := name; Length := len |}
     = strings.Join (dirs ++ ["db"; base]) "/").
Proof.
  intros Hd Hb name. unfold realFilePath, name. cbn [Name].
  rewrite Base_path, Dir_path by assumption.
  split; intros Hin.
  - replace (existsb (String.eqb base) nonDBFiles) with true.
    + cbn [negb]. now apply Join_dir.
    + symmetry. apply existsb_exists. exists base. split; [exact Hin | apply String.eqb_refl].
  - replace (existsb (String.eqb base) nonDBFiles) with false.
    + cbn [negb]. rewrite (Join_dir dirs "db" Hd plain_db).
      assert (Hdb : Forall plain (dirs ++ ["db"]))
        by (apply Forall_app; split; [exact Hd | repeat constructor; apply plain_db]).
      pose proof (Join_dir (dirs ++ ["db"]) base Hdb Hb) as H.
      replace (match dirs ++ ["db"] with [] => "." | _ => strings.Join (dirs ++ ["db"]) "/" end)
        with (strings.Join (dirs ++ ["db"]) "/") in H by (now destruct dirs).
      rewrite H, <- app_assoc. reflexivity.
    + symmetry. apply not_true_is_false. intros Hex.
      apply existsb_exists in Hex as (f & Hf & Heq).
      apply String.eqb_eq in Heq. subst f. exact (Hin Hf).
Qed.

Lemma realFilePath_static_list_witness :
  realFilePath {| Name := "world/level.dat"; Length := 2049 |} = "world/level.dat" /\
  realFilePath {| Name := "world/levelname.txt"; Length := 12 |} = "world/levelname.txt" /\
  realFilePath {| Name := "world/CURRENT"; Length := 16 |} = "world/db/CURRENT".
Proof.
  assert (Hworld : Forall plain ["world"]) by (repeat constructor; try discriminate).
  refine (conj _ (conj _ _)).
  - apply (realFilePath_static_list ["world"] "level.dat" 2049 Hworld).
    + repeat split; discriminate.
    + cbn. auto.
  - apply (realFilePath_static_list ["world"] "levelname.txt" 12 Hworld).
    + repeat split; discriminate.
    + cbn. auto.
  - apply (realFilePath_static_list ["world"] "CURRENT" 16 Hworld).
    + repeat split; discriminate.
    + cbn. intros [H | [H | [H | []]]]; discriminate H.
Defined.

(** ** The correlator *)

Lemma selectLoop_done (respRegex : string -> bool) (e : error) (msgs : list string) :
  forall output,
    exists out err,
      selectLoop respRegex msgs (Some e) output = Some (out, err) /\
      ((err = None /\ respRegex out = true) \/ err = Some e).
Proof.
  induction msgs as [|m rest IH]; intros output; cbn [selectLoop].
  - exists output, (Some e). split; [reflexivity | now right].
  - set (output' := if String.eqb output "" then m else output +:+ LF +:+ m).
    destruct (respRegex output') eqn:Hm.
    + exists output', None. split; [reflexivity | now left].
    + apply IH.
Qed.

(** Under a context with a timeout every wait ends. *)
Lemma await_WithTimeout (ctx : Context) (timeout : Duration)
  (respRegex : string -> bool) (o : Observed) :
  exists out err, await (WithTimeout ctx timeout) respRegex o = Some (out, err).
Proof.
  unfold await.
  assert (H : exists e, doneErr (WithTimeout ctx timeout) o = Some e).
  { unfold doneErr. destruct (Err (WithTimeout ctx timeout)); [now eexists |].
    destruct (cancelled o); [now eexists |]. cbn. now eexists. }
  destruct H as [e ->].
  destruct (selectLoop_done respRegex e (received o) "") as (out & err & H & _).
  now exists out, err.
Qed.

Section CorrelatorRuns.

Context {R : Regexp}.

(** A call of the correlator that returns leaves the server as the
    event of its command does. *)
Lemma SendRawCommandWaitResponse_run (ctx : Context) (rawCommand response : string)
  (respRegex : string -> bool) (o : Observed) (r : string * option error) (s : Server) :
  regexp_Compile response = Some respRegex ->
  await ctx respRegex o = Some r ->
  SendRawCommandWaitResponse ctx rawCommand response o s
  = Some (r, apply_event (Command rawCommand (timeouts ctx)) s).
Proof.
  intros Hc Ha. unfold SendRawCommandWaitResponse. rewrite Hc.
  unfold bind, makeChan, onConsole, record, ret. cbn. rewrite Ha. reflexivity.
Qed.

End CorrelatorRuns.

Section ContendedRuns.

Context {R : Regexp}.

(** The server when a call has sent its command and waits, its channel
    subscribed. *)
Lemma Contended_sent (ctx : Context) (rawCommand : string) (s : Server) :
  (messages <- makeChan ;;
   onConsole (Console.Subscribe messages) ;;;
   onConsole (Console.SendRawCommand rawCommand) ;;;
   record (Command rawCommand (timeouts ctx)) ;;;
   ret messages) s
  = Some (chans s,
          {| theConsole :=
               Console.SendRawCommand rawCommand
                 (Console.Subscribe (chans s) (theConsole s));
             backupMutex := backupMutex s;
             chans := S (chans s);
             journal := journal s ++ [Command rawCommand (timeouts ctx)] |}).
Proof. reflexivity. Qed.




(** The call of the correlator that the orchestrator's runs are made of is
    the call when no broadcast has still to send to its channel. *)
Lemma Contended_free (ctx : Context) (rawCommand response : string)
  (o : Observed) (sending : list nat) (s : Server) :
  existsb (Nat.eqb (chans s)) sending = false ->
  forall r after,
    SendRawCommandWaitResponse ctx rawCommand response o s = Some (r, after) <->
    Contended.SendRawCommandWaitResponse ctx rawCommand response o sending s
    = Returns r after.
Proof.
  intros Hfree r after.
  unfold SendRawCommandWaitResponse, Contended.SendRawCommandWaitResponse.
  destruct (regexp_Compile response) as [respRegex|];
    [| unfold ret; split; intros [= <- <-]; reflexivity].
  rewrite Contended_sent, Hfree.
  unfold bind, makeChan, onConsole, record, ret. cbn.
  destruct (await ctx respRegex o) as [r'|]; [| split; discriminate].
  split; intros [= <- <-]; reflexivity.
Qed.

End ContendedRuns.





(** ** Runs of the orchestrator *)

Lemma replay_app (j1 j2 : list event) (s : Server) :
  replay (j1 ++ j2) s = replay j2 (replay j1 s).
Proof. apply fold_left_app. Qed.

Lemma replay_cons (e : event) (j : list event) (s : Server) :
  replay (e :: j) s = replay j (apply_event e s).
Proof. reflexivity. Qed.

Lemma replay_nil (s : Server) : replay [] s = s.
Proof. reflexivity. Qed.

Ltac replay_steps :=
  repeat (rewrite replay_cons || rewrite replay_app || rewrite replay_nil).

Lemma journal_replay (j : list event) :
  forall s, journal (replay j s) = journal s ++ j.
Proof.
  induction j as [|e j IH]; intros s; [now rewrite app_nil_r |].
  change (replay (e :: j) s) with (replay j (apply_event e s)).
  rewrite IH. destruct e; cbn; now rewrite <- app_assoc.
Qed.

Lemma input_replay (j : list event) :
  forall s, input (theConsole (replay j s)) = input (theConsole s) ++ commands j.
Proof.
  induction j as [|e j IH]; intros s; [now rewrite app_nil_r |].
  change (replay (e :: j) s) with (replay j (apply_event e s)).
  rewrite IH. destruct e; cbn; [reflexivity .. | now rewrite <- app_assoc | reflexivity].
Qed.

Lemma backupMutex_replay_unlocked (j : list event) (s : Server) :
  backupMutex (replay (j ++ [Unlocked]) s) = false.
Proof. now rewrite replay_app. Qed.

(** What [defaultOptions] returns for options with a sink. *)
Lemma defaultOptions_accepts (opts : BackupOptions) (sink : list File -> option error) :
  Backupper opts = Some sink ->
  exists b,
    defaultOptions opts = (b, None) /\
    Backupper b = Some sink /\
    CommandTimeout b = (if CommandTimeout opts =? 0 then 3 * Second else CommandTimeout opts).
Proof.
  intros Hs. unfold defaultOptions. rewrite Hs.
  destruct (CommandTimeout opts =? 0); cbn [SavePause];
    destruct (SavePause opts =? 0); eexists; (split; [reflexivity | now split]).
Qed.

Section BackupRuns.

Context {R : Regexp}.
Variables mHold mQuery mResume : string -> bool.
Hypothesis hold_compiles : regexp_Compile holdPattern = Some mHold.
Hypothesis query_compiles : regexp_Compile queryPattern = Some mQuery.
Hypothesis resume_compiles : regexp_Compile resumePattern = Some mResume.

Lemma saveHold_run (ctx : Context) (timeout : Duration) (o : Observed) (s : Server) :
  exists out err,
    await (WithTimeout ctx timeout) mHold o = Some (out, err) /\
    saveHold ctx timeout o s
    = Some (err, apply_event (Command "save hold" (timeout :: timeouts ctx)) s).
Proof.
  destruct (await_WithTimeout ctx timeout mHold o) as (out & err & Ha).
  exists out, err. split; [exact Ha |].
  unfold saveHold, bind.
  now rewrite (SendRawCommandWaitResponse_run _ _ _ _ _ _ s hold_compiles Ha).
Qed.

Lemma saveResume_run (ctx : Context) (timeout : Duration) (o : Observed) (s : Server) :
  exists out err,
    await (WithTimeout ctx timeout) mResume o = Some (out, err) /\
    saveResume ctx timeout o s
    = Some (err, apply_event (Command "save resume" (timeout :: timeouts ctx)) s).
Proof.
  destruct (await_WithTimeout ctx timeout mResume o) as (out & err & Ha).
  exists out, err. split; [exact Ha |].
  unfold saveResume, bind.
  now rewrite (SendRawCommandWaitResponse_run _ _ _ _ _ _ s resume_compiles Ha).
Qed.

Lemma saveQuery_run (ctx : Context) (timeout : Duration) (o : Observed) (s : Server) :
  exists r,
    saveQuery ctx timeout o s
    = Some (r, apply_event (Command "save query" (timeout :: timeouts ctx)) s).
Proof.
  destruct (await_WithTimeout ctx timeout mQuery o) as (out & err & Ha).
  exists (out, err). unfold saveQuery.
  now rewrite (SendRawCommandWaitResponse_run _ _ _ _ _ _ s query_compiles Ha).
Qed.

(** The query loop makes between one and [S n] attempts, and all of them
    when it ends with an error. *)
Lemma queryLoop_run (ctx : Context) (opts : BackupOptions) (env : Env) (n : nat) :
  forall attempt output err s,
    exists (k : nat) out err',
      queryLoop ctx opts env (S n) attempt output err s
      = Some ((out, err'),
              replay (repeat (Command "save query" (CommandTimeout opts :: timeouts ctx)) k) s) /\
      (1 <= k <= S n)%nat /\
      (err' <> None -> k = S n).
Proof.
  induction n as [|n IH]; intros attempt output err s; cbn [queryLoop]; unfold bind;
    destruct (saveQuery_run ctx (CommandTimeout opts) (onQuery env attempt) s)
      as ([out e] & ->); cbn [fst snd].
  - exists 1%nat, out, e. split; [now destruct e | split; [lia | reflexivity]].
  - destruct e as [e|].
    + destruct (IH (S attempt) out (Some e)
                  (apply_event (Command "save query" (CommandTimeout opts :: timeouts ctx)) s))
        as (k & out' & err' & Hrun & Hk & Hall).
      exists (S k), out', err'. split; [exact Hrun | split; [lia |]].
      intros Hne. now rewrite (Hall Hne).
    + exists 1%nat, out, None. split; [reflexivity | split; [lia | congruence]].
Qed.

(** The body of [Backup] follows one of the paths. *)
Lemma backupBody_run (ctx : Context) (opts : BackupOptions) (env : Env)
  (sink : list File -> option error) (s : Server) :
  exists p,
    follows mHold mResume ctx opts env sink p /\
    backupBody ctx opts env sink s
    = Some ((pathResult p, errAtReturn p),
            replay (bodyEvents (CommandTimeout opts :: timeouts ctx) p) s).
Proof.
  unfold backupBody, bind.
  destruct (saveHold_run ctx (CommandTimeout opts) (onHold env) s)
    as (outH & errH & HaH & ->).
  destruct errH as [e|].
  { exists (HoldFailed e). split; [now exists outH | reflexivity]. }
  assert (Hheld : ends (WithTimeout ctx (CommandTimeout opts)) mHold (onHold env) None)
    by now exists outH.
  destruct (onPause env) as [e|] eqn:Hpause.
  { exists (PauseCancelled e). split; [now split | reflexivity]. }
  set (s1 := apply_event (Command "save hold" (CommandTimeout opts :: timeouts ctx)) s).
  destruct (queryLoop_run ctx opts env 2 0 "" None s1)
    as (k & out & errQ & -> & Hk & Hall).
  cbn [fst snd].
  destruct errQ as [e|].
  { exists (QueryFailed e). split; [exact (conj Hheld Hpause) |].
    rewrite Hall by discriminate. reflexivity. }
  destruct (parseSaveQuery out) as [files [e|]].
  { exists (ParseFailed k e). split; [exact (conj (conj Hheld Hpause) Hk) |].
    cbn [pathResult errAtReturn bodyEvents ret]. now replay_steps. }
  unfold record.
  destruct (sink files) as [e|] eqn:Hsink.
  { exists (SinkFailed k files e).
    split; [exact (conj (conj Hheld Hpause) (conj Hk Hsink)) |].
    cbn [pathResult errAtReturn bodyEvents ret]. now replay_steps. }
  match goal with
  | |- context [saveResume ctx ?d ?o ?st] =>
      destruct (saveResume_run ctx d o st) as (outR & errR & HaR & ->)
  end.
  destruct errR as [e|].
  - exists (ResumeFailed k files e).
    split; [refine (conj (conj Hheld Hpause) (conj Hk (conj Hsink _))); now exists outR |].
    cbn [pathResult errAtReturn bodyEvents ret]. now replay_steps.
  - exists (Completed k files).
    split; [refine (conj (conj Hheld Hpause) (conj Hk (conj Hsink _))); now exists outR |].
    cbn [pathResult errAtReturn bodyEvents ret]. now replay_steps.
Qed.

(** [Backup] on accepted options, the mutex being free, returns: it
    follows one of the paths, and leaves the server as the events of the
    path do. *)
Lemma BackupWith_run (onError : Duration) (ctx : Context) (opts : BackupOptions)
  (env : Env) (sink : list File -> option error) (s : Server) :
  Backupper opts = Some sink ->
  backupMutex s = false ->
  exists p,
    follows mHold mResume ctx (fst (defaultOptions opts)) env sink p /\
    BackupWith onError ctx opts env s
    = Some (pathResult p,
            replay (Locked ::
                    pathEvents (CommandTimeout (fst (defaultOptions opts)) :: timeouts ctx)
                      (onError :: timeouts ctx) p ++ [Unlocked]) s).
Proof.
  intros Hs Hfree.
  destruct (defaultOptions_accepts opts sink Hs) as (b & Hb & Hsink & _).
  unfold BackupWith. rewrite Hb, Hsink. cbn [fst].
  unfold bind at 1. unfold Lock. rewrite Hfree.
  change {| theConsole := theConsole s; backupMutex := true; chans := chans s;
            journal := journal s ++ [Locked] |} with (apply_event Locked s).
  unfold bind at 1.
  destruct (backupBody_run ctx b env sink (apply_event Locked s)) as (p & Hp & ->).
  exists p. split; [exact Hp |].
  cbn [fst snd]. unfold pathEvents. replay_steps.
  destruct (errAtReturn p) as [e|]; [| reflexivity].
  unfold bind.
  match goal with
  | |- context [saveResume ctx ?d ?o ?st] =>
      destruct (saveResume_run ctx d o st) as (outR & errR & _ & ->)
  end.
  reflexivity.
Qed.

End BackupRuns.

Lemma ends_functional (ctx : Context) (respRegex : string -> bool) (o : Observed)
  (a b : option error) :
  ends ctx respRegex o a -> ends ctx respRegex o b -> a = b.
Proof. intros [x Hx] [y Hy]. congruence. Qed.

Lemma commands_app (j1 j2 : list event) : commands (j1 ++ j2) = commands j1 ++ commands j2.
Proof. apply omap_app. Qed.

Lemma commands_repeat (c : string) (w : list Duration) (k : nat) :
  commands (repeat (Command c w) k) = repeat c k.
Proof. induction k as [|k IH]; [reflexivity | cbn; now f_equal]. Qed.

Lemma resumeWaits_app (j1 j2 : list event) :
  resumeWaits (j1 ++ j2) = resumeWaits j1 ++ resumeWaits j2.
Proof. apply omap_app. Qed.

Lemma resumeWaits_queries (w : list Duration) (k : nat) :
  resumeWaits (repeat (Command "save query" w) k) = [].
Proof. induction k as [|k IH]; [reflexivity | destruct w; exact IH]. Qed.

Lemma In_queries (e : event) (w : list Duration) (k : nat) :
  In e (repeat (Command "save query" w) k) -> e = Command "save query" w.
Proof. apply repeat_spec. Qed.

Ltac in_cases H :=
  repeat match type of H with
         | In _ (_ :: _) => destruct H as [H | H]; [try discriminate H |]
         | In _ (_ ++ _) => apply in_app_or in H as [H | H]
         | In _ (repeat _ _) => apply In_queries in H; discriminate H
         | In _ [] => contradiction
         end.

(** The paths on which the sink is called. *)
Lemma Backed_on_path (files : list File) (waits onErrorWaits : list Duration) (p : Path) :
  In (Backed files) (Locked :: pathEvents waits onErrorWaits p ++ [Unlocked]) ->
  (exists k e, p = SinkFailed k files e) \/
  (exists k e, p = ResumeFailed k files e) \/
  (exists k, p = Completed k files).
Proof.
  intros H. unfold pathEvents in H.
  destruct p as [e|e|e|k e|k fs e|k fs e|k fs];
    cbn [bodyEvents errAtReturn pathResult] in H; in_cases H;
    injection H as ->; eauto.
Qed.

(** The state and the result of a call of [Backup], from the path. *)
Lemma Backup_run {R : Regexp} (mHold mQuery mResume : string -> bool)
  (ctx : Context) (opts : BackupOptions) (env : Env)
  (sink : list File -> option error) (s : Server) :
  regexp_Compile holdPattern = Some mHold ->
  regexp_Compile queryPattern = Some mQuery ->
  regexp_Compile resumePattern = Some mResume ->
  Backupper opts = Some sink ->
  backupMutex s = false ->
  let waits := CommandTimeout (fst (defaultOptions opts)) :: timeouts ctx in
  exists p after,
    follows mHold mResume ctx (fst (defaultOptions opts)) env sink p /\
    Backup ctx opts env s = Some (pathResult p, after) /\
    journal after
    = journal s ++ Locked :: pathEvents waits (5 * Minute :: timeouts ctx) p ++ [Unlocked] /\
    input (theConsole after)
    = input (theConsole s) ++ commands (pathEvents waits (5 * Minute :: timeouts ctx) p) /\
    backupMutex after = false.
Proof.
  intros Hh Hq Hr Hs Hfree waits.
  destruct (BackupWith_run mHold mQuery mResume Hh Hq Hr (5 * Minute) ctx opts env sink s
              Hs Hfree) as (p & Hp & Hrun).
  exists p. eexists. split; [exact Hp |]. split; [exact Hrun |].
  split; [apply journal_replay |].
  split.
  - rewrite input_replay. f_equal.
    change (Locked :: ?j) with ([Locked] ++ j).
    rewrite !commands_app. cbn. now rewrite app_nil_r.
  - apply (backupMutex_replay_unlocked (Locked :: _)).
Qed.

(** C1.  When the sink is called and fails, [Backup] returns the sink's
    error, and the call has sent the resume command exactly once, after the
    sink's failure, whatever the answer to that resume.  ([Backup] returns
    in every case, the mutex being free.) *)
Theorem Backup_sink_failure_resumes_once {R : Regexp} (mHold mQuery mResume : string -> bool)
  (ctx : Context) (opts : BackupOptions) (env : Env)
  (sink : list File -> option error) (s : Server) :
  regexp_Compile holdPattern = Some mHold ->
  regexp_Compile queryPattern = Some mQuery ->
  regexp_Compile resumePattern = Some mResume ->
  Backupper opts = Some sink ->
  backupMutex s = false ->
  exists result after j,
    Backup ctx opts env s = Some (result, after) /\
    journal after = journal s ++ j /\
    input (theConsole after) = input (theConsole s) ++ commands j /\
    forall files e,
      In (Backed files) j -> sink files = Some e ->
      result = Some e /\
      count_occ string_dec (commands j) "save resume" = 1%nat /\
      exists (k : nat) waits,
        (1 <= k <= 3)%nat /\
        j = [Locked; Command "save hold" waits] ++ repeat (Command "save query" waits) k ++
            [Backed files; Command "save resume" (5 * Minute :: timeouts ctx); Unlocked].
Proof.
  intros Hh Hq Hr Hs Hfree.
  destruct (Backup_run mHold mQuery mResume ctx opts env sink s Hh Hq Hr Hs Hfree)
    as (p & after & Hp & Hrun & Hj & Hin & _).
  set (waits := CommandTimeout (fst (defaultOptions opts)) :: timeouts ctx) in *.
  set (j := Locked :: pathEvents waits (5 * Minute :: timeouts ctx) p ++ [Unlocked]) in *.
  exists (pathResult p), after, j.
  split; [exact Hrun |]. split; [exact Hj |].
  split; [rewrite Hin; unfold j; change (Locked :: ?x) with ([Locked] ++ x);
          rewrite !commands_app; cbn; now rewrite app_nil_r |].
  intros files e Hbacked Hfail.
  assert (Hcases : exists k, (1 <= k <= 3)%nat /\ p = SinkFailed k files e).
  { apply Backed_on_path in Hbacked as [(k & e' & ->) | [(k & e' & ->) | (k & ->)]].
    - destruct Hp as (_ & Hk & Hsink). exists k. split; [exact Hk | congruence].
    - destruct Hp as (_ & _ & Hsink & _). congruence.
    - destruct Hp as (_ & _ & Hsink & _). congruence. }
  destruct Hcases as (k & Hk & ->).
  split; [reflexivity |].
  split.
  - assert (Hk3 : k = 1%nat \/ k = 2%nat \/ k = 3%nat) by lia.
    unfold j, pathEvents. cbn [bodyEvents errAtReturn pathResult].
    destruct Hk3 as [-> | [-> | ->]]; reflexivity.
  - exists k, waits. split; [exact Hk |].
    unfold j, pathEvents. cbn [bodyEvents errAtReturn pathResult app].
    now rewrite <- !app_assoc.
Qed.

Lemma Backup_sink_failure_resumes_once_witness :
  exists after files,
    Backup Background (withSink fullSink 0) unresumed idle
    = Some (Some (Failure "disk full"), after) /\
    In (Backed files) (journal after) /\
    fullSink files = Some (Failure "disk full") /\
    input (theConsole after) = ["save hold"; "save query"; "save resume"] /\
    count_occ string_dec (input (theConsole after)) "save resume" = 1%nat.
Proof.
  destruct (Backup_sink_failure_resumes_once (R := packageRegexp)
              (regexp.lineStartsWith "Saving...")
              (regexp.thenLater "Data saved. Files are now ready to be copied" "levelname.txt")
              (regexp.lineStartsWith "Changes to the world are resumed")
              Background (withSink fullSink 0) unresumed fullSink idle
              eq_refl eq_refl eq_refl eq_refl eq_refl)
    as (result & after & j & Hrun & Hj & Hin & Hfail).
  set (files := [{| Name := "world/db/CURRENT"; Length := 16 |};
                 {| Name := "world/level.dat"; Length := 2049 |};
                 {| Name := "world/levelname.txt"; Length := 12 |}]).
  assert (Hout : outcome (Backup Background (withSink fullSink 0) unresumed idle)
                 = Some (Some (Failure "disk full"),
                         [Locked; Command "save hold" [3 * Second];
                          Command "save query" [3 * Second]; Backed files;
                          Command "save resume" [5 * Minute]; Unlocked],
                         ["save hold"; "save query"; "save resume"]))
    by (vm_compute; reflexivity).
  rewrite Hrun in Hout. cbn [outcome] in Hout.
  injection Hout as Hresult Hjournal Hinput.
  cbn [idle journal app] in Hj. rewrite Hj in Hjournal.
  cbn [idle input theConsole app] in Hin.
  assert (Hbacked : In (Backed files) j)
    by (rewrite Hjournal; right; right; right; left; reflexivity).
  destruct (Hfail files (Failure "disk full") Hbacked eq_refl) as (Hres & Hcount & _).
  exists after, files.
  rewrite Hres in Hrun.
  split; [exact Hrun |].
  split; [now rewrite Hj |].
  split; [reflexivity |].
  split; [exact Hinput |].
  now rewrite Hin.
Defined.

(** C2, as stated, fails: the server does not answer the hold, [Backup]
    returns the hold's error, and the call has sent a resume command all the
    same. *)
Lemma Backup_hold_failure_still_resumes :
  ends (WithTimeout Background (3 * Second)) (regexp.lineStartsWith "Saving...")
    (onHold mute) (Some DeadlineExceeded) /\
  outcome (Backup Background (withSink okSink 0) mute idle)
  = Some (Some DeadlineExceeded,
          [Locked; Command "save hold" [3 * Second];
           Command "save resume" [5 * Minute]; Unlocked],
          ["save hold"; "save resume"]) /\
  In "save resume" ["save hold"; "save resume"].
Proof.
  split; [now exists "" |].
  split; [vm_compute; reflexivity | cbn; auto].
Qed.

(** C2, amended.  When the hold is not acknowledged, [Backup] aborts: it
    returns the hold's error, sends no query and does not call the sink;
    the deferred function then sends one resume command, waiting five
    minutes for its answer, before the mutex is released. *)
Theorem Backup_hold_failure_aborts_and_resumes {R : Regexp}
  (mHold mQuery mResume : string -> bool)
  (ctx : Context) (opts : BackupOptions) (env : Env)
  (sink : list File -> option error) (e : error) (s : Server) :
  regexp_Compile holdPattern = Some mHold ->
  regexp_Compile queryPattern = Some mQuery ->
  regexp_Compile resumePattern = Some mResume ->
  Backupper opts = Some sink ->
  backupMutex s = false ->
  let timeout := CommandTimeout (fst (defaultOptions opts)) in
  ends (WithTimeout ctx timeout) mHold (onHold env) (Some e) ->
  exists after,
    Backup ctx opts env s = Some (Some e, after) /\
    journal after
    = journal s ++ [Locked; Command "save hold" (timeout :: timeouts ctx);
                    Command "save resume" (5 * Minute :: timeouts ctx); Unlocked] /\
    input (theConsole after) = input (theConsole s) ++ ["save hold"; "save resume"] /\
    backupMutex after = false.
Proof.
  intros Hh Hq Hr Hs Hfree timeout Hfail.
  destruct (Backup_run mHold mQuery mResume ctx opts env sink s Hh Hq Hr Hs Hfree)
    as (p & after & Hp & Hrun & Hj & Hin & Hm).
  assert (Hpath : p = HoldFailed e).
  { destruct p as [e'|e'|e'|k e'|k fs e'|k fs e'|k fs]; cbn [follows] in Hp;
      [ f_equal; pose proof (ends_functional _ _ _ _ _ Hp Hfail); congruence
      | destruct Hp as (Hheld & _)
      | destruct Hp as (Hheld & _)
      | destruct Hp as ((Hheld & _) & _)
      | destruct Hp as ((Hheld & _) & _)
      | destruct Hp as ((Hheld & _) & _)
      | destruct Hp as ((Hheld & _) & _) ];
      pose proof (ends_functional _ _ _ _ _ Hheld Hfail); discriminate. }
  subst p. exists after. repeat split; assumption.
Qed.

Lemma Backup_hold_failure_aborts_and_resumes_witness :
  exists after,
    Backup Background (withSink okSink 0) mute idle = Some (Some DeadlineExceeded, after) /\
    journal after
    = journal idle ++ [Locked; Command "save hold" [3 * Second];
                       Command "save resume" [5 * Minute]; Unlocked] /\
    input (theConsole after) = input (theConsole idle) ++ ["save hold"; "save resume"] /\
    backupMutex after = false.
Proof.
  apply (Backup_hold_failure_aborts_and_resumes (R := packageRegexp)
           (regexp.lineStartsWith "Saving...")
           (regexp.thenLater "Data saved. Files are now ready to be copied" "levelname.txt")
           (regexp.lineStartsWith "Changes to the world are resumed")
           Background (withSink okSink 0) mute okSink DeadlineExceeded idle);
    try reflexivity.
  now exists "".
Defined.

Lemma commands_pathEvents_shape (waits onErrorWaits : list Duration) (p : Path) :
  match p with
  | QueryFailed _ =>
      commands (pathEvents waits onErrorWaits p)
      = "save hold" :: repeat "save query" 3 ++ ["save resume"]
  | ParseFailed k _ | SinkFailed k _ _ | Completed k _ =>
      commands (pathEvents waits onErrorWaits p)
      = "save hold" :: repeat "save query" k ++ ["save resume"]
  | _ => True
  end.
Proof.
  destruct p as [e|e|e|k e|k fs e|k fs e|k fs]; try exact I;
    unfold pathEvents; cbn [bodyEvents errAtReturn pathResult];
    change (Command "save hold" waits :: ?j) with ([Command "save hold" waits] ++ j);
    rewrite !commands_app, commands_repeat; cbn; now rewrite ?app_nil_r.
Qed.

Lemma not_holdQueriesResume (cmds : list string) :
  (forall k : nat, (1 <= k <= 3)%nat ->
     cmds <> "save hold" :: repeat "save query" k ++ ["save resume"]) ->
  ~ holdQueriesResume cmds.
Proof. intros H (k & Hk & Heq). exact (H k Hk Heq). Qed.

(** C3, as stated, fails, the sink never failing: a server that does not
    answer the hold gets a hold and a resume, without any query; a server
    that answers all but the resume gets the resume twice; and when the
    caller's context, here with a deadline of two seconds, is done during
    the pause of three, there is no resume at all. *)
Lemma Backup_not_always_hold_queries_resume :
  (forall files, okSink files = None) /\
  (outcome (Backup Background (withSink okSink 0) mute idle)
   = Some (Some DeadlineExceeded,
           [Locked; Command "save hold" [3 * Second];
            Command "save resume" [5 * Minute]; Unlocked],
           ["save hold"; "save resume"]) /\
   ~ holdQueriesResume ["save hold"; "save resume"]) /\
  (outcome (Backup Background (withSink okSink 0) unresumed idle)
   = Some (Some DeadlineExceeded,
           [Locked; Command "save hold" [3 * Second]; Command "save query" [3 * Second];
            Backed [{| Name := "world/db/CURRENT"; Length := 16 |};
                    {| Name := "world/level.dat"; Length := 2049 |};
                    {| Name := "world/levelname.txt"; Length := 12 |}];
            Command "save resume" [3 * Second]; Command "save resume" [5 * Minute];
            Unlocked],
           ["save hold"; "save query"; "save resume"; "save resume"]) /\
   ~ holdQueriesResume ["save hold"; "save query"; "save resume"; "save resume"]) /\
  (outcome (Backup (WithTimeout Background (2 * Second)) (withSink okSink 0)
              expiresInPause idle)
   = Some (Some DeadlineExceeded,
           [Locked; Command "save hold" [3 * Second; 2 * Second]; Unlocked],
           ["save hold"]) /\
   ~ holdQueriesResume ["save hold"]).
Proof.
  split; [reflexivity |].
  repeat split; try (vm_compute; reflexivity);
    apply not_holdQueriesResume; intros k Hk;
    assert (Hk3 : k = 1%nat \/ k = 2%nat \/ k = 3%nat) by lia;
    destruct Hk3 as [-> | [-> | ->]]; discriminate.
Qed.

(** C3, amended.  With a sink that never fails, in every run in which the
    hold is acknowledged, the pause is not cancelled and the resume of the
    sequence is acknowledged, [Backup] returns and has sent, in this order,
    one hold, between one and three queries, and one resume. *)
Theorem Backup_hold_queries_resume {R : Regexp} (mHold mQuery mResume : string -> bool)
  (ctx : Context) (opts : BackupOptions) (env : Env)
  (sink : list File -> option error) (s : Server) :
  regexp_Compile holdPattern = Some mHold ->
  regexp_Compile queryPattern = Some mQuery ->
  regexp_Compile resumePattern = Some mResume ->
  Backupper opts = Some sink ->
  (forall files, sink files = None) ->
  backupMutex s = false ->
  let c := WithTimeout ctx (CommandTimeout (fst (defaultOptions opts))) in
  ends c mHold (onHold env) None ->
  onPause env = None ->
  ends c mResume (onResume env) None ->
  exists result after cmds,
    Backup ctx opts env s = Some (result, after) /\
    input (theConsole after) = input (theConsole s) ++ cmds /\
    holdQueriesResume cmds.
Proof.
  intros Hh Hq Hr Hs Hok Hfree c Hheld Hpause Hresumed.
  destruct (Backup_run mHold mQuery mResume ctx opts env sink s Hh Hq Hr Hs Hfree)
    as (p & after & Hp & Hrun & _ & Hin & _).
  exists (pathResult p), after. eexists. split; [exact Hrun |]. split; [exact Hin |].
  pose proof (commands_pathEvents_shape
                (CommandTimeout (fst (defaultOptions opts)) :: timeouts ctx)
                (5 * Minute :: timeouts ctx) p) as Hshape.
  destruct p as [e|e|e|k e|k fs e|k fs e|k fs]; cbn [follows] in Hp.
  - pose proof (ends_functional _ _ _ _ _ Hp Hheld). discriminate.
  - destruct Hp as (_ & Hp). congruence.
  - exists 3%nat. split; [lia | exact Hshape].
  - destruct Hp as (_ & Hk). exists k. split; [exact Hk | exact Hshape].
  - destruct Hp as (_ & _ & Hsink). rewrite Hok in Hsink. discriminate.
  - destruct Hp as (_ & _ & _ & Hp).
    pose proof (ends_functional _ _ _ _ _ Hp Hresumed). discriminate.
  - destruct Hp as (_ & Hk & _). exists k. split; [exact Hk | exact Hshape].
Qed.

Lemma Backup_hold_queries_resume_witness :
  exists result after cmds,
    Backup Background (withSink okSink 0) answering idle = Some (result, after) /\
    input (theConsole after) = input (theConsole idle) ++ cmds /\
    holdQueriesResume cmds.
Proof.
  apply (Backup_hold_queries_resume (R := packageRegexp)
           (regexp.lineStartsWith "Saving...")
           (regexp.thenLater "Data saved. Files are now ready to be copied" "levelname.txt")
           (regexp.lineStartsWith "Changes to the world are resumed")
           Background (withSink okSink 0) answering okSink idle);
    try reflexivity.
  - now exists "Saving...".
  - now exists "Changes to the world are resumed.".
Defined.

(** C9, as stated, fails, in the current [Backup] and in the earlier one
    kept in the file.  Options with a command timeout of ten minutes are
    accepted; in the current [Backup] the resume of a run that goes through
    waits ten minutes, the resume after a failure of the sink waits five.
    With the options of the HTTP handler, a command timeout of five
    seconds and a pause of one minute, the earlier [Backup] waits five
    seconds for the resume of a run that goes through and five seconds for
    the resume after a failure: not longer. *)
Lemma Backup_failure_resume_not_always_longer :
  (snd (defaultOptions (withSink okSink (10 * Minute))) = None /\
   snd (defaultOptions (withSink fullSink (10 * Minute))) = None /\
   outcome (Backup Background (withSink okSink (10 * Minute)) answering idle)
   = Some (None,
           [Locked; Command "save hold" [10 * Minute]; Command "save query" [10 * Minute];
            Backed [{| Name := "world/db/CURRENT"; Length := 16 |};
                    {| Name := "world/level.dat"; Length := 2049 |};
                    {| Name := "world/levelname.txt"; Length := 12 |}];
            Command "save resume" [10 * Minute]; Unlocked],
           ["save hold"; "save query"; "save resume"]) /\
   outcome (Backup Background (withSink fullSink (10 * Minute)) answering idle)
   = Some (Some (Failure "disk full"),
           [Locked; Command "save hold" [10 * Minute]; Command "save query" [10 * Minute];
            Backed [{| Name := "world/db/CURRENT"; Length := 16 |};
                    {| Name := "world/level.dat"; Length := 2049 |};
                    {| Name := "world/levelname.txt"; Length := 12 |}];
            Command "save resume" [5 * Minute]; Unlocked],
           ["save hold"; "save query"; "save resume"]) /\
   ~ (10 * Minute < 5 * Minute)) /\
  (snd (defaultOptions (handlerOptions okSink)) = None /\
   snd (defaultOptions (handlerOptions fullSink)) = None /\
   outcome (Backup_5s Background (handlerOptions okSink) answering idle)
   = Some (None,
           [Locked; Command "save hold" [5 * Second]; Command "save query" [5 * Second];
            Backed [{| Name := "world/db/CURRENT"; Length := 16 |};
                    {| Name := "world/level.dat"; Length := 2049 |};
                    {| Name := "world/levelname.txt"; Length := 12 |}];
            Command "save resume" [5 * Second]; Unlocked],
           ["save hold"; "save query"; "save resume"]) /\
   outcome (Backup_5s Background (handlerOptions fullSink) answering idle)
   = Some (Some (Failure "disk full"),
           [Locked; Command "save hold" [5 * Second]; Command "save query" [5 * Second];
            Backed [{| Name := "world/db/CURRENT"; Length := 16 |};
                    {| Name := "world/level.dat"; Length := 2049 |};
                    {| Name := "world/levelname.txt"; Length := 12 |}];
            Command "save resume" [5 * Second]; Unlocked],
           ["save hold"; "save query"; "save resume"]) /\
   ~ (5 * Second < 5 * Second)).
Proof.
  split.
  - split; [reflexivity |]. split; [reflexivity |].
    split; [vm_compute; reflexivity |]. split; [vm_compute; reflexivity |].
    unfold Minute, Second. lia.
  - split; [reflexivity |]. split; [reflexivity |].
    split; [vm_compute; reflexivity |]. split; [vm_compute; reflexivity |].
    lia.
Qed.

(** The earlier [Backup] kept in the file behaves alike, its deferred
    resume waiting five seconds: after a hold that is not answered, and
    after a failure of the sink under the timeout the HTTP handler gives. *)
Example Backup_5s_runs :
  outcome (Backup_5s Background (withSink okSink 0) mute idle)
  = Some (Some DeadlineExceeded,
          [Locked; Command "save hold" [3 * Second];
           Command "save resume" [5 * Second]; Unlocked],
          ["save hold"; "save resume"]) /\
  outcome (Backup_5s Background (withSink fullSink (5 * Second)) answering idle)
  = Some (Some (Failure "disk full"),
          [Locked; Command "save hold" [5 * Second]; Command "save query" [5 * Second];
           Backed [{| Name := "world/db/CURRENT"; Length := 16 |};
                   {| Name := "world/level.dat"; Length := 2049 |};
                   {| Name := "world/levelname.txt"; Length := 12 |}];
           Command "save resume" [5 * Second]; Unlocked],
          ["save hold"; "save query"; "save resume"]).
Proof. split; vm_compute; reflexivity. Qed.

Lemma resumeWaits_pathEvents (w d : Duration) (ws ds : list Duration) (p : Path) :
  resumeWaits (Locked :: pathEvents (w :: ws) (d :: ds) p ++ [Unlocked])
  = match p with
    | ResumeFailed _ _ _ | Completed _ _ => [w]
    | _ => []
    end ++
    match errAtReturn p with
    | Some _ => [d]
    | None => []
    end.
Proof.
  change (Locked :: ?j) with ([Locked] ++ j). unfold pathEvents.
  destruct p as [e|e|e|k e|k fs e|k fs e|k fs];
    cbn [bodyEvents errAtReturn pathResult];
    change (Command "save hold" (w :: ws) :: ?j) with ([Command "save hold" (w :: ws)] ++ j);
    rewrite ?resumeWaits_app, ?resumeWaits_queries; reflexivity.
Qed.

(** The resumes of a call of [Backup] whose deferred resume waits
    [onError]. *)
Lemma BackupWith_resumeWaits {R : Regexp} (mHold mQuery mResume : string -> bool)
  (onError : Duration) (ctx : Context) (opts : BackupOptions) (env : Env)
  (sink : list File -> option error) (s : Server) :
  regexp_Compile holdPattern = Some mHold ->
  regexp_Compile queryPattern = Some mQuery ->
  regexp_Compile resumePattern = Some mResume ->
  Backupper opts = Some sink ->
  backupMutex s = false ->
  exists result after j,
    BackupWith onError ctx opts env s = Some (result, after) /\
    journal after = journal s ++ j /\
    (result = None -> resumeWaits j = [CommandTimeout (fst (defaultOptions opts))]) /\
    (result <> None -> forall d, last (resumeWaits j) = Some d -> d = onError).
Proof.
  intros Hh Hq Hr Hs Hfree.
  destruct (BackupWith_run mHold mQuery mResume Hh Hq Hr onError ctx opts env sink s Hs Hfree)
    as (p & _ & Hrun).
  exists (pathResult p). eexists. eexists.
  split; [exact Hrun |]. split; [apply journal_replay |].
  rewrite resumeWaits_pathEvents.
  destruct p as [e|e|e|k e|k fs e|k fs e|k fs]; cbn [pathResult errAtReturn];
    (split; [intros Hnone; try discriminate Hnone; reflexivity |]);
    intros Hsome d; cbn; intros [= <-]; try (now destruct Hsome); reflexivity.
Qed.

(** C9, amended.  The resume of a run that goes through waits the command
    timeout of the options (three seconds when none is given), in the
    current [Backup] and in the earlier one kept in the file.  The resume
    sent by the deferred function after a failure, the last one a failed
    run sends, waits a fixed time whatever the options: five minutes in the
    current [Backup], five seconds in the earlier one.  So the resume on
    the failure path waits longer than the resume of a run that goes
    through exactly for the accepted options whose command timeout is
    below five minutes, in the current [Backup], and below five seconds,
    in the earlier one. *)
Theorem Backup_failure_resume_waits_longer {R : Regexp} (mHold mQuery mResume : string -> bool)
  (ctx : Context) (opts : BackupOptions) (env : Env)
  (sink : list File -> option error) (s : Server) :
  regexp_Compile holdPattern = Some mHold ->
  regexp_Compile queryPattern = Some mQuery ->
  regexp_Compile resumePattern = Some mResume ->
  Backupper opts = Some sink ->
  backupMutex s = false ->
  let timeout := CommandTimeout (fst (defaultOptions opts)) in
  (exists result after j,
     Backup ctx opts env s = Some (result, after) /\
     journal after = journal s ++ j /\
     (result = None -> resumeWaits j = [timeout]) /\
     (result <> None ->
        forall d, last (resumeWaits j) = Some d ->
                  d = 5 * Minute /\ (timeout < d <-> timeout < 5 * Minute))) /\
  (exists result after j,
     Backup_5s ctx opts env s = Some (result, after) /\
     journal after = journal s ++ j /\
     (result = None -> resumeWaits j = [timeout]) /\
     (result <> None ->
        forall d, last (resumeWaits j) = Some d ->
                  d = 5 * Second /\ (timeout < d <-> timeout < 5 * Second))).
Proof.
  intros Hh Hq Hr Hs Hfree timeout.
  split.
  - destruct (BackupWith_resumeWaits mHold mQuery mResume (5 * Minute) ctx opts env sink s
                Hh Hq Hr Hs Hfree) as (result & after & j & Hrun & Hj & Hnone & Hsome).
    exists result, after, j. split; [exact Hrun |]. split; [exact Hj |].
    split; [exact Hnone |].
    intros Hne d Hd. rewrite (Hsome Hne d Hd). split; reflexivity.
  - destruct (BackupWith_resumeWaits mHold mQuery mResume (5 * Second) ctx opts env sink s
                Hh Hq Hr Hs Hfree) as (result & after & j & Hrun & Hj & Hnone & Hsome).
    exists result, after, j. split; [exact Hrun |]. split; [exact Hj |].
    split; [exact Hnone |].
    intros Hne d Hd. rewrite (Hsome Hne d Hd). split; reflexivity.
Qed.

Lemma Backup_failure_resume_waits_longer_witness :
  (exists result after j,
     Backup Background (withSink fullSink 0) answering idle = Some (result, after) /\
     journal after = journal idle ++ j /\
     (result = None -> resumeWaits j = [3 * Second]) /\
     (result <> None ->
        forall d, last (resumeWaits j) = Some d ->
                  d = 5 * Minute /\ (3 * Second < d <-> 3 * Second < 5 * Minute))) /\
  (exists result after j,
     Backup_5s Background (withSink fullSink 0) answering idle = Some (result, after) /\
     journal after = journal idle ++ j /\
     (result = None -> resumeWaits j = [3 * Second]) /\
     (result <> None ->
        forall d, last (resumeWaits j) = Some d ->
                  d = 5 * Second /\ (3 * Second < d <-> 3 * Second < 5 * Second))).
Proof.
  apply (Backup_failure_resume_waits_longer (R := packageRegexp)
           (regexp.lineStartsWith "Saving...")
           (regexp.thenLater "Data saved. Files are now ready to be copied" "levelname.txt")
           (regexp.lineStartsWith "Changes to the world are resumed")
           Background (withSink fullSink 0) answering fullSink idle);
    reflexivity.
Defined.

(** * Further properties *)

(** ** The path of a run of [Backup] *)

Lemma queryAttempts_first (observe : nat -> option (string * option error)) (out : string)
  (i : nat) :
  forall retry attempt output err,
    (i < retry)%nat ->
    (forall j, (j < i)%nat -> exists o e, observe (attempt + j)%nat = Some (o, Some e)) ->
    observe (attempt + i)%nat = Some (out, None) ->
    queryAttempts observe retry attempt output err = Some (S i, (out, None)).
Proof.
  induction i as [|i IH]; intros retry attempt output err Hlt Hbefore Hack;
    (destruct retry as [|retry]; [lia |]); cbn [queryAttempts].
  - rewrite Nat.add_0_r in Hack. now rewrite Hack.
  - destruct (Hbefore 0%nat ltac:(lia)) as (o & e & Ho).
    rewrite Nat.add_0_r in Ho. rewrite Ho.
    rewrite (IH retry (S attempt) o (Some e)); [reflexivity | lia | |].
    + intros j Hj. destruct (Hbefore (S j) ltac:(lia)) as (o' & e' & Ho').
      exists o', e'. now replace (S attempt + j)%nat with (attempt + S j)%nat by lia.
    + now replace (S attempt + i)%nat with (attempt + S i)%nat by lia.
Qed.

Lemma queryAttempts_exhausted (observe : nat -> option (string * option error))
  (out : string) (e : error) (n : nat) :
  forall attempt output err,
    (forall j, (j < n)%nat -> exists o e', observe (attempt + j)%nat = Some (o, Some e')) ->
    observe (attempt + n)%nat = Some (out, Some e) ->
    queryAttempts observe (S n) attempt output err = Some (S n, (out, Some e)).
Proof.
  induction n as [|n IH]; intros attempt output err Hbefore Hlast; cbn [queryAttempts].
  - rewrite Nat.add_0_r in Hlast. now rewrite Hlast.
  - destruct (Hbefore 0%nat ltac:(lia)) as (o & e' & Ho).
    rewrite Nat.add_0_r in Ho. rewrite Ho.
    change (match queryAttempts observe (S n) (S attempt) o (Some e') with
            | Some (k, r) => Some (S k, r)
            | None => None
            end = Some (S (S n), (out, Some e))).
    rewrite (IH (S attempt) o (Some e')); [reflexivity | |].
    + intros j Hj. destruct (Hbefore (S j) ltac:(lia)) as (o' & e'' & Ho').
      exists o', e''. now replace (S attempt + j)%nat with (attempt + S j)%nat by lia.
    + now replace (S attempt + n)%nat with (attempt + S n)%nat by lia.
Qed.

Lemma queryAttempts_acknowledged (observe : nat -> option (string * option error))
  (out : string) (n : nat) :
  forall attempt output err k,
    queryAttempts observe (S n) attempt output err = Some (k, (out, None)) ->
    exists i,
      k = S i /\ (i <= n)%nat /\
      (forall j, (j < i)%nat -> exists o e, observe (attempt + j)%nat = Some (o, Some e)) /\
      observe (attempt + i)%nat = Some (out, None).
Proof.
  induction n as [|n IH]; intros attempt output err k H; cbn [queryAttempts] in H;
    destruct (observe attempt) as [[o [e|]]|] eqn:Ho; try discriminate H.
  - injection H as <- <-. exists 0%nat. rewrite Nat.add_0_r.
    split; [reflexivity |]. split; [lia |]. split; [intros j Hj; lia | exact Ho].
  - change (match queryAttempts observe (S n) (S attempt) o (Some e) with
            | Some (k, r) => Some (S k, r)
            | None => None
            end = Some (k, (out, None))) in H.
    destruct (queryAttempts observe (S n) (S attempt) o (Some e)) as [[k' r]|] eqn:Hq;
      [| discriminate H].
    injection H as <- ->.
    destruct (IH _ _ _ _ Hq) as (i & -> & Hi & Hbefore & Hack).
    exists (S i). split; [reflexivity |]. split; [lia |]. split.
    + intros [|j] Hj; [rewrite Nat.add_0_r; eauto |].
      replace (attempt + S j)%nat with (S attempt + j)%nat by lia. apply Hbefore. lia.
    + now replace (attempt + S i)%nat with (S attempt + i)%nat by lia.
  - injection H as <- <-. exists 0%nat. rewrite Nat.add_0_r.
    split; [reflexivity |]. split; [lia |]. split; [intros j Hj; lia | exact Ho].
Qed.

Lemma queryAttempts_failed (observe : nat -> option (string * option error))
  (out : string) (e : error) (n : nat) :
  forall attempt output err k,
    queryAttempts observe (S n) attempt output err = Some (k, (out, Some e)) ->
    k = S n /\
    (forall j, (j < n)%nat -> exists o e', observe (attempt + j)%nat = Some (o, Some e')) /\
    observe (attempt + n)%nat = Some (out, Some e).
Proof.
  induction n as [|n IH]; intros attempt output err k H; cbn [queryAttempts] in H;
    destruct (observe attempt) as [[o [e'|]]|] eqn:Ho; try discriminate H.
  - injection H as <- <- <-. rewrite Nat.add_0_r.
    split; [reflexivity |]. split; [intros j Hj; lia | exact Ho].
  - change (match queryAttempts observe (S n) (S attempt) o (Some e') with
            | Some (k, r) => Some (S k, r)
            | None => None
            end = Some (k, (out, Some e))) in H.
    destruct (queryAttempts observe (S n) (S attempt) o (Some e')) as [[k' r]|] eqn:Hq;
      [| discriminate H].
    injection H as <- ->.
    destruct (IH _ _ _ _ Hq) as (-> & Hbefore & Hlast).
    split; [reflexivity |]. split.
    + intros [|j] Hj; [rewrite Nat.add_0_r; eauto |].
      replace (attempt + S j)%nat with (S attempt + j)%nat by lia. apply Hbefore. lia.
    + now replace (attempt + S n)%nat with (S attempt + n)%nat by lia.
Qed.

Section BackupPaths.

Context {R : Regexp}.
Variables mHold mQuery mResume : string -> bool.
Hypothesis hold_compiles : regexp_Compile holdPattern = Some mHold.
Hypothesis query_compiles : regexp_Compile queryPattern = Some mQuery.
Hypothesis resume_compiles : regexp_Compile resumePattern = Some mResume.

Lemma saveQuery_await (ctx : Context) (timeout : Duration) (o : Observed)
  (r : string * option error) (s : Server) :
  await (WithTimeout ctx timeout) mQuery o = Some r ->
  saveQuery ctx timeout o s
  = Some (r, apply_event (Command "save query" (timeout :: timeouts ctx)) s).
Proof.
  intros Ha. unfold saveQuery.
  exact (SendRawCommandWaitResponse_run _ _ _ _ _ _ s query_compiles Ha).
Qed.

(** The query loop makes the attempts [queryAttempts] counts. *)
Lemma queryLoop_attempts (ctx : Context) (opts : BackupOptions) (env : Env) (n : nat) :
  forall attempt output err s,
    exists (k : nat) r,
      queryAttempts (fun i => await (WithTimeout ctx (CommandTimeout opts)) mQuery
                                (onQuery env i)) (S n) attempt output err
      = Some (k, r) /\
      queryLoop ctx opts env (S n) attempt output err s
      = Some (r, replay (repeat (Command "save query" (CommandTimeout opts :: timeouts ctx)) k) s) /\
      (snd r <> None -> k = S n).
Proof.
  induction n as [|n IH]; intros attempt output err s; cbn [queryLoop queryAttempts];
    unfold bind;
    destruct (await_WithTimeout ctx (CommandTimeout opts) mQuery (onQuery env attempt))
      as (out & e & Ha);
    rewrite (saveQuery_await ctx (CommandTimeout opts) _ _ s Ha), Ha; cbn [fst snd].
  - exists 1%nat, (out, e).
    destruct e as [e|]; (split; [reflexivity | split; [reflexivity | reflexivity]]).
  - destruct e as [e|].
    + destruct (IH (S attempt) out (Some e)
                  (apply_event (Command "save query" (CommandTimeout opts :: timeouts ctx)) s))
        as (k & r & Hq & Hrun & Hall).
      exists (S k), r.
      cbn [queryLoop queryAttempts] in Hq, Hrun. unfold bind in Hrun.
      rewrite Hq. split; [reflexivity |]. split; [exact Hrun |].
      intros Hne. now rewrite (Hall Hne).
    + exists 1%nat, (out, None). split; [reflexivity |]. split; [reflexivity |].
      intros Hne. now destruct Hne.
Qed.

(** The body of [Backup] takes the path [pathOf] gives. *)
Lemma backupBody_pathOf (ctx : Context) (opts : BackupOptions) (env : Env)
  (sink : list File -> option error) (s : Server) :
  exists p,
    pathOf mHold mQuery mResume ctx opts env sink = Some p /\
    backupBody ctx opts env sink s
    = Some ((pathResult p, errAtReturn p),
            replay (bodyEvents (CommandTimeout opts :: timeouts ctx) p) s).
Proof.
  unfold backupBody, pathOf, bind. cbv zeta.
  destruct (saveHold_run mHold hold_compiles ctx (CommandTimeout opts) (onHold env) s)
    as (outH & errH & HaH & ->).
  rewrite HaH.
  destruct errH as [e|]; [exists (HoldFailed e); now split |].
  destruct (onPause env) as [e|]; [exists (PauseCancelled e); now split |].
  set (s1 := apply_event (Command "save hold" (CommandTimeout opts :: timeouts ctx)) s).
  destruct (queryLoop_attempts ctx opts env 2 0 "" None s1)
    as (k & [out errQ] & -> & -> & Hall).
  cbn [fst snd] in *.
  destruct errQ as [e|].
  { exists (QueryFailed e). split; [reflexivity |].
    rewrite Hall by discriminate. reflexivity. }
  destruct (parseSaveQuery out) as [files [e|]].
  { exists (ParseFailed k e). split; [reflexivity |].
    cbn [pathResult errAtReturn bodyEvents ret]. now replay_steps. }
  unfold record.
  destruct (sink files) as [e|].
  { exists (SinkFailed k files e). split; [reflexivity |].
    cbn [pathResult errAtReturn bodyEvents ret]. now replay_steps. }
  match goal with
  | |- context [saveResume ctx ?d ?o ?st] =>
      destruct (saveResume_run mResume resume_compiles ctx d o st)
        as (outR & errR & HaR & ->)
  end.
  rewrite HaR.
  destruct errR as [e|];
    [exists (ResumeFailed k files e) | exists (Completed k files)];
    (split; [reflexivity |]);
    cbn [pathResult errAtReturn bodyEvents ret]; now replay_steps.
Qed.

(** [Backup] on accepted options, the mutex being free, takes the path
    [pathOf] gives, whatever the timeout of the deferred resume. *)
Lemma BackupWith_pathOf (ctx : Context) (opts : BackupOptions)
  (env : Env) (sink : list File -> option error) (s : Server) :
  Backupper opts = Some sink ->
  backupMutex s = false ->
  exists p,
    pathOf mHold mQuery mResume ctx (fst (defaultOptions opts)) env sink = Some p /\
    forall onError,
      BackupWith onError ctx opts env s
      = Some (pathResult p,
              replay (Locked ::
                      pathEvents (CommandTimeout (fst (defaultOptions opts)) :: timeouts ctx)
                        (onError :: timeouts ctx) p ++ [Unlocked]) s).
Proof.
  intros Hs Hfree.
  destruct (defaultOptions_accepts opts sink Hs) as (b & Hb & Hsink & _).
  rewrite Hb. cbn [fst].
  destruct (backupBody_pathOf ctx b env sink (apply_event Locked s)) as (p & Hp & Hbody).
  exists p. split; [exact Hp |]. intros onError.
  unfold BackupWith. rewrite Hb, Hsink.
  unfold bind at 1. unfold Lock. rewrite Hfree.
  change {| theConsole := theConsole s; backupMutex := true; chans := chans s;
            journal := journal s ++ [Locked] |} with (apply_event Locked s).
  unfold bind at 1. rewrite Hbody.
  cbn [fst snd]. unfold pathEvents. replay_steps.
  destruct (errAtReturn p) as [e|]; [| reflexivity].
  unfold bind.
  match goal with
  | |- context [saveResume ctx ?d ?o ?st] =>
      destruct (saveResume_run mResume resume_compiles ctx d o st) as (outR & errR & _ & ->)
  end.
  reflexivity.
Qed.

End BackupPaths.

(** What the path of a run says about what the run observed. *)
Lemma pathOf_inv (mHold mQuery mResume : string -> bool) (ctx : Context)
  (opts : BackupOptions) (env : Env) (sink : list File -> option error) (p : Path) :
  pathOf mHold mQuery mResume ctx opts env sink = Some p ->
  follows mHold mResume ctx opts env sink p /\ asks mQuery ctx opts env p.
Proof.
  unfold pathOf. cbv zeta.
  destruct (await (WithTimeout ctx (CommandTimeout opts)) mHold (onHold env))
    as [[outH [e|]]|] eqn:HaH; [| | discriminate].
  { intros [= <-]. split; [now exists outH | exact I]. }
  assert (Hheld : ends (WithTimeout ctx (CommandTimeout opts)) mHold (onHold env) None)
    by now exists outH.
  destruct (onPause env) as [e|] eqn:Hpause.
  { intros [= <-]. split; [now split | exact I]. }
  destruct (queryAttempts _ 3 0 "" None) as [[k [out [e|]]]|] eqn:Hq; [| | discriminate].
  { intros [= <-]. split; [exact (conj Hheld Hpause) |].
    apply queryAttempts_failed in Hq as (_ & Hbefore & Hlast).
    split; [| now exists out].
    intros j Hj. assert (Hc : (j < 2)%nat \/ j = 2%nat) by lia.
    destruct Hc as [Hc | ->]; [| exists e; now exists out].
    destruct (Hbefore j Hc) as (o & e' & Ho). exists e'. now exists o. }
  apply queryAttempts_acknowledged in Hq as (i & -> & Hi & Hbefore & Hack).
  assert (Hfirst : firstAcknowledged mQuery ctx opts env i out).
  { split; [| exact Hack].
    intros j Hj. destruct (Hbefore j Hj) as (o & e' & Ho). exists e'. now exists o. }
  assert (Hk : (1 <= S i <= 3)%nat) by lia.
  destruct (parseSaveQuery out) as [files [e|]] eqn:Hparse.
  { intros [= <-]. split; [exact (conj (conj Hheld Hpause) Hk) |].
    exists i, out. rewrite Hparse.
    split; [reflexivity |]. split; [lia |]. split; [exact Hfirst |].
    split; [reflexivity | discriminate]. }
  assert (Hasks : exists i0 output,
             S i = S i0 /\ (i0 < 3)%nat /\ firstAcknowledged mQuery ctx opts env i0 output /\
             snd (parseSaveQuery output) = None /\
             (@None error = None -> fst (parseSaveQuery output) = files)).
  { exists i, out. rewrite Hparse.
    split; [reflexivity |]. split; [lia |]. split; [exact Hfirst |].
    split; [reflexivity | intros _; reflexivity]. }
  destruct (sink files) as [e|] eqn:Hsink.
  { intros [= <-]. split; [exact (conj (conj Hheld Hpause) (conj Hk Hsink)) | exact Hasks]. }
  destruct (await (WithTimeout ctx (CommandTimeout opts)) mResume (onResume env))
    as [[outR [e|]]|] eqn:HaR; [| | discriminate]; intros [= <-];
    (split; [| exact Hasks]);
    (refine (conj (conj Hheld Hpause) (conj Hk (conj Hsink _))); now exists outR).
Qed.

(** The path of a run in which the hold is acknowledged, the pause passes
    and attempt [i] of the query is the first one acknowledged. *)
Lemma pathOf_acknowledged (mHold mQuery mResume : string -> bool) (ctx : Context)
  (opts : BackupOptions) (env : Env) (sink : list File -> option error)
  (i : nat) (output : string) :
  held mHold ctx opts env ->
  (i < 3)%nat ->
  firstAcknowledged mQuery ctx opts env i output ->
  pathOf mHold mQuery mResume ctx opts env sink
  = match parseSaveQuery output with
    | (_, Some e) => Some (ParseFailed (S i) e)
    | (files, None) =>
        match sink files with
        | Some e => Some (SinkFailed (S i) files e)
        | None =>
            match await (WithTimeout ctx (CommandTimeout opts)) mResume (onResume env) with
            | None => None
            | Some (_, Some e) => Some (ResumeFailed (S i) files e)
            | Some (_, None) => Some (Completed (S i) files)
            end
        end
    end.
Proof.
  intros [[outH HaH] Hpause] Hi [Hbefore Hack].
  unfold pathOf. cbv zeta. rewrite HaH, Hpause.
  rewrite (queryAttempts_first _ output i 3 0 "" None Hi); [reflexivity | | exact Hack].
  intros j Hj. destruct (Hbefore j Hj) as (e & o & Ho). now exists o, e.
Qed.

(** The events of a run, cut at its queries. *)
Lemma journal_shape (waits onErrorWaits : list Duration) (p : Path) :
  Locked :: pathEvents waits onErrorWaits p ++ [Unlocked]
  = [Locked; Command "save hold" waits] ++
    repeat (Command "save query" waits) (attemptsOf p) ++ afterQueries waits onErrorWaits p.
Proof.
  unfold pathEvents.
  destruct p; cbn [bodyEvents errAtReturn pathResult attemptsOf afterQueries app repeat];
    rewrite <- ?app_assoc; reflexivity.
Qed.

Lemma commands_journal (w : list Duration) (k : nat) (rest : list event) :
  commands ([Locked; Command "save hold" w] ++ repeat (Command "save query" w) k ++ rest)
  = "save hold" :: repeat "save query" k ++ commands rest.
Proof. rewrite !commands_app, commands_repeat. reflexivity. Qed.

Lemma afterQueries_no_query (w ew : list Duration) (p : Path) :
  ~ In "save query" (commands (afterQueries w ew p)).
Proof. destruct p; cbn; intuition discriminate. Qed.

Lemma commands_afterQueries (w ew ew' : list Duration) (p : Path) :
  commands (afterQueries w ew p) = commands (afterQueries w ew' p).
Proof. destruct p; reflexivity. Qed.

(** The state and the result of a call of [Backup], from its path. *)
Lemma Backup_path {R : Regexp} (mHold mQuery mResume : string -> bool)
  (ctx : Context) (opts : BackupOptions) (env : Env)
  (sink : list File -> option error) (s : Server) :
  regexp_Compile holdPattern = Some mHold ->
  regexp_Compile queryPattern = Some mQuery ->
  regexp_Compile resumePattern = Some mResume ->
  Backupper opts = Some sink ->
  backupMutex s = false ->
  exists p,
    pathOf mHold mQuery mResume ctx (fst (defaultOptions opts)) env sink = Some p /\
    forall onError,
      exists after,
        BackupWith onError ctx opts env s = Some (pathResult p, after) /\
        after
        = replay (Locked ::
                  pathEvents (CommandTimeout (fst (defaultOptions opts)) :: timeouts ctx)
                    (onError :: timeouts ctx) p ++ [Unlocked]) s /\
        journal after
        = journal s ++
          [Locked; Command "save hold" (CommandTimeout (fst (defaultOptions opts)) :: timeouts ctx)] ++
          repeat (Command "save query" (CommandTimeout (fst (defaultOptions opts)) :: timeouts ctx))
            (attemptsOf p) ++
          afterQueries (CommandTimeout (fst (defaultOptions opts)) :: timeouts ctx)
            (onError :: timeouts ctx) p /\
        input (theConsole after)
        = input (theConsole s) ++
          "save hold" :: repeat "save query" (attemptsOf p) ++
          commands (afterQueries (CommandTimeout (fst (defaultOptions opts)) :: timeouts ctx)
                      (onError :: timeouts ctx) p).
Proof.
  intros Hh Hq Hr Hs Hfree.
  destruct (BackupWith_pathOf mHold mQuery mResume Hh Hq Hr ctx opts env sink s Hs Hfree)
    as (p & Hp & Hrun).
  exists p. split; [exact Hp |]. intros onError.
  eexists. split; [exact (Hrun onError) |]. split; [reflexivity |].
  rewrite journal_replay, input_replay, journal_shape, commands_journal. now split.
Qed.

Lemma pathOf_attempts (mHold mQuery mResume : string -> bool) (ctx : Context)
  (opts : BackupOptions) (env : Env) (sink : list File -> option error)
  (i : nat) (output : string) (p : Path) :
  held mHold ctx opts env ->
  (i < 3)%nat ->
  firstAcknowledged mQuery ctx opts env i output ->
  pathOf mHold mQuery mResume ctx opts env sink = Some p ->
  attemptsOf p = S i.
Proof.
  intros Hheld Hi Hfirst.
  rewrite (pathOf_acknowledged mHold mQuery mResume ctx opts env sink i output Hheld Hi Hfirst).
  destruct (parseSaveQuery output) as [files [e|]]; [now intros [= <-] |].
  destruct (sink files); [now intros [= <-] |].
  destruct (await _ mResume (onResume env)) as [[o [e|]]|];
    [now intros [= <-] | now intros [= <-] | discriminate].
Qed.

(** X1.  Without a sink (a [nil] [Backupper]) [Backup] returns the error
    of [defaultOptions] at once, in the version with the five-minute
    resume as in the earlier one: it does not wait for [backupMutex], so it
    returns even while another backup holds it, it sends no command, and it
    leaves the server as it was. *)
Theorem Backup_without_sink {R : Regexp} (ctx : Context) (opts : BackupOptions)
  (env : Env) (s : Server) :
  Backupper opts = None ->
  Backup ctx opts env s = Some (Some (Errorf "Backupper is mandatory but is nil"), s) /\
  Backup_5s ctx opts env s = Some (Some (Errorf "Backupper is mandatory but is nil"), s).
Proof.
  intros Hnil. unfold Backup, Backup_5s, BackupWith, defaultOptions.
  rewrite Hnil. split; reflexivity.
Qed.

Lemma Backup_without_sink_witness :
  backupMutex busy = true /\
  Backup Background {| Backupper := None; CommandTimeout := 5 * Second; SavePause := Minute |}
    answering busy
  = Some (Some (Errorf "Backupper is mandatory but is nil"), busy).
Proof.
  split; [reflexivity |].
  exact (proj1 (Backup_without_sink (R := packageRegexp) Background
                  {| Backupper := None; CommandTimeout := 5 * Second; SavePause := Minute |}
                  answering busy eq_refl)).
Defined.

(** X2.  [Backup] stops asking at the first query that is acknowledged:
    when the hold is acknowledged, the pause passes and attempt [i] (from
    0, below 3) is the first acknowledged one, the call has sent
    [save query] exactly [i + 1] times, straight after the hold, whatever
    happens afterwards. *)
Theorem Backup_queries_until_acknowledged {R : Regexp} (mHold mQuery mResume : string -> bool)
  (ctx : Context) (opts : BackupOptions) (env : Env)
  (sink : list File -> option error) (s : Server) (i : nat) (output : string) :
  regexp_Compile holdPattern = Some mHold ->
  regexp_Compile queryPattern = Some mQuery ->
  regexp_Compile resumePattern = Some mResume ->
  Backupper opts = Some sink ->
  backupMutex s = false ->
  held mHold ctx (fst (defaultOptions opts)) env ->
  (i < 3)%nat ->
  firstAcknowledged mQuery ctx (fst (defaultOptions opts)) env i output ->
  exists result after rest,
    Backup ctx opts env s = Some (result, after) /\
    journal after
    = journal s ++
      [Locked; Command "save hold" (CommandTimeout (fst (defaultOptions opts)) :: timeouts ctx)] ++
      repeat (Command "save query" (CommandTimeout (fst (defaultOptions opts)) :: timeouts ctx))
        (S i) ++ rest /\
    input (theConsole after)
    = input (theConsole s) ++ "save hold" :: repeat "save query" (S i) ++ commands rest /\
    ~ In "save query" (commands rest).
Proof.
  intros Hh Hq Hr Hs Hfree Hheld Hi Hfirst.
  destruct (Backup_path mHold mQuery mResume ctx opts env sink s Hh Hq Hr Hs Hfree)
    as (p & Hp & Hrun).
  destruct (Hrun (5 * Minute)) as (after & Hb & _ & Hj & Hin).
  rewrite (pathOf_attempts _ _ _ _ _ _ _ _ _ _ Hheld Hi Hfirst Hp) in Hj, Hin.
  exists (pathResult p), after. eexists.
  split; [exact Hb |]. split; [exact Hj |]. split; [exact Hin |].
  apply afterQueries_no_query.
Qed.

Lemma Backup_queries_until_acknowledged_witness :
  exists result after rest,
    Backup Background (withSink okSink 0) answersSecondQuery idle = Some (result, after) /\
    journal after
    = [Locked; Command "save hold" [3 * Second];
       Command "save query" [3 * Second]; Command "save query" [3 * Second]] ++ rest /\
    input (theConsole after) = "save hold" :: "save query" :: "save query" :: commands rest /\
    ~ In "save query" (commands rest).
Proof.
  apply (Backup_queries_until_acknowledged (R := packageRegexp)
           (regexp.lineStartsWith "Saving...")
           (regexp.thenLater "Data saved. Files are now ready to be copied" "levelname.txt")
           (regexp.lineStartsWith "Changes to the world are resumed")
           Background (withSink okSink 0) answersSecondQuery okSink idle 1
           (strings.Join queryReply LF)
           eq_refl eq_refl eq_refl eq_refl eq_refl).
  - split; [exists "Saving..."; reflexivity | reflexivity].
  - lia.
  - split; [| reflexivity].
    intros [|j] Hj; [| lia]. exists DeadlineExceeded, "". reflexivity.
Defined.

(** X3.  [Backup] gives up after three queries: when the hold is
    acknowledged, the pause passes and none of the three attempts is
    acknowledged, it returns the error of the third attempt; it has sent
    the hold, three queries and the deferred resume, which waits five
    minutes, and has neither parsed anything nor called the sink. *)
Theorem Backup_gives_up_after_three_queries {R : Regexp}
  (mHold mQuery mResume : string -> bool)
  (ctx : Context) (opts : BackupOptions) (env : Env)
  (sink : list File -> option error) (s : Server) (e : error) :
  regexp_Compile holdPattern = Some mHold ->
  regexp_Compile queryPattern = Some mQuery ->
  regexp_Compile resumePattern = Some mResume ->
  Backupper opts = Some sink ->
  backupMutex s = false ->
  held mHold ctx (fst (defaultOptions opts)) env ->
  (forall j, (j < 2)%nat ->
     exists e', ends (WithTimeout ctx (CommandTimeout (fst (defaultOptions opts)))) mQuery
                  (onQuery env j) (Some e')) ->
  ends (WithTimeout ctx (CommandTimeout (fst (defaultOptions opts)))) mQuery
    (onQuery env 2) (Some e) ->
  exists after,
    Backup ctx opts env s = Some (Some e, after) /\
    journal after
    = journal s ++
      [Locked;
       Command "save hold" (CommandTimeout (fst (defaultOptions opts)) :: timeouts ctx);
       Command "save query" (CommandTimeout (fst (defaultOptions opts)) :: timeouts ctx);
       Command "save query" (CommandTimeout (fst (defaultOptions opts)) :: timeouts ctx);
       Command "save query" (CommandTimeout (fst (defaultOptions opts)) :: timeouts ctx);
       Command "save resume" (5 * Minute :: timeouts ctx);
       Unlocked] /\
    input (theConsole after)
    = input (theConsole s) ++
      ["save hold"; "save query"; "save query"; "save query"; "save resume"].
Proof.
  intros Hh Hq Hr Hs Hfree [[outH HaH] Hpause] Hbefore [out Hlast].
  destruct (Backup_path mHold mQuery mResume ctx opts env sink s Hh Hq Hr Hs Hfree)
    as (p & Hp & Hrun).
  destruct (Hrun (5 * Minute)) as (after & Hb & _ & Hj & Hin).
  assert (Hpath : p = QueryFailed e).
  { revert Hp. unfold pathOf. cbv zeta. rewrite HaH, Hpause.
    rewrite (queryAttempts_exhausted _ out e 2 0 "" None); [now intros [= <-] | | exact Hlast].
    intros j Hj'. destruct (Hbefore j Hj') as (e' & o & Ho). now exists o, e'. }
  subst p. exists after. split; [exact Hb |]. split; [exact Hj | exact Hin].
Qed.

Lemma Backup_gives_up_after_three_queries_witness :
  exists after,
    Backup Background (withSink okSink 0) neverListing idle
    = Some (Some DeadlineExceeded, after) /\
    journal after
    = [Locked; Command "save hold" [3 * Second];
       Command "save query" [3 * Second]; Command "save query" [3 * Second];
       Command "save query" [3 * Second];
       Command "save resume" [5 * Minute]; Unlocked] /\
    input (theConsole after)
    = ["save hold"; "save query"; "save query"; "save query"; "save resume"].
Proof.
  apply (Backup_gives_up_after_three_queries (R := packageRegexp)
           (regexp.lineStartsWith "Saving...")
           (regexp.thenLater "Data saved. Files are now ready to be copied" "levelname.txt")
           (regexp.lineStartsWith "Changes to the world are resumed")
           Background (withSink okSink 0) neverListing okSink idle DeadlineExceeded
           eq_refl eq_refl eq_refl eq_refl eq_refl).
  - split; [exists "Saving..."; reflexivity | reflexivity].
  - intros j _. exists DeadlineExceeded, "". reflexivity.
  - exists "". reflexivity.
Defined.

(** X4.  When the acknowledged output of the query does not parse,
    [Backup] returns the parser's error without calling the sink: after
    the queries it sends only the deferred resume. *)
Theorem Backup_parse_failure_skips_sink {R : Regexp} (mHold mQuery mResume : string -> bool)
  (ctx : Context) (opts : BackupOptions) (env : Env)
  (sink : list File -> option error) (s : Server) (i : nat) (output : string) (e : error) :
  regexp_Compile holdPattern = Some mHold ->
  regexp_Compile queryPattern = Some mQuery ->
  regexp_Compile resumePattern = Some mResume ->
  Backupper opts = Some sink ->
  backupMutex s = false ->
  held mHold ctx (fst (defaultOptions opts)) env ->
  (i < 3)%nat ->
  firstAcknowledged mQuery ctx (fst (defaultOptions opts)) env i output ->
  snd (parseSaveQuery output) = Some e ->
  exists after,
    Backup ctx opts env s = Some (Some e, after) /\
    journal after
    = journal s ++
      [Locked; Command "save hold" (CommandTimeout (fst (defaultOptions opts)) :: timeouts ctx)] ++
      repeat (Command "save query" (CommandTimeout (fst (defaultOptions opts)) :: timeouts ctx))
        (S i) ++
      [Command "save resume" (5 * Minute :: timeouts ctx); Unlocked] /\
    input (theConsole after)
    = input (theConsole s) ++ "save hold" :: repeat "save query" (S i) ++ ["save resume"].
Proof.
  intros Hh Hq Hr Hs Hfree Hheld Hi Hfirst Hparse.
  destruct (Backup_path mHold mQuery mResume ctx opts env sink s Hh Hq Hr Hs Hfree)
    as (p & Hp & Hrun).
  destruct (Hrun (5 * Minute)) as (after & Hb & _ & Hj & Hin).
  assert (Hpath : p = ParseFailed (S i) e).
  { revert Hp.
    rewrite (pathOf_acknowledged mHold mQuery mResume ctx _ env sink i output Hheld Hi Hfirst).
    destruct (parseSaveQuery output) as [files [e'|]]; cbn [snd] in Hparse;
      [| discriminate Hparse].
    injection Hparse as ->. now intros [= <-]. }
  subst p. cbn [attemptsOf afterQueries pathResult] in *.
  exists after. split; [exact Hb |]. split; [exact Hj | exact Hin].
Qed.

Lemma Backup_parse_failure_skips_sink_witness :
  exists after,
    Backup Background (withSink okSink 0) garbledListing idle
    = Some (Some (invalidEntry "world/levelname.txt"), after) /\
    journal after
    = [Locked; Command "save hold" [3 * Second]; Command "save query" [3 * Second];
       Command "save resume" [5 * Minute]; Unlocked] /\
    input (theConsole after) = ["save hold"; "save query"; "save resume"].
Proof.
  apply (Backup_parse_failure_skips_sink (R := packageRegexp)
           (regexp.lineStartsWith "Saving...")
           (regexp.thenLater "Data saved. Files are now ready to be copied" "levelname.txt")
           (regexp.lineStartsWith "Changes to the world are resumed")
           Background (withSink okSink 0) garbledListing okSink idle 0
           ("Data saved. Files are now ready to be copied." +:+ LF +:+
            "world/level.dat:2049, world/levelname.txt")
           (invalidEntry "world/levelname.txt")
           eq_refl eq_refl eq_refl eq_refl eq_refl).
  - split; [exists "Saving..."; reflexivity | reflexivity].
  - lia.
  - split; [intros j Hj; lia | reflexivity].
  - reflexivity.
Defined.

(** X5.  When the sink has taken the backup and the resume that follows
    is not acknowledged, [Backup] returns that resume's error and sends the
    resume a second time, deferred, under the five-minute timeout: the
    backup is made and the caller is told of a failure. *)
Theorem Backup_resume_failure_resumes_again {R : Regexp}
  (mHold mQuery mResume : string -> bool)
  (ctx : Context) (opts : BackupOptions) (env : Env)
  (sink : list File -> option error) (s : Server) (i : nat) (output : string)
  (files : list File) (e : error) :
  regexp_Compile holdPattern = Some mHold ->
  regexp_Compile queryPattern = Some mQuery ->
  regexp_Compile resumePattern = Some mResume ->
  Backupper opts = Some sink ->
  backupMutex s = false ->
  held mHold ctx (fst (defaultOptions opts)) env ->
  (i < 3)%nat ->
  firstAcknowledged mQuery ctx (fst (defaultOptions opts)) env i output ->
  parseSaveQuery output = (files, None) ->
  sink files = None ->
  ends (WithTimeout ctx (CommandTimeout (fst (defaultOptions opts)))) mResume
    (onResume env) (Some e) ->
  exists after,
    Backup ctx opts env s = Some (Some e, after) /\
    journal after
    = journal s ++
      [Locked; Command "save hold" (CommandTimeout (fst (defaultOptions opts)) :: timeouts ctx)] ++
      repeat (Command "save query" (CommandTimeout (fst (defaultOptions opts)) :: timeouts ctx))
        (S i) ++
      [Backed files;
       Command "save resume" (CommandTimeout (fst (defaultOptions opts)) :: timeouts ctx);
       Command "save resume" (5 * Minute :: timeouts ctx); Unlocked] /\
    input (theConsole after)
    = input (theConsole s) ++
      "save hold" :: repeat "save query" (S i) ++ ["save resume"; "save resume"].
Proof.
  intros Hh Hq Hr Hs Hfree Hheld Hi Hfirst Hparse Hsink [outR HaR].
  destruct (Backup_path mHold mQuery mResume ctx opts env sink s Hh Hq Hr Hs Hfree)
    as (p & Hp & Hrun).
  destruct (Hrun (5 * Minute)) as (after & Hb & _ & Hj & Hin).
  assert (Hpath : p = ResumeFailed (S i) files e).
  { revert Hp.
    rewrite (pathOf_acknowledged mHold mQuery mResume ctx _ env sink i output Hheld Hi Hfirst).
    rewrite Hparse, Hsink, HaR. now intros [= <-]. }
  subst p. exists after. split; [exact Hb |]. split; [exact Hj | exact Hin].
Qed.

Lemma Backup_resume_failure_resumes_again_witness :
  exists after,
    Backup Background (withSink okSink 0) unresumed idle
    = Some (Some DeadlineExceeded, after) /\
    journal after
    = [Locked; Command "save hold" [3 * Second]; Command "save query" [3 * Second];
       Backed [{| Name := "world/db/CURRENT"; Length := 16 |};
               {| Name := "world/level.dat"; Length := 2049 |};
               {| Name := "world/levelname.txt"; Length := 12 |}];
       Command "save resume" [3 * Second];
       Command "save resume" [5 * Minute]; Unlocked] /\
    input (theConsole after) = ["save hold"; "save query"; "save resume"; "save resume"].
Proof.
  apply (Backup_resume_failure_resumes_again (R := packageRegexp)
           (regexp.lineStartsWith "Saving...")
           (regexp.thenLater "Data saved. Files are now ready to be copied" "levelname.txt")
           (regexp.lineStartsWith "Changes to the world are resumed")
           Background (withSink okSink 0) unresumed okSink idle 0
           (strings.Join queryReply LF)
           [{| Name := "world/db/CURRENT"; Length := 16 |};
            {| Name := "world/level.dat"; Length := 2049 |};
            {| Name := "world/levelname.txt"; Length := 12 |}]
           DeadlineExceeded
           eq_refl eq_refl eq_refl eq_refl eq_refl).
  - split; [exists "Saving..."; reflexivity | reflexivity].
  - lia.
  - split; [intros j Hj; lia | reflexivity].
  - reflexivity.
  - reflexivity.
  - exists "". reflexivity.
Defined.

(** X6.  [Backup] returns [nil] exactly when every step went through: the
    hold is acknowledged, the pause passes, one of the three queries is
    acknowledged, its output parses, the sink returns [nil] on the parsed
    files and the resume is acknowledged.  The call has then done the
    hold, the queries up to the acknowledged one, the sink on those files
    and one resume, between [Lock] and [Unlock]. *)
Theorem Backup_returns_nil_exactly_when {R : Regexp} (mHold mQuery mResume : string -> bool)
  (ctx : Context) (opts : BackupOptions) (env : Env)
  (sink : list File -> option error) (s : Server) :
  regexp_Compile holdPattern = Some mHold ->
  regexp_Compile queryPattern = Some mQuery ->
  regexp_Compile resumePattern = Some mResume ->
  Backupper opts = Some sink ->
  backupMutex s = false ->
  exists result after,
    Backup ctx opts env s = Some (result, after) /\
    (result = None ->
     held mHold ctx (fst (defaultOptions opts)) env /\
     exists i output files,
       (i < 3)%nat /\
       firstAcknowledged mQuery ctx (fst (defaultOptions opts)) env i output /\
       parseSaveQuery output = (files, None) /\
       sink files = None /\
       ends (WithTimeout ctx (CommandTimeout (fst (defaultOptions opts)))) mResume
         (onResume env) None) /\
    (forall i output files,
       held mHold ctx (fst (defaultOptions opts)) env ->
       (i < 3)%nat ->
       firstAcknowledged mQuery ctx (fst (defaultOptions opts)) env i output ->
       parseSaveQuery output = (files, None) ->
       sink files = None ->
       ends (WithTimeout ctx (CommandTimeout (fst (defaultOptions opts)))) mResume
         (onResume env) None ->
       result = None /\
       journal after
       = journal s ++
         [Locked;
          Command "save hold" (CommandTimeout (fst (defaultOptions opts)) :: timeouts ctx)] ++
         repeat (Command "save query" (CommandTimeout (fst (defaultOptions opts)) :: timeouts ctx))
           (S i) ++
         [Backed files;
          Command "save resume" (CommandTimeout (fst (defaultOptions opts)) :: timeouts ctx);
          Unlocked]).
Proof.
  intros Hh Hq Hr Hs Hfree.
  destruct (Backup_path mHold mQuery mResume ctx opts env sink s Hh Hq Hr Hs Hfree)
    as (p & Hp & Hrun).
  destruct (Hrun (5 * Minute)) as (after & Hb & _ & Hj & _).
  exists (pathResult p), after. split; [exact Hb |]. split.
  - intros Hnil.
    destruct (pathOf_inv _ _ _ _ _ _ _ _ Hp) as [Hfollows Hasks].
    destruct p as [e|e|e|k e|k fs e|k fs e|k fs]; try discriminate Hnil.
    destruct Hfollows as (Hheld & _ & Hsink & Hresume).
    destruct Hasks as (i & output & _ & Hi & Hfirst & Hsnd & Hfst).
    split; [exact Hheld |].
    exists i, output, fs. split; [exact Hi |]. split; [exact Hfirst |].
    split; [| exact (conj Hsink Hresume)].
    specialize (Hfst eq_refl). destruct (parseSaveQuery output) as [fs' err].
    cbn [fst snd] in Hsnd, Hfst. now subst.
  - intros i output files Hheld Hi Hfirst Hparse Hsink [outR HaR].
    assert (Hpath : p = Completed (S i) files).
    { revert Hp.
      rewrite (pathOf_acknowledged mHold mQuery mResume ctx _ env sink i output Hheld Hi Hfirst).
      rewrite Hparse, Hsink, HaR. now intros [= <-]. }
    subst p. split; [reflexivity | exact Hj].
Qed.

Lemma Backup_returns_nil_exactly_when_witness :
  exists after,
    Backup Background (withSink okSink 0) answersSecondQuery idle = Some (None, after) /\
    journal after
    = [Locked; Command "save hold" [3 * Second];
       Command "save query" [3 * Second]; Command "save query" [3 * Second];
       Backed [{| Name := "world/db/CURRENT"; Length := 16 |};
               {| Name := "world/level.dat"; Length := 2049 |};
               {| Name := "world/levelname.txt"; Length := 12 |}];
       Command "save resume" [3 * Second]; Unlocked].
Proof.
  destruct (Backup_returns_nil_exactly_when (R := packageRegexp)
              (regexp.lineStartsWith "Saving...")
              (regexp.thenLater "Data saved. Files are now ready to be copied" "levelname.txt")
              (regexp.lineStartsWith "Changes to the world are resumed")
              Background (withSink okSink 0) answersSecondQuery okSink idle
              eq_refl eq_refl eq_refl eq_refl eq_refl)
    as (result & after & Hrun & _ & Hwhen).
  destruct (Hwhen 1%nat (strings.Join queryReply LF)
              [{| Name := "world/db/CURRENT"; Length := 16 |};
               {| Name := "world/level.dat"; Length := 2049 |};
               {| Name := "world/levelname.txt"; Length := 12 |}])
    as [Hnil Hj].
  - split; [exists "Saving..."; reflexivity | reflexivity].
  - lia.
  - split; [| reflexivity].
    intros [|j] Hj; [| lia]. exists DeadlineExceeded, "". reflexivity.
  - reflexivity.
  - reflexivity.
  - exists "Changes to the world are resumed.". reflexivity.
  - exists after. rewrite Hnil in Hrun. split; [exact Hrun | exact Hj].
Defined.

(** X7.  When the caller's context is done during the pause after an
    acknowledged hold, [Backup] returns the context's error and sends
    nothing more: no query and no resume, deferred or not, so the hold is
    the only command of the call and the server is left on hold. *)
Theorem Backup_cancelled_pause_leaves_hold {R : Regexp}
  (mHold mQuery mResume : string -> bool)
  (ctx : Context) (opts : BackupOptions) (env : Env)
  (sink : list File -> option error) (s : Server) (e : error) :
  regexp_Compile holdPattern = Some mHold ->
  regexp_Compile queryPattern = Some mQuery ->
  regexp_Compile resumePattern = Some mResume ->
  Backupper opts = Some sink ->
  backupMutex s = false ->
  ends (WithTimeout ctx (CommandTimeout (fst (defaultOptions opts)))) mHold
    (onHold env) None ->
  onPause env = Some e ->
  exists after,
    Backup ctx opts env s = Some (Some e, after) /\
    journal after
    = journal s ++
      [Locked; Command "save hold" (CommandTimeout (fst (defaultOptions opts)) :: timeouts ctx);
       Unlocked] /\
    input (theConsole after) = input (theConsole s) ++ ["save hold"] /\
    backupMutex after = false.
Proof.
  intros Hh Hq Hr Hs Hfree [outH HaH] Hpause.
  destruct (Backup_path mHold mQuery mResume ctx opts env sink s Hh Hq Hr Hs Hfree)
    as (p & Hp & Hrun).
  destruct (Hrun (5 * Minute)) as (after & Hb & Hafter & Hj & Hin).
  assert (Hpath : p = PauseCancelled e).
  { revert Hp. unfold pathOf. cbv zeta. rewrite HaH, Hpause. now intros [= <-]. }
  subst p. exists after. split; [exact Hb |]. split; [exact Hj |]. split; [exact Hin |].
  rewrite Hafter. apply (backupMutex_replay_unlocked (Locked :: _)).
Qed.

Lemma Backup_cancelled_pause_leaves_hold_witness :
  exists after,
    Backup (WithTimeout Background (2 * Second)) (withSink okSink 0) expiresInPause idle
    = Some (Some DeadlineExceeded, after) /\
    journal after
    = [Locked; Command "save hold" [3 * Second; 2 * Second]; Unlocked] /\
    input (theConsole after) = ["save hold"] /\
    backupMutex after = false.
Proof.
  apply (Backup_cancelled_pause_leaves_hold (R := packageRegexp)
           (regexp.lineStartsWith "Saving...")
           (regexp.thenLater "Data saved. Files are now ready to be copied" "levelname.txt")
           (regexp.lineStartsWith "Changes to the world are resumed")
           (WithTimeout Background (2 * Second)) (withSink okSink 0) expiresInPause okSink idle
           DeadlineExceeded
           eq_refl eq_refl eq_refl eq_refl eq_refl).
  - exists "Saving...". reflexivity.
  - reflexivity.
Defined.

(** X8.  The sink is called at most once in a call of [Backup], and only
    with what [parseSaveQuery] made, without error, of the output of the
    first acknowledged query: a call of the sink on [files] comes straight
    after the hold and the queries up to that one, and nothing after it is
    a call of the sink. *)
Theorem Backup_sink_gets_the_listing {R : Regexp} (mHold mQuery mResume : string -> bool)
  (ctx : Context) (opts : BackupOptions) (env : Env)
  (sink : list File -> option error) (s : Server) :
  regexp_Compile holdPattern = Some mHold ->
  regexp_Compile queryPattern = Some mQuery ->
  regexp_Compile resumePattern = Some mResume ->
  Backupper opts = Some sink ->
  backupMutex s = false ->
  exists result after j,
    Backup ctx opts env s = Some (result, after) /\
    journal after = journal s ++ j /\
    forall files,
      In (Backed files) j ->
      exists i output rest,
        (i < 3)%nat /\
        firstAcknowledged mQuery ctx (fst (defaultOptions opts)) env i output /\
        parseSaveQuery output = (files, None) /\
        j = [Locked;
             Command "save hold" (CommandTimeout (fst (defaultOptions opts)) :: timeouts ctx)] ++
            repeat (Command "save query" (CommandTimeout (fst (defaultOptions opts)) :: timeouts ctx))
              (S i) ++
            Backed files :: rest /\
        forall files', ~ In (Backed files') rest.
Proof.
  intros Hh Hq Hr Hs Hfree.
  destruct (Backup_path mHold mQuery mResume ctx opts env sink s Hh Hq Hr Hs Hfree)
    as (p & Hp & Hrun).
  destruct (Hrun (5 * Minute)) as (after & Hb & _ & Hj & _).
  exists (pathResult p), after. eexists.
  split; [exact Hb |]. split; [exact Hj |].
  intros files Hin. rewrite <- journal_shape in Hin.
  destruct (pathOf_inv _ _ _ _ _ _ _ _ Hp) as [_ Hasks].
  assert (Hlisting : forall k,
            (exists i output,
               k = S i /\ (i < 3)%nat /\
               firstAcknowledged mQuery ctx (fst (defaultOptions opts)) env i output /\
               snd (parseSaveQuery output) = None /\
               (@None error = None -> fst (parseSaveQuery output) = files)) ->
            exists i output,
              k = S i /\ (i < 3)%nat /\
              firstAcknowledged mQuery ctx (fst (defaultOptions opts)) env i output /\
              parseSaveQuery output = (files, None)).
  { intros k (i & output & Hk & Hi & Hfirst & Hsnd & Hfst).
    exists i, output. split; [exact Hk |]. split; [exact Hi |]. split; [exact Hfirst |].
    specialize (Hfst eq_refl). destruct (parseSaveQuery output) as [fs err].
    cbn [fst snd] in Hsnd, Hfst. now subst. }
  apply Backed_on_path in Hin as [(k & e & ->) | [(k & e & ->) | (k & ->)]];
    cbn [asks] in Hasks; destruct (Hlisting k Hasks) as (i & output & -> & Hi & Hfirst & Hparse);
    exists i, output; eexists;
    (split; [exact Hi |]); (split; [exact Hfirst |]); (split; [exact Hparse |]);
    (split; [reflexivity |]);
    intros files' Hin'; in_cases Hin'.
Qed.

Lemma Backup_sink_gets_the_listing_witness :
  exists after,
    Backup Background (withSink okSink 0) answersSecondQuery idle = Some (None, after) /\
    forall files,
      In (Backed files) (journal after) ->
      files = [{| Name := "world/db/CURRENT"; Length := 16 |};
               {| Name := "world/level.dat"; Length := 2049 |};
               {| Name := "world/levelname.txt"; Length := 12 |}].
Proof.
  destruct (Backup_sink_gets_the_listing (R := packageRegexp)
              (regexp.lineStartsWith "Saving...")
              (regexp.thenLater "Data saved. Files are now ready to be copied" "levelname.txt")
              (regexp.lineStartsWith "Changes to the world are resumed")
              Background (withSink okSink 0) answersSecondQuery okSink idle
              eq_refl eq_refl eq_refl eq_refl eq_refl)
    as (result & after & j & Hrun & Hj & Hsink).
  assert (Hout : outcome (Backup Background (withSink okSink 0) answersSecondQuery idle)
                 = Some (None,
                         [Locked; Command "save hold" [3 * Second];
                          Command "save query" [3 * Second]; Command "save query" [3 * Second];
                          Backed [{| Name := "world/db/CURRENT"; Length := 16 |};
                                  {| Name := "world/level.dat"; Length := 2049 |};
                                  {| Name := "world/levelname.txt"; Length := 12 |}];
                          Command "save resume" [3 * Second]; Unlocked],
                         ["save hold"; "save query"; "save query"; "save resume"]))
    by (vm_compute; reflexivity).
  rewrite Hrun in Hout. cbn [outcome] in Hout. injection Hout as Hresult Hjournal _.
  subst result. exists after. split; [exact Hrun |].
  intros files Hin. cbn [idle journal app] in Hj. rewrite Hj in Hin.
  destruct (Hsink files Hin) as (i & output & rest & Hi & [Hbefore Hack] & Hparse & _).
  assert (Hcases : i = 0%nat \/ i = 1%nat \/ i = 2%nat) by lia.
  destruct Hcases as [-> | [-> | ->]].
  - discriminate Hack.
  - injection Hack as <-. injection Hparse as <-. reflexivity.
  - destruct (Hbefore 1%nat ltac:(lia)) as (e & o & Ho). discriminate Ho.
Defined.

(** ** What [Backup] leaves of the server *)

Lemma apply_event_fresh (e : event) (s : Server) :
  freshChannels s ->
  freshChannels (apply_event e s) /\
  subs (theConsole (apply_event e s)) = subs (theConsole s) /\
  chans (apply_event e s)
  = (chans s + match commandOf e with Some _ => 1 | None => 0 end)%nat.
Proof.
  intros Hfresh.
  destruct e as [| |c w|files];
    try (cbn [apply_event theConsole subs chans commandOf];
         split; [exact Hfresh | split; [reflexivity | lia]]).
  assert (Hsubs : subs (theConsole (apply_event (Command c w) s)) = subs (theConsole s)).
  { cbn [apply_event theConsole Console.Unsubscribe Console.SendRawCommand
         Console.Subscribe subs].
    apply set_eq; intros x.
    rewrite elem_of_difference, elem_of_union, !elem_of_singleton.
    split; [tauto |]. intros Hx. split; [now right |].
    intros ->. specialize (Hfresh _ Hx). lia. }
  split; [| split; [exact Hsubs | cbn [apply_event chans commandOf]; lia]].
  intros x Hx. rewrite Hsubs in Hx. specialize (Hfresh _ Hx).
  cbn [apply_event chans]. lia.
Qed.

Lemma replay_fresh (j : list event) :
  forall s,
    freshChannels s ->
    freshChannels (replay j s) /\
    subs (theConsole (replay j s)) = subs (theConsole s) /\
    chans (replay j s) = (chans s + length (commands j))%nat.
Proof.
  induction j as [|e j IH]; intros s Hfresh.
  - rewrite replay_nil. split; [exact Hfresh | split; [reflexivity | cbn; lia]].
  - rewrite replay_cons.
    destruct (apply_event_fresh e s Hfresh) as (Hf & Hs & Hc).
    destruct (IH _ Hf) as (Hf' & Hs' & Hc').
    split; [exact Hf' |]. split; [now rewrite Hs', Hs |].
    rewrite Hc', Hc.
    change (commands (e :: j))
      with (match commandOf e with Some y => y :: commands j | None => commands j end).
    destruct (commandOf e); cbn [length]; lia.
Qed.

(** X9.  A call of [Backup] leaves the subscriptions as it found them:
    every channel it makes for a command is unsubscribed again, whichever
    way the call ends, so the subscribers after the call are those from
    before; the mutex is free again, and the call has made at least one
    channel.  (Every channel subscribed before the call was made before
    it.) *)
Theorem Backup_keeps_subscribers {R : Regexp} (mHold mQuery mResume : string -> bool)
  (ctx : Context) (opts : BackupOptions) (env : Env)
  (sink : list File -> option error) (s : Server) :
  regexp_Compile holdPattern = Some mHold ->
  regexp_Compile queryPattern = Some mQuery ->
  regexp_Compile resumePattern = Some mResume ->
  Backupper opts = Some sink ->
  backupMutex s = false ->
  freshChannels s ->
  exists result after,
    Backup ctx opts env s = Some (result, after) /\
    subs (theConsole after) = subs (theConsole s) /\
    freshChannels after /\
    backupMutex after = false /\
    (chans s < chans after)%nat.
Proof.
  intros Hh Hq Hr Hs Hfree Hfresh.
  destruct (Backup_path mHold mQuery mResume ctx opts env sink s Hh Hq Hr Hs Hfree)
    as (p & Hp & Hrun).
  destruct (Hrun (5 * Minute)) as (after & Hb & Hafter & _ & _).
  exists (pathResult p), after. split; [exact Hb |].
  rewrite Hafter.
  match goal with
  | |- context [replay ?j s] => destruct (replay_fresh j s Hfresh) as (Hf & Hsubs & Hchans)
  end.
  split; [exact Hsubs |]. split; [exact Hf |].
  split; [apply (backupMutex_replay_unlocked (Locked :: _)) |].
  rewrite Hchans, journal_shape, commands_journal. cbn [length]. lia.
Qed.

Lemma Backup_keeps_subscribers_witness :
  exists result after,
    Backup Background (withSink okSink 0) unresumed watched = Some (result, after) /\
    subs (theConsole after) = {[0%nat]} /\
    freshChannels after /\
    backupMutex after = false /\
    (1 < chans after)%nat.
Proof.
  apply (Backup_keeps_subscribers (R := packageRegexp)
           (regexp.lineStartsWith "Saving...")
           (regexp.thenLater "Data saved. Files are now ready to be copied" "levelname.txt")
           (regexp.lineStartsWith "Changes to the world are resumed")
           Background (withSink okSink 0) unresumed okSink watched
           eq_refl eq_refl eq_refl eq_refl eq_refl).
  intros c Hc. change (c ∈ ({[0%nat]} : gset nat)) in Hc.
  apply elem_of_singleton in Hc. subst c. cbn. lia.
Defined.

(** X10.  The two versions of [Backup], whose deferred resume waits five
    minutes and five seconds, differ in that timeout only: on the same
    server and observations they return the same result and send the same
    commands, and when they return [nil] they leave the same server. *)
Theorem Backup_versions_agree {R : Regexp} (mHold mQuery mResume : string -> bool)
  (ctx : Context) (opts : BackupOptions) (env : Env)
  (sink : list File -> option error) (s : Server) :
  regexp_Compile holdPattern = Some mHold ->
  regexp_Compile queryPattern = Some mQuery ->
  regexp_Compile resumePattern = Some mResume ->
  Backupper opts = Some sink ->
  backupMutex s = false ->
  exists result after after',
    Backup ctx opts env s = Some (result, after) /\
    Backup_5s ctx opts env s = Some (result, after') /\
    input (theConsole after) = input (theConsole after') /\
    commands (journal after) = commands (journal after') /\
    (result = None -> after = after').
Proof.
  intros Hh Hq Hr Hs Hfree.
  destruct (Backup_path mHold mQuery mResume ctx opts env sink s Hh Hq Hr Hs Hfree)
    as (p & Hp & Hrun).
  destruct (Hrun (5 * Minute)) as (after & Hb & Hafter & Hj & Hin).
  destruct (Hrun (5 * Second)) as (after' & Hb' & Hafter' & Hj' & Hin').
  exists (pathResult p), after, after'.
  split; [exact Hb |]. split; [exact Hb' |].
  split.
  { rewrite Hin, Hin'. do 3 f_equal. apply commands_afterQueries. }
  split.
  { rewrite Hj, Hj', !commands_app. do 3 f_equal. apply commands_afterQueries. }
  intros Hnil. rewrite Hafter, Hafter'.
  destruct p; try discriminate Hnil. reflexivity.
Qed.

Lemma Backup_versions_agree_witness :
  exists result after after',
    Backup Background (withSink fullSink 0) answering idle = Some (result, after) /\
    Backup_5s Background (withSink fullSink 0) answering idle = Some (result, after') /\
    input (theConsole after) = input (theConsole after') /\
    commands (journal after) = commands (journal after') /\
    (result = None -> after = after').
Proof.
  apply (Backup_versions_agree (R := packageRegexp)
           (regexp.lineStartsWith "Saving...")
           (regexp.thenLater "Data saved. Files are now ready to be copied" "levelname.txt")
           (regexp.lineStartsWith "Changes to the world are resumed")
           Background (withSink fullSink 0) answering fullSink idle
           eq_refl eq_refl eq_refl eq_refl eq_refl).
Defined.

(** ** The text the correlator gathers *)

Lemma gathered_snoc (pre : list string) (m : string) :
  gathered (pre ++ [m])
  = if String.eqb (gathered pre) "" then m else gathered pre +:+ LF +:+ m.
Proof.
  induction pre as [|x pre IH].
  - destruct m; reflexivity.
  - destruct x as [|a x]; [exact IH |].
    change (gathered ((String a x :: pre) ++ [m]))
      with (strings.Join ((String a x :: pre) ++ [m]) LF).
    change (gathered (String a x :: pre)) with (strings.Join (String a x :: pre) LF).
    rewrite Join_snoc by discriminate.
    assert (Hne : strings.Join (String a x :: pre) LF <> "")
      by (apply Join_not_empty; discriminate).
    apply String.eqb_neq in Hne. now rewrite Hne.
Qed.

(** The loop of the correlator returns the text gathered from the lines
    up to the first one at which the text matches, or from all the lines
    when the context is done first. *)
Lemma selectLoop_gathers (respRegex : string -> bool) (done : option error)
  (out : string) (err : option error) (rest : list string) :
  forall pre,
    selectLoop respRegex rest done (gathered pre) = Some (out, err) ->
    exists n,
      (n <= length rest)%nat /\
      out = gathered (pre ++ take n rest) /\
      (forall m, (1 <= m < n)%nat -> respRegex (gathered (pre ++ take m rest)) = false) /\
      match err with
      | None => (1 <= n)%nat /\ respRegex out = true
      | Some e => n = length rest /\ done = Some e /\ ((1 <= n)%nat -> respRegex out = false)
      end.
Proof.
  induction rest as [|m rest IH]; intros pre; cbn [selectLoop].
  - destruct done as [e|]; [| discriminate]. intros [= <- <-].
    exists 0%nat. split; [reflexivity |]. split; [now rewrite app_nil_r |].
    split; [intros m Hm; lia |]. split; [reflexivity |]. split; [reflexivity | lia].
  - rewrite <- gathered_snoc.
    destruct (respRegex (gathered (pre ++ [m]))) eqn:Hm.
    + intros [= <- <-]. exists 1%nat. split; [cbn; lia |]. split; [reflexivity |].
      split; [intros k Hk; lia |]. split; [lia | exact Hm].
    + intros Hloop. destruct (IH _ Hloop) as (n & Hn & Hout & Hbefore & Herr).
      exists (S n). split; [cbn; lia |].
      split; [rewrite Hout, <- app_assoc; reflexivity |].
      split.
      * intros [|[|k]] Hk; [lia | exact Hm |].
        cbn [take].
        replace (pre ++ m :: take (S k) rest) with ((pre ++ [m]) ++ take (S k) rest)
          by now rewrite <- app_assoc.
        apply Hbefore. lia.
      * destruct err as [e|].
        -- destruct Herr as (-> & Hdone & Hlast).
           split; [reflexivity |]. split; [exact Hdone |]. intros _.
           destruct (length rest) as [|k] eqn:Hlen; [| apply Hlast; lia].
           rewrite Hout. cbn [take]. now rewrite app_nil_r.
        -- destruct Herr as (_ & Hmatch). split; [lia | exact Hmatch].
Qed.

(** X11.  The output [SendRawCommandWaitResponse] returns is the text
    gathered from the lines received, in order and joined by line feeds
    (empty lines received before any other leave no trace): from the lines
    up to the first one at which the text matches the expression when it
    returns without error, the text gathered before that line not
    matching; and, when it returns the context's error, from all the lines
    received before the context was done, none of which made the text
    match. *)
Theorem SendRawCommandWaitResponse_output {R : Regexp} (ctx : Context)
  (rawCommand response : string) (respRegex : string -> bool) (o : Observed)
  (s after : Server) (out : string) (err : option error) :
  regexp_Compile response = Some respRegex ->
  SendRawCommandWaitResponse ctx rawCommand response o s = Some ((out, err), after) ->
  exists n,
    (n <= length (received o))%nat /\
    out = gathered (take n (received o)) /\
    (forall m, (1 <= m < n)%nat -> respRegex (gathered (take m (received o))) = false) /\
    match err with
    | None => (1 <= n)%nat /\ respRegex out = true
    | Some e =>
        n = length (received o) /\ doneErr ctx o = Some e /\
        ((1 <= n)%nat -> respRegex out = false)
    end.
Proof.
  intros Hc. unfold SendRawCommandWaitResponse. rewrite Hc.
  unfold bind, makeChan, onConsole, record, ret. cbn [fst snd].
  destruct (await ctx respRegex o) as [[out' err']|] eqn:Ha; [| discriminate].
  intros [= <- <- _].
  exact (selectLoop_gathers respRegex (doneErr ctx o) out' err' (received o) [] Ha).
Qed.

Lemma SendRawCommandWaitResponse_output_witness :
  exists n,
    (n <= 3)%nat /\
    "Saving..." = gathered (take n [""; "Saving..."; "later"]) /\
    (forall m, (1 <= m < n)%nat ->
       regexp.lineStartsWith "Saving..." (gathered (take m [""; "Saving..."; "later"])) = false) /\
    (1 <= n)%nat /\ regexp.lineStartsWith "Saving..." "Saving..." = true.
Proof.
  apply (SendRawCommandWaitResponse_output (R := packageRegexp) Background
           "save hold" holdPattern (regexp.lineStartsWith "Saving...")
           (lines [""; "Saving..."; "later"]) idle
           (apply_event (Command "save hold" []) idle) "Saving..." None eq_refl).
  exact (SendRawCommandWaitResponse_run (R := packageRegexp) Background
           "save hold" holdPattern (regexp.lineStartsWith "Saving...")
           (lines [""; "Saving..."; "later"]) ("Saving...", None) idle eq_refl eq_refl).
Defined.

(** ** More on the parser *)

Lemma prefix_byte (c a : ascii) (s : string) :
  String.prefix (String c "") (String a s) = if ascii_dec c a then true else false.
Proof. cbn [String.prefix]. destruct (ascii_dec c a); [now destruct s | reflexivity]. Qed.

(** A text that ends with the separator ends with an empty piece. *)
Lemma splitGo_append_byte (c : ascii) (s : string) :
  strings.splitGo (String c "") 0 (s +:+ String c "")
  = strings.splitGo (String c "") 0 s ++ [""].
Proof.
  induction s as [|a s IH].
  - cbn [String.append strings.splitGo]. rewrite prefix_byte.
    destruct (ascii_dec c c) as [_|Hne]; [reflexivity | now destruct Hne].
  - cbn [String.append]. cbn [strings.splitGo].
    change (String.length (String c "") - 1)%nat with 0%nat.
    rewrite !prefix_byte, IH.
    destruct (ascii_dec c a) as [_|_]; [reflexivity |].
    pose proof (splitGo_not_nil (String c "") s 0) as Hne.
    destruct (strings.splitGo (String c "") 0 s) as [|p ps]; [now destruct Hne | reflexivity].
Qed.

Lemma int64_range (x : Z) : - 2 ^ 63 <= strconv.int64 x < 2 ^ 63.
Proof.
  unfold strconv.int64.
  pose proof (Z.mod_pos_bound (x + 2 ^ 63) (2 ^ 64) ltac:(lia)). lia.
Qed.

(** Whatever [ParseInt] returns is an [int64]. *)
Lemma ParseInt_range (s : string) :
  - 2 ^ 63 <= fst (strconv.ParseInt s 10) < 2 ^ 63.
Proof.
  unfold strconv.ParseInt. destruct s as [|c0 s']; [cbn; lia |].
  cbv zeta.
  destruct (strconv.ParseUint _ 10) as [un err].
  destruct (match err with Some e => negb (strconv.isRange e) | None => false end);
    [cbn; lia |].
  destruct (negb (Ascii.eqb c0 "-") && (2 ^ 63 <=? un)); [apply int64_range |].
  destruct (Ascii.eqb c0 "-" && (2 ^ 63 <? un)); [apply int64_range |].
  cbn [fst]. destruct (Ascii.eqb c0 "-"); apply int64_range.
Qed.

(** The second loop keeps the length of the slice, puts only [int64]
    lengths into it, and its only error names one of the entries. *)
Lemma parseEntries_slots (entries : list string) :
  forall i files,
    length (fst (parseEntries entries i files)) = length files /\
    (Forall inInt64 files -> Forall inInt64 (fst (parseEntries entries i files))) /\
    (snd (parseEntries entries i files) = None \/
     exists e, In e entries /\ snd (parseEntries entries i files) = Some (invalidEntry e)).
Proof.
  induction entries as [|e rest IH]; intros i files; cbn [parseEntries].
  - split; [reflexivity |]. split; [trivial | now left].
  - assert (Hbad : length (fst (files, Some (invalidEntry e))) = length files /\
                   (Forall inInt64 files -> Forall inInt64 (fst (files, Some (invalidEntry e)))) /\
                   (snd (files, Some (invalidEntry e)) = None \/
                    exists e0, In e0 (e :: rest) /\
                               snd (files, Some (invalidEntry e)) = Some (invalidEntry e0))).
    { split; [reflexivity |]. split; [trivial |]. right. exists e. split; [now left | reflexivity]. }
    destruct (strings.Split e ":") as [|f0 [|f1 tl]]; [exact Hbad .. |].
    pose proof (ParseInt_range f1) as Hrange.
    destruct (strconv.ParseInt f1 10) as [len [err|]]; [exact Hbad |].
    destruct (IH (S i) (<[i:={| Name := f0; Length := len |}]> files)) as (Hlen & Hall & Herr).
    split; [now rewrite Hlen, length_insert |]. split.
    + intros Hfiles. apply Hall. apply Forall_insert; [exact Hfiles | exact Hrange].
    + destruct Herr as [Hnone | (e0 & Hin & Hsome)]; [now left |].
      right. exists e0. split; [now right | exact Hsome].
Qed.

Lemma Forall_replicate_noFile (n : nat) : Forall inInt64 (replicate n noFile).
Proof. apply Forall_replicate. unfold inInt64, noFile. cbn. lia. Qed.

(** X12.  Whatever the response, [parseSaveQuery] returns either no file
    with the error ["no results fount in given response"], or a slice with
    one slot for each of the entries of the last line, of which there is
    at least one, with no error or with the error that names one of these
    entries; so it never returns an empty list without an error.  Every
    length it returns is an [int64]. *)
Theorem parseSaveQuery_one_slot_per_entry (response : string) :
  let entries := strings.Split (List.last (strings.Split response LF) "") ", " in
  (1 <= length entries)%nat /\
  Forall inInt64 (fst (parseSaveQuery response)) /\
  (parseSaveQuery response = ([], Some (Errorf "no results fount in given response")) \/
   length (fst (parseSaveQuery response)) = length entries /\
   (snd (parseSaveQuery response) = None \/
    exists e, In e entries /\ snd (parseSaveQuery response) = Some (invalidEntry e))).
Proof.
  intros entries.
  assert (Hone : (1 <= length entries)%nat).
  { pose proof (splitGo_not_nil ", " (List.last (strings.Split response LF) "") 0) as Hne.
    unfold entries, strings.Split.
    destruct (strings.splitGo ", " 0 _); [now destruct Hne | cbn; lia]. }
  split; [exact Hone |].
  pose proof (at_least_one_line response) as [_ Htest].
  unfold parseSaveQuery. rewrite Htest.
  destruct (String.eqb (findResultLine (strings.Split response LF)) "").
  - split; [constructor | now left].
  - fold entries.
    destruct (parseEntries_slots entries 0 (replicate (length entries) {| Name := ""; Length := 0 |}))
      as (Hlen & Hall & Herr).
    split; [apply Hall, Forall_replicate_noFile |].
    right. split; [now rewrite Hlen, length_replicate | exact Herr].
Qed.

(** X13.  A response that mentions [levelname.txt] and ends with a line
    feed is rejected, whatever its listing: the last line is then empty,
    and [parseSaveQuery] returns one empty [File] and the error for the
    invalid entry [""]. *)
Theorem parseSaveQuery_trailing_line_feed (response : string) :
  hasMarker response ->
  parseSaveQuery (response +:+ LF) = ([noFile], Some (invalidEntry "")).
Proof.
  intros Hmark.
  assert (Hsplit : strings.Split (response +:+ LF) LF = strings.Split response LF ++ [""])
    by apply splitGo_append_byte.
  unfold parseSaveQuery. rewrite Hsplit.
  replace (length (strings.Split response LF ++ [""]) <? 1)%nat with false
    by (symmetry; apply Nat.ltb_ge; rewrite length_app; cbn; lia).
  assert (Hfound : findResultLine (strings.Split response LF ++ [""]) <> "").
  { apply findResultLine_some, Exists_app. now left. }
  apply String.eqb_neq in Hfound. rewrite Hfound, last_last. reflexivity.
Qed.

Lemma parseSaveQuery_trailing_line_feed_witness :
  parseSaveQuery (("Data saved. Files are now ready to be copied." +:+ LF +:+
                   "world/level.dat:2049, world/levelname.txt:12") +:+ LF)
  = ([noFile], Some (invalidEntry "")).
Proof.
  apply (parseSaveQuery_trailing_line_feed
           ("Data saved. Files are now ready to be copied." +:+ LF +:+
            "world/level.dat:2049, world/levelname.txt:12")).
  unfold hasMarker.
  replace (strings.Split ("Data saved. Files are now ready to be copied." +:+ LF +:+
                          "world/level.dat:2049, world/levelname.txt:12") LF)
    with ["Data saved. Files are now ready to be copied.";
          "world/level.dat:2049, world/levelname.txt:12"] by (vm_compute; reflexivity).
  apply Exists_cons_tl, Exists_cons_hd. vm_compute. reflexivity.
Defined.

(** The parser on a response whose last line is a listing of [entries]:
    what its second loop makes of them. *)
Lemma parseSaveQuery_entries (before entries : list string) :
  entries <> [] ->
  Forall (noByte ",") entries ->
  Forall (noByte "010") entries ->
  Forall (noByte "010") before ->
  Exists (fun line => strings.Contains line "levelname.txt" = true)
    (before ++ [strings.Join entries ", "]) ->
  parseSaveQuery (strings.Join (before ++ [strings.Join entries ", "]) LF)
  = parseEntries entries 0 (replicate (length entries) noFile).
Proof.
  intros Hne Hcomma Hlf Hbefore Hmark.
  set (listing := strings.Join entries ", ") in *.
  assert (Hlisting : noByte "010" listing) by (apply noByte_Join; [no_byte | exact Hlf]).
  assert (Hlines : strings.Split (strings.Join (before ++ [listing]) LF) LF = before ++ [listing]).
  { apply (Split_Join "010" ""); [now destruct before |].
    apply Forall_app. split; [exact Hbefore | now constructor]. }
  assert (Hentries : strings.Split listing ", " = entries)
    by (apply (Split_Join "," " "); assumption).
  unfold parseSaveQuery. rewrite Hlines.
  replace (length (before ++ [listing]) <? 1)%nat with false
    by (symmetry; apply Nat.ltb_ge; rewrite length_app; cbn; lia).
  pose proof (findResultLine_some _ Hmark) as Hfound.
  apply String.eqb_neq in Hfound. rewrite Hfound.
  rewrite last_last, Hentries. reflexivity.
Qed.

(** The second loop on entries it reads as files, followed by others:
    it fills the slice with these files and goes on with the others. *)
Lemma parseEntries_reads (pairs : list (string * File)) :
  Forall (fun p : string * File => readsAs p.1 p.2) pairs ->
  forall rest i files,
    (i + length pairs <= length files)%nat ->
    parseEntries (map fst pairs ++ rest) i files
    = parseEntries rest (i + length pairs)
        (take i files ++ map snd pairs ++ drop (i + length pairs) files).
Proof.
  induction 1 as [|[e f] pairs (text & more & Hsplit & Hint) _ IH]; intros rest i files Hlen.
  - cbn [map app length]. now rewrite Nat.add_0_r, take_drop.
  - cbn [fst snd] in Hsplit, Hint. cbn [map app parseEntries fst snd length] in *.
    rewrite Hsplit, Hint.
    rewrite IH by (rewrite length_insert; lia).
    f_equal; [lia |].
    rewrite (take_S_r (<[i:=_]> files) i {| Name := Name f; Length := Length f |})
      by (apply list_lookup_insert_eq; lia).
    rewrite take_insert_ge by lia.
    rewrite drop_insert_lt by lia.
    destruct f as [n l]. cbn [Name Length].
    rewrite <- app_assoc. cbn [app].
    replace (S i + length pairs)%nat with (i + S (length pairs))%nat by lia.
    reflexivity.
Qed.

(** The second loop stops at an entry it turns down, naming it. *)
Lemma parseEntries_stops (e : string) (rest : list string) (i : nat) (files : list File) :
  turnedDown e -> parseEntries (e :: rest) i files = (files, Some (invalidEntry e)).
Proof.
  unfold turnedDown. cbn [parseEntries].
  destruct (strings.Split e ":") as [|f0 [|f1 tl]]; try reflexivity.
  destruct (strconv.ParseInt f1 10) as [len [err|]]; [reflexivity |].
  cbn [snd]. intros H. now destruct H.
Qed.

Lemma decimal_no_colon (n : Z) : - 2 ^ 63 <= n < 2 ^ 63 -> noByte ":" (decimal n).
Proof.
  intros Hn. apply ParseInt_bytes; [reflexivity | discriminate | discriminate |].
  now rewrite ParseInt_decimal.
Qed.

(** The entry of a file is read as that file, also when further fields
    follow the length. *)
Lemma listingEntry_readsAs (f : File) (more : string) :
  wellFormed f ->
  more = "" \/ String.prefix ":" more = true ->
  readsAs (listingEntry f +:+ more) f.
Proof.
  intros (Hname & _ & _ & Hrange) Hmore.
  pose proof (decimal_no_colon _ Hrange) as Htext.
  unfold readsAs, listingEntry, entry. rewrite !append_assoc.
  rewrite (Split_cons ":" "" (Name f) _ Hname).
  destruct Hmore as [-> | Hmore].
  - rewrite append_empty_r, (Split_piece ":" "" _ Htext).
    exists (decimal (Length f)), []. split; [reflexivity | now apply ParseInt_decimal].
  - destruct more as [|c more]; [cbn in Hmore; discriminate |].
    cbn [String.prefix] in Hmore.
    destruct (ascii_dec ":" c) as [<-|]; [| discriminate].
    change (String ":" more) with (":" +:+ more).
    rewrite (Split_cons ":" "" _ more Htext).
    exists (decimal (Length f)), (strings.Split more ":").
    split; [reflexivity | now apply ParseInt_decimal].
Qed.

Lemma listingEntry_noByte (c : ascii) (f : File) :
  isDigit c = false -> c <> "+"%char -> c <> "-"%char -> c <> ":"%char ->
  wellFormed f -> noByte c (Name f) -> noByte c (listingEntry f).
Proof.
  intros Hd Hp Hm Hc (_ & _ & _ & Hrange) Hname.
  apply noByte_entry; try assumption. now rewrite ParseInt_decimal.
Qed.

(** X14.  [parseSaveQuery] looks at the first two fields of an entry
    only: a listing whose entries go on after the length with further
    [:]-separated fields gives the same files, in the same order and
    without error, as the listing without them. *)
Theorem parseSaveQuery_ignores_further_fields (before : list string)
  (items : list (File * string)) :
  items <> [] ->
  Forall (fun it : File * string => wellFormed it.1 /\ moreFields it.2) items ->
  Forall (noByte "010") before ->
  let listing :=
    strings.Join (map (fun it : File * string => listingEntry it.1 +:+ it.2) items) ", " in
  Exists (fun line => strings.Contains line "levelname.txt" = true) (before ++ [listing]) ->
  parseSaveQuery (strings.Join (before ++ [listing]) LF) = (map fst items, None).
Proof.
  intros Hne Hitems Hbefore listing Hmark.
  set (entries := map (fun it : File * string => listingEntry it.1 +:+ it.2) items) in *.
  set (pairs := map (fun it : File * string => (listingEntry it.1 +:+ it.2, it.1)) items).
  assert (Hfst : map fst pairs = entries) by (unfold pairs, entries; now rewrite map_map).
  assert (Hsnd : map snd pairs = map fst items) by (unfold pairs; now rewrite map_map).
  assert (Hlen : length pairs = length items) by (unfold pairs; apply length_map).
  unfold listing in *. rewrite parseSaveQuery_entries.
  - rewrite <- (app_nil_r entries) at 1. rewrite <- Hfst.
    rewrite parseEntries_reads.
    + cbn [parseEntries take app]. rewrite Hsnd, Hlen.
      rewrite drop_ge by (rewrite length_replicate; unfold entries; rewrite length_map; lia).
      now rewrite app_nil_r.
    + unfold pairs. apply Forall_map. eapply Forall_impl; [exact Hitems |].
      intros it (Hwf & (Hmore & _)). now apply listingEntry_readsAs.
    + rewrite length_replicate, Hlen. unfold entries. rewrite length_map. lia.
  - unfold entries. now destruct items.
  - unfold entries. apply Forall_map. eapply Forall_impl; [exact Hitems |].
    intros it (Hwf & (_ & Hcomma & _)). cbn beta. rewrite noByte_append. split; [| exact Hcomma].
    apply listingEntry_noByte; try discriminate; [reflexivity | exact Hwf | apply Hwf].
  - unfold entries. apply Forall_map. eapply Forall_impl; [exact Hitems |].
    intros it (Hwf & (_ & _ & Hlf)). cbn beta. rewrite noByte_append. split; [| exact Hlf].
    apply listingEntry_noByte; try discriminate; [reflexivity | exact Hwf | apply Hwf].
  - exact Hbefore.
  - exact Hmark.
Qed.

Lemma parseSaveQuery_ignores_further_fields_witness :
  parseSaveQuery ("levelname.txt" +:+ LF +:+ "a:10:x:y, b:20, c:30:")
  = ([{| Name := "a"; Length := 10 |}; {| Name := "b"; Length := 20 |};
      {| Name := "c"; Length := 30 |}], None).
Proof.
  apply (parseSaveQuery_ignores_further_fields ["levelname.txt"]
           [({| Name := "a"; Length := 10 |}, ":x:y"); ({| Name := "b"; Length := 20 |}, "");
            ({| Name := "c"; Length := 30 |}, ":")]).
  - discriminate.
  - repeat (constructor;
            [split;
             [repeat constructor; try no_byte; cbn; lia
             | split; [(left; reflexivity) || (right; reflexivity) | split; no_byte]] |]).
    constructor.
  - repeat constructor; no_byte.
  - apply Exists_cons_hd. reflexivity.
Defined.

(** X15.  When an entry of the listing is malformed, [parseSaveQuery]
    returns the error that names the first such entry, together with a
    slice that has a slot for every entry of the line: the files of the
    entries before the malformed one, in order, and empty [File]s from
    there on; the entries after it are not looked at. *)
Theorem parseSaveQuery_stops_at_first_malformed (before : list string)
  (good : list File) (bad : string) (others : list string) :
  Forall wellFormed good ->
  malformed bad ->
  noByte "," bad -> noByte "010" bad ->
  Forall (noByte ",") others -> Forall (noByte "010") others ->
  Forall (noByte "010") before ->
  let listing := strings.Join (map listingEntry good ++ bad :: others) ", " in
  Exists (fun line => strings.Contains line "levelname.txt" = true) (before ++ [listing]) ->
  parseSaveQuery (strings.Join (before ++ [listing]) LF)
  = (good ++ replicate (S (length others)) noFile, Some (invalidEntry bad)).
Proof.
  intros Hgood Hbad Hcomma Hlf Hcommas Hlfs Hbefore listing Hmark.
  set (pairs := map (fun f : File => (listingEntry f, f)) good).
  assert (Hfst : map fst pairs = map listingEntry good)
    by (unfold pairs; now rewrite map_map).
  assert (Hsnd : map snd pairs = good) by (unfold pairs; rewrite map_map; apply map_id).
  assert (Hlen : length pairs = length good) by (unfold pairs; apply length_map).
  assert (Hreads : Forall (fun p : string * File => readsAs p.1 p.2) pairs).
  { unfold pairs. apply Forall_map. eapply Forall_impl; [exact Hgood |].
    intros f Hwf. cbn [fst snd]. rewrite <- (append_empty_r (listingEntry f)).
    apply listingEntry_readsAs; [exact Hwf | now left]. }
  unfold listing in *. rewrite parseSaveQuery_entries.
  - rewrite <- Hfst, (parseEntries_reads pairs Hreads)
      by (rewrite length_replicate, !length_app, !length_map; cbn [length]; lia).
    rewrite (parseEntries_stops bad others _ _ (malformed_turnedDown bad Hbad)).
    rewrite take_0, Hsnd, drop_replicate, !length_app, !length_map, !Hlen.
    cbn [length app].
    replace (length good + S (length others) - (0 + length good))%nat
      with (S (length others)) by lia.
    reflexivity.
  - now destruct (map listingEntry good).
  - apply Forall_app. split; [| now constructor].
    apply Forall_map. eapply Forall_impl; [exact Hgood |]. intros f Hwf.
    apply listingEntry_noByte; try discriminate; [reflexivity | exact Hwf | apply Hwf].
  - apply Forall_app. split; [| now constructor].
    apply Forall_map. eapply Forall_impl; [exact Hgood |]. intros f Hwf.
    apply listingEntry_noByte; try discriminate; [reflexivity | exact Hwf | apply Hwf].
  - exact Hbefore.
  - exact Hmark.
Qed.

Lemma parseSaveQuery_stops_at_first_malformed_witness :
  parseSaveQuery ("levelname.txt" +:+ LF +:+ "a:10, b, c:30, d")
  = ([{| Name := "a"; Length := 10 |}; noFile; noFile; noFile], Some (invalidEntry "b")).
Proof.
  apply (parseSaveQuery_stops_at_first_malformed ["levelname.txt"]
           [{| Name := "a"; Length := 10 |}] "b" ["c:30"; "d"]).
  - repeat constructor; try no_byte; cbn; lia.
  - left. no_byte.
  - no_byte.
  - no_byte.
  - repeat constructor; no_byte.
  - repeat constructor; no_byte.
  - repeat constructor; no_byte.
  - apply Exists_cons_hd. reflexivity.
Defined.

(** ** The resolver that asks the disk *)

Lemma plain_worlds : plain "worlds".
Proof. repeat split; try discriminate. Qed.

(** The path the resolver probes for a reported name of ordinary elements. *)
Lemma Join_worlds (elems : list string) :
  elems <> [] -> Forall plain elems ->
  filepath.Join ["worlds"; strings.Join elems "/"] = strings.Join ("worlds" :: elems) "/".
Proof.
  intros Hne Hall. destruct elems as [|e rest]; [now destruct Hne |].
  cbn [filepath.Join String.eqb Ascii.eqb Bool.eqb andb].
  change (strings.Join ["worlds"; strings.Join (e :: rest) "/"] "/")
    with (strings.Join ("worlds" :: e :: rest) "/").
  apply Clean_plain; [discriminate |]. constructor; [exact plain_worlds | exact Hall].
Qed.

(** X16.  The resolver that asks the disk probes the reported name under
    [worlds]: for a reported name that is a relative path of ordinary
    elements, [dirs] then [base], it leaves the name as it is when
    [os.Stat] finds [worlds/dirs/base], and puts a [db] directory between
    the directory and the base name when [os.Stat] returns an error,
    whatever the base name. *)
Theorem realFilePath_stat_probes (stat : string -> option error)
  (dirs : list string) (base : string) (len : Z) :
  Forall plain dirs -> plain base ->
  let name := strings.Join (dirs ++ [base]) "/" in
  let probed := strings.Join ("worlds" :: dirs ++ [base]) "/" in
  (stat probed = None ->
     realFilePath_stat stat {| Name := name; Length := len |} = name) /\
  (stat probed <> None ->
     realFilePath_stat stat {| Name := name; Length := len |}
     = strings.Join (dirs ++ ["db"; base]) "/").
Proof.
  intros Hd Hb name probed.
  assert (Hall : Forall plain (dirs ++ [base]))
    by (apply Forall_app; split; [exact Hd | now constructor]).
  unfold realFilePath_stat, name. cbn [Name].
  rewrite Base_path, Dir_path by assumption.
  rewrite (Join_worlds (dirs ++ [base])) by (try exact Hall; now destruct dirs).
  fold probed. split; intros Hstat.
  - rewrite Hstat. now apply Join_dir.
  - destruct (stat probed) as [e|]; [| now destruct Hstat].
    rewrite (Join_dir dirs "db" Hd plain_db).
    assert (Hdb : Forall plain (dirs ++ ["db"]))
      by (apply Forall_app; split; [exact Hd | repeat constructor; apply plain_db]).
    pose proof (Join_dir (dirs ++ ["db"]) base Hdb Hb) as H.
    replace (match dirs ++ ["db"] with [] => "." | _ => strings.Join (dirs ++ ["db"]) "/" end)
      with (strings.Join (dirs ++ ["db"]) "/") in H by (now destruct dirs).
    rewrite H, <- app_assoc. reflexivity.
Qed.

Lemma realFilePath_stat_probes_witness :
  realFilePath_stat
    (fun path => if String.eqb path "worlds/world/db/CURRENT" then None
                 else Some (Failure "no such file or directory"))
    {| Name := "world/db/CURRENT"; Length := 16 |} = "world/db/CURRENT" /\
  realFilePath_stat
    (fun path => if String.eqb path "worlds/world/db/CURRENT" then None
                 else Some (Failure "no such file or directory"))
    {| Name := "world/CURRENT"; Length := 16 |} = "world/db/CURRENT".
Proof.
  split.
  - apply (realFilePath_stat_probes _ ["world"; "db"] "CURRENT" 16).
    + repeat constructor; try discriminate.
    + repeat split; discriminate.
    + reflexivity.
  - apply (realFilePath_stat_probes _ ["world"] "CURRENT" 16).
    + repeat constructor; try discriminate.
    + repeat split; discriminate.
    + discriminate.
Defined.

(** ** The options *)

(** X17.  [defaultOptions] accepts every options value with a sink and
    changes only timeouts that are zero, which become three seconds: the
    sink is kept, a timeout that is not zero (a negative one too) is kept,
    no timeout of the result is zero, and the result is left as it is by
    [defaultOptions] itself. *)
Theorem defaultOptions_fills_zero_timeouts (opts : BackupOptions)
  (sink : list File -> option error) :
  Backupper opts = Some sink ->
  exists b,
    defaultOptions opts = (b, None) /\
    Backupper b = Some sink /\
    CommandTimeout b = (if CommandTimeout opts =? 0 then 3 * Second else CommandTimeout opts) /\
    SavePause b = (if SavePause opts =? 0 then 3 * Second else SavePause opts) /\
    CommandTimeout b <> 0 /\ SavePause b <> 0 /\
    defaultOptions b = (b, None).
Proof.
  intros Hs.
  set (ct := if CommandTimeout opts =? 0 then 3 * Second else CommandTimeout opts).
  set (sp := if SavePause opts =? 0 then 3 * Second else SavePause opts).
  assert (Hct : ct <> 0)
    by (unfold ct; destruct (Z.eqb_spec (CommandTimeout opts) 0); [discriminate | assumption]).
  assert (Hsp : sp <> 0)
    by (unfold sp; destruct (Z.eqb_spec (SavePause opts) 0); [discriminate | assumption]).
  exists {| Backupper := Some sink; CommandTimeout := ct; SavePause := sp |}.
  split.
  { unfold defaultOptions, ct, sp. rewrite Hs.
    destruct opts as [b c p]. cbn [Backupper CommandTimeout SavePause] in *. subst b.
    destruct (c =? 0); cbn [Backupper CommandTimeout SavePause];
      destruct (p =? 0); reflexivity. }
  split; [reflexivity |]. split; [reflexivity |]. split; [reflexivity |].
  split; [exact Hct |]. split; [exact Hsp |].
  apply Z.eqb_neq in Hct, Hsp.
  unfold defaultOptions. cbn [Backupper CommandTimeout SavePause].
  rewrite Hct. cbn [SavePause]. rewrite Hsp. reflexivity.
Qed.

Lemma defaultOptions_fills_zero_timeouts_witness :
  exists b,
    defaultOptions {| Backupper := Some okSink; CommandTimeout := 0; SavePause := -1 |}
    = (b, None) /\
    CommandTimeout b = 3 * Second /\ SavePause b = -1 /\
    defaultOptions b = (b, None).
Proof.
  destruct (defaultOptions_fills_zero_timeouts
              {| Backupper := Some okSink; CommandTimeout := 0; SavePause := -1 |}
              okSink eq_refl)
    as (b & Hb & _ & Hc & Hp & _ & _ & Hidem).
  exists b. split; [exact Hb |]. split; [exact Hc |]. split; [exact Hp | exact Hidem].
Defined.

(** ** Subscribers and broadcasts *)

Lemma forallb_false_inv {A : Type} (f : A -> bool) (l : list A) :
  forallb f l = false -> exists x, In x l /\ f x = false.
Proof.
  induction l as [|a l IH]; cbn [forallb]; [discriminate |].
  destruct (f a) eqn:Ha.
  - intros H. destruct (IH H) as (x & Hin & Hx). exists x. split; [now right | exact Hx].
  - intros _. exists a. split; [now left | exact Ha].
Qed.

Lemma NoDup_deliveries (message : string) (l : list nat) :
  NoDup l -> NoDup (map (fun channel => (channel, message)) l).
Proof.
  induction 1 as [|x l Hx _ IH]; cbn [map]; constructor; [| exact IH].
  intros Hin. apply Hx. apply list_elem_of_In.
  apply list_elem_of_In, in_map_iff in Hin as (y & [= ->] & Hy). exact Hy.
Qed.

Lemma In_deliveries (message m : string) (ch : nat) (l : list nat) :
  In (ch, m) (map (fun channel => (channel, message)) l) <-> In ch l /\ m = message.
Proof.
  rewrite in_map_iff. split.
  - intros (y & [= -> ->] & Hy). now split.
  - intros [Hin ->]. now exists ch.
Qed.

(** What a broadcast that returns has delivered. *)
Lemma BroadcastMessage_delivered (message : string) (receiving : nat -> bool) (c : console) :
  match BroadcastMessage message receiving c with
  | Some deliveries =>
      NoDup deliveries /\
      (forall ch m, In (ch, m) deliveries <-> ch ∈ subs c /\ m = message)
  | None => True
  end.
Proof.
  unfold BroadcastMessage.
  destruct (forallb receiving (elements (subs c))); [| exact I].
  split; [apply NoDup_deliveries, NoDup_elements |].
  intros ch m. rewrite In_deliveries, <- list_elem_of_In, elem_of_elements. reflexivity.
Qed.

(** X18.  [BroadcastMessage] returns exactly when every subscriber
    receives, and has then delivered the message once to every subscribed
    channel and nothing to any other channel; when some subscriber does
    not receive it waits for ever, nothing being dropped. *)
Theorem BroadcastMessage_delivers_to_all (message : string) (receiving : nat -> bool)
  (c : console) :
  match BroadcastMessage message receiving c with
  | Some deliveries =>
      (forall ch, ch ∈ subs c -> receiving ch = true) /\
      NoDup deliveries /\
      length deliveries = size (subs c) /\
      (forall ch m, In (ch, m) deliveries <-> ch ∈ subs c /\ m = message)
  | None => exists ch, ch ∈ subs c /\ receiving ch = false
  end.
Proof.
  unfold BroadcastMessage.
  destruct (forallb receiving (elements (subs c))) eqn:Hall.
  - split.
    { intros ch Hch. rewrite forallb_forall in Hall. apply Hall.
      now apply list_elem_of_In, elem_of_elements. }
    split; [apply NoDup_deliveries, NoDup_elements |].
    split; [now rewrite length_map |].
    intros ch m. rewrite In_deliveries, <- list_elem_of_In, elem_of_elements. reflexivity.
  - apply forallb_false_inv in Hall as (ch & Hin & Hch).
    exists ch. split; [now apply elem_of_elements, list_elem_of_In | exact Hch].
Qed.

Lemma console_eq (c c' : console) :
  input c = input c' -> subs c = subs c' -> c = c'.
Proof. destruct c, c'. cbn. now intros -> ->. Qed.

(** X19.  Subscribing and unsubscribing compose as on a set: a channel
    subscribed twice is subscribed once and gets each message once, a
    channel gets the broadcasts after [Subscribe] and none after
    [Unsubscribe], the other subscribers are not touched, and
    unsubscribing a channel that was subscribed on a console where it was
    not leaves that console as it was.  Neither writes to the console's
    input. *)
Theorem Subscribe_Unsubscribe_compose (messages : nat) (c : console) :
  Console.Subscribe messages (Console.Subscribe messages c) = Console.Subscribe messages c /\
  Console.Unsubscribe messages (Console.Unsubscribe messages c)
  = Console.Unsubscribe messages c /\
  (messages ∉ subs c -> Console.Unsubscribe messages (Console.Subscribe messages c) = c) /\
  (messages ∈ subs c -> Console.Subscribe messages (Console.Unsubscribe messages c) = c) /\
  (forall message receiving deliveries,
     BroadcastMessage message receiving (Console.Subscribe messages c) = Some deliveries ->
     In (messages, message) deliveries /\ NoDup deliveries) /\
  (forall message receiving deliveries,
     BroadcastMessage message receiving (Console.Unsubscribe messages c) = Some deliveries ->
     forall ch m, In (ch, m) deliveries <-> ch ∈ subs c /\ ch <> messages /\ m = message).
Proof.
  split; [apply console_eq; [reflexivity |]; cbn [Console.Subscribe subs];
          apply set_eq; intros x; rewrite !elem_of_union, elem_of_singleton; tauto |].
  split; [apply console_eq; [reflexivity |]; cbn [Console.Unsubscribe subs];
          apply set_eq; intros x; rewrite !elem_of_difference, elem_of_singleton; tauto |].
  split.
  { intros Hnot. apply console_eq; [reflexivity |].
    cbn [Console.Unsubscribe Console.Subscribe subs].
    apply set_eq; intros x.
    rewrite elem_of_difference, elem_of_union, elem_of_singleton.
    split; [tauto |]. intros Hx. split; [now right | congruence]. }
  split.
  { intros Hin. apply console_eq; [reflexivity |].
    cbn [Console.Unsubscribe Console.Subscribe subs].
    apply set_eq; intros x.
    rewrite elem_of_union, elem_of_difference, !elem_of_singleton.
    split; [intros [-> | [Hx _]]; assumption |].
    intros Hx. destruct (Nat.eq_dec x messages) as [-> | Hne]; [now left | now right]. }
  split.
  - intros message receiving deliveries Hb.
    pose proof (BroadcastMessage_delivered message receiving (Console.Subscribe messages c))
      as Hd.
    rewrite Hb in Hd. destruct Hd as (Hnodup & Hin).
    split; [| exact Hnodup].
    apply Hin. split; [| reflexivity].
    cbn [Console.Subscribe subs]. apply elem_of_union. left. now apply elem_of_singleton.
  - intros message receiving deliveries Hb ch m.
    pose proof (BroadcastMessage_delivered message receiving (Console.Unsubscribe messages c))
      as Hd.
    rewrite Hb in Hd. destruct Hd as (_ & Hin).
    rewrite Hin. cbn [Console.Unsubscribe subs].
    rewrite elem_of_difference, elem_of_singleton. tauto.
Qed.

(** ** The terminal *)

Lemma sendScanned_run (scanned : list string) :
  forall s,
    sendScanned scanned s
    = Some (tt, {| theConsole := {| input := input (theConsole s) ++ scanned;
                                    subs := subs (theConsole s) |};
                   backupMutex := backupMutex s; chans := chans s; journal := journal s |}).
Proof.
  induction scanned as [|line rest IH]; intros s; cbn [sendScanned].
  - unfold ret. rewrite app_nil_r. now destruct s as [[i u] m c j].
  - unfold bind, SendRawCommand, onConsole. rewrite IH.
    cbn [theConsole Console.SendRawCommand input subs backupMutex chans journal].
    now rewrite <- app_assoc.
Qed.

(** X20.  [Attach] returns what its scanner ends with, having sent every
    line scanned to the console, in order and after what was sent before.
    It does not touch [backupMutex], so it sends also while a backup holds
    the mutex; it makes one channel and has unsubscribed it when it
    returns, so that the subscribers are those from before. *)
Theorem Attach_forwards_lines (scanned : list string) (scanErr : option error) (s : Server) :
  exists after,
    Attach scanned scanErr s = Some (scanErr, after) /\
    input (theConsole after) = input (theConsole s) ++ scanned /\
    journal after = journal s /\
    backupMutex after = backupMutex s /\
    chans after = S (chans s) /\
    (chans s ∉ subs (theConsole after)) /\
    (freshChannels s -> subs (theConsole after) = subs (theConsole s)).
Proof.
  unfold Attach, bind, makeChan, onConsole, ret. rewrite sendScanned_run.
  eexists. split; [reflexivity |].
  cbn [theConsole Console.Subscribe Console.Unsubscribe input subs backupMutex chans journal].
  split; [reflexivity |]. split; [reflexivity |]. split; [reflexivity |].
  split; [reflexivity |].
  split; [rewrite elem_of_difference, elem_of_singleton; tauto |].
  intros Hfresh. apply set_eq; intros x.
  rewrite elem_of_difference, elem_of_union, !elem_of_singleton.
  split; [tauto |]. intros Hx. split; [now right |].
  intros ->. specialize (Hfresh _ Hx). lia.
Qed.

(** ** The resume *)

(** The commands of a path after its queries. *)
Lemma commands_afterQueries_cases (w ew : list Duration) (p : Path) :
  commands (afterQueries w ew p)
  = match p with
    | PauseCancelled _ => []
    | ResumeFailed _ _ _ => ["save resume"; "save resume"]
    | _ => ["save resume"]
    end.
Proof. destruct p; reflexivity. Qed.

(** X21.  Unless the caller's context is done during the pause, a call
    of [Backup] that has sent the hold does not leave the server on hold
    without asking it to resume: the last command it sends is
    [save resume], it sends it once or twice, and exactly once when it
    returns [nil]. *)
Theorem Backup_resumes_unless_cancelled {R : Regexp} (mHold mQuery mResume : string -> bool)
  (ctx : Context) (opts : BackupOptions) (env : Env)
  (sink : list File -> option error) (s : Server) :
  regexp_Compile holdPattern = Some mHold ->
  regexp_Compile queryPattern = Some mQuery ->
  regexp_Compile resumePattern = Some mResume ->
  Backupper opts = Some sink ->
  backupMutex s = false ->
  onPause env = None ->
  exists result after cmds,
    Backup ctx opts env s = Some (result, after) /\
    input (theConsole after) = input (theConsole s) ++ "save hold" :: cmds /\
    List.last cmds "" = "save resume" /\
    (1 <= count_occ string_dec cmds "save resume" <= 2)%nat /\
    (result = None -> count_occ string_dec cmds "save resume" = 1%nat).
Proof.
  intros Hh Hq Hr Hs Hfree Hpause.
  destruct (Backup_path mHold mQuery mResume ctx opts env sink s Hh Hq Hr Hs Hfree)
    as (p & Hp & Hrun).
  destruct (Hrun (5 * Minute)) as (after & Hb & _ & _ & Hin).
  exists (pathResult p), after. eexists.
  split; [exact Hb |]. split; [exact Hin |].
  destruct (pathOf_inv _ _ _ _ _ _ _ _ Hp) as [Hfollows _].
  rewrite count_occ_app, count_occ_repeat_neq by discriminate.
  rewrite commands_afterQueries_cases.
  destruct p as [e|e|e|k e|k fs e|k fs e|k fs];
    try (destruct Hfollows as [_ Hcancel]; congruence);
    (split;
     [apply (last_last _ "save resume")
      || (change ["save resume"; "save resume"] with (["save resume"] ++ ["save resume"]);
          rewrite app_assoc; apply last_last) |]);
    cbn; (split; [lia | intros Hnil; (discriminate Hnil || reflexivity)]).
Qed.

Lemma Backup_resumes_unless_cancelled_witness :
  exists result after cmds,
    Backup Background (withSink okSink 0) neverListing idle = Some (result, after) /\
    input (theConsole after) = "save hold" :: cmds /\
    List.last cmds "" = "save resume" /\
    (1 <= count_occ string_dec cmds "save resume" <= 2)%nat /\
    (result = None -> count_occ string_dec cmds "save resume" = 1%nat).
Proof.
  apply (Backup_resumes_unless_cancelled (R := packageRegexp)
           (regexp.lineStartsWith "Saving...")
           (regexp.thenLater "Data saved. Files are now ready to be copied" "levelname.txt")
           (regexp.lineStartsWith "Changes to the world are resumed")
           Background (withSink okSink 0) neverListing okSink idle
           eq_refl eq_refl eq_refl eq_refl eq_refl eq_refl).
Defined.

(** ** Copying the files *)

(** What [io.CopyN] returns: without error, the [n] bytes asked for, or
    nothing when [n] is negative; with an error, fewer than [n]. *)
Lemma CopyN_result (content : string) (fault : option (Z * error)) (n m : Z)
  (err : option error) :
  io.CopyN content fault n = (m, err) ->
  match err with
  | None => (m = n /\ 0 <= n <= Z.of_nat (String.length content)) \/ (n < 0 /\ m = 0)
  | Some _ => 0 <= m <= Z.of_nat (String.length content) /\ m < n
  end.
Proof.
  unfold io.CopyN. cbv zeta.
  set (len := Z.of_nat (String.length content)).
  assert (Hlen : 0 <= len) by (unfold len; lia).
  destruct fault as [[w e]|].
  - destruct (Z.leb_spec 0 w); cbn [andb];
      [destruct (Z.leb_spec w (Z.min (Z.max n 0) len)); cbn [andb];
       [destruct (Z.ltb_spec w (Z.max n 0)) |] |];
      cbn [fst snd andb];
      match goal with
      | |- context [?a =? n] => destruct (Z.eqb_spec a n)
      end;
      try match goal with
          | |- context [?a <? n] => destruct (Z.ltb_spec a n)
          end;
      cbn [andb]; intros [= <- <-]; lia.
  - cbn [fst snd].
    destruct (Z.eqb_spec (Z.min (Z.max n 0) len) n);
      [| destruct (Z.ltb_spec (Z.min (Z.max n 0) len) n)];
      cbn [andb]; intros [= <- <-]; lia.
Qed.

(** [io.CopyN] when no read or write fails. *)
Lemma CopyN_no_fault (content : string) (n : Z) :
  io.CopyN content None n
  = if n <? 0 then (0, None)
    else if n <=? Z.of_nat (String.length content) then (n, None)
         else (Z.of_nat (String.length content), Some io.EOF).
Proof.
  unfold io.CopyN. cbv zeta. cbn [fst snd].
  set (len := Z.of_nat (String.length content)).
  assert (Hlen : 0 <= len) by (unfold len; lia).
  destruct (Z.ltb_spec n 0); [| destruct (Z.leb_spec n len)];
    destruct (Z.eqb_spec (Z.min (Z.max n 0) len) n); try lia;
    try (destruct (Z.ltb_spec (Z.min (Z.max n 0) len) n); try lia);
    cbn [andb]; f_equal; lia.
Qed.

Lemma substring_all (s : string) : substring 0 (String.length s) s = s.
Proof. induction s as [|c s IH]; [reflexivity | cbn; now rewrite IH]. Qed.

(** A copy that returns [nil] has made the file. *)
Lemma copyFile_made (fs : FileSystem) (file : File) (dest : string) :
  fst (copyFile fs file dest) = None -> exists made, snd (copyFile fs file dest) = Some made.
Proof.
  unfold copyFile. cbv zeta.
  destruct (os_Open fs _) as [content|e]; [| discriminate].
  destruct (os_MkdirAll fs _); [discriminate |].
  destruct (os_Create fs _); [discriminate |].
  destruct (io.CopyN content (copyFault fs) (Length file)) as [n [e|]]; [discriminate |].
  destruct (negb (n =? Length file)); [discriminate |]. intros _. now eexists.
Qed.

(** X22.  When [copyFile] returns [nil], all its calls into the operating
    system succeeded, the length listed for the file is not negative and
    not more than the bytes the source had, and the file made at the
    destination, [dest] joined with the resolved path, holds exactly the
    first [Length] bytes of the source: whatever fails, a shorter or longer
    copy is never reported as a success. *)
Theorem copyFile_nil_copies_length (fs : FileSystem) (file : File) (dest : string)
  (made : option (string * string)) :
  copyFile fs file dest = (None, made) ->
  exists content,
    os_Open fs (filepath.Join ["worlds"; realFilePath_stat (os_Stat fs) file]) = inl content /\
    os_MkdirAll fs (filepath.Dir (filepath.Join [dest; realFilePath_stat (os_Stat fs) file]))
    = None /\
    os_Create fs (filepath.Join [dest; realFilePath_stat (os_Stat fs) file]) = None /\
    0 <= Length file <= Z.of_nat (String.length content) /\
    made = Some (filepath.Join [dest; realFilePath_stat (os_Stat fs) file],
                 substring 0 (Z.to_nat (Length file)) content).
Proof.
  unfold copyFile. cbv zeta.
  destruct (os_Open fs _) as [content|e]; [| discriminate].
  destruct (os_MkdirAll fs _); [discriminate |].
  destruct (os_Create fs _); [discriminate |].
  destruct (io.CopyN content (copyFault fs) (Length file)) as [n [e|]] eqn:Hcopy;
    [discriminate |].
  destruct (Z.eqb_spec n (Length file)) as [-> | Hne]; cbn [negb]; [| discriminate].
  intros [= <-]. exists content.
  split; [reflexivity |]. split; [reflexivity |]. split; [reflexivity |].
  split; [| reflexivity].
  apply CopyN_result in Hcopy. cbn iota in Hcopy. lia.
Qed.

Lemma copyFile_nil_copies_length_witness :
  exists content,
    inl "hello world" = @inl string error content /\
    0 <= 5 <= Z.of_nat (String.length content) /\
    Some ("/tmp/backup1/world/db/CURRENT", "hello")
    = Some (filepath.Join ["/tmp/backup1";
                           realFilePath_stat (fun _ => Some (Failure "no such file"))
                             {| Name := "world/CURRENT"; Length := 5 |}],
            substring 0 (Z.to_nat 5) content).
Proof.
  destruct (copyFile_nil_copies_length
              {| os_Stat := fun _ => Some (Failure "no such file");
                 os_Open := fun _ => inl "hello world";
                 os_MkdirAll := fun _ => None;
                 os_Create := fun _ => None;
                 copyFault := None |}
              {| Name := "world/CURRENT"; Length := 5 |} "/tmp/backup1"
              (Some ("/tmp/backup1/world/db/CURRENT", "hello")))
    as (content & Hopen & _ & _ & Hlen & Hmade).
  - vm_compute. reflexivity.
  - exists content. split; [exact Hopen |]. split; [exact Hlen | exact Hmade].
Defined.

(** X23.  When its calls into the operating system succeed and nothing
    fails during the copy, [copyFile] depends on the listed length as
    follows: a negative length gives the error of the check after the
    copy, ["bytes copied for ... did match 0 != ..."], and leaves an empty
    file; a length up to the size of the source gives [nil] and a file
    with the first [Length] bytes; a length beyond the size of the source
    gives [io.EOF] and leaves a file with all the bytes of the source. *)
Theorem copyFile_by_length (fs : FileSystem) (file : File) (dest content : string) :
  let destPath := filepath.Join [dest; realFilePath_stat (os_Stat fs) file] in
  os_Open fs (filepath.Join ["worlds"; realFilePath_stat (os_Stat fs) file]) = inl content ->
  os_MkdirAll fs (filepath.Dir destPath) = None ->
  os_Create fs destPath = None ->
  copyFault fs = None ->
  copyFile fs file dest
  = if Length file <? 0 then (Some (bytesCopied file 0), Some (destPath, ""))
    else if Length file <=? Z.of_nat (String.length content)
         then (None, Some (destPath, substring 0 (Z.to_nat (Length file)) content))
         else (Some io.EOF, Some (destPath, content)).
Proof.
  intros destPath Hopen Hmkdir Hcreate Hfault. unfold copyFile. cbv zeta.
  fold destPath. rewrite Hopen, Hmkdir, Hcreate, Hfault, CopyN_no_fault.
  destruct (Z.ltb_spec (Length file) 0) as [Hneg | Hpos].
  - destruct (Z.eqb_spec 0 (Length file)); [lia |]. cbn [negb].
    now destruct content.
  - destruct (Z.leb_spec (Length file) (Z.of_nat (String.length content))).
    + now rewrite Z.eqb_refl.
    + now rewrite Nat2Z.id, substring_all.
Qed.

Lemma copyFile_by_length_witness :
  copyFile {| os_Stat := fun _ => None; os_Open := fun _ => inl "hello";
              os_MkdirAll := fun _ => None; os_Create := fun _ => None;
              copyFault := None |}
    {| Name := "world/level.dat"; Length := 7 |} "/tmp/backup1"
  = (Some io.EOF, Some ("/tmp/backup1/world/level.dat", "hello")) /\
  copyFile {| os_Stat := fun _ => None; os_Open := fun _ => inl "hello";
              os_MkdirAll := fun _ => None; os_Create := fun _ => None;
              copyFault := None |}
    {| Name := "world/level.dat"; Length := -1 |} "/tmp/backup1"
  = (Some (Errorf "bytes copied for world/level.dat did match 0 != -1"),
     Some ("/tmp/backup1/world/level.dat", "")).
Proof.
  set (fs := {| os_Stat := fun _ => None; os_Open := fun _ => inl "hello";
                os_MkdirAll := fun _ => None; os_Create := fun _ => None;
                copyFault := None |}).
  split.
  - rewrite (copyFile_by_length fs {| Name := "world/level.dat"; Length := 7 |}
               "/tmp/backup1" "hello" eq_refl eq_refl eq_refl eq_refl).
    vm_compute. reflexivity.
  - rewrite (copyFile_by_length fs {| Name := "world/level.dat"; Length := -1 |}
               "/tmp/backup1" "hello" eq_refl eq_refl eq_refl eq_refl).
    vm_compute. reflexivity.
Defined.

(** The loop of [copyBackup] stops at the first copy that fails. *)
Lemma copyEach_first_failure (fs : nat -> FileSystem) (tmpdir : string) (files : list File) :
  forall k,
    match fst (copyEach fs k files tmpdir) with
    | None =>
        (forall i f, files !! i = Some f -> fst (copyFile (fs (k + i)%nat) f tmpdir) = None) /\
        length (snd (copyEach fs k files tmpdir)) = length files
    | Some e =>
        exists i f,
          files !! i = Some f /\
          fst (copyFile (fs (k + i)%nat) f tmpdir) = Some e /\
          (forall j g, (j < i)%nat -> files !! j = Some g ->
                       fst (copyFile (fs (k + j)%nat) g tmpdir) = None) /\
          (i <= length (snd (copyEach fs k files tmpdir)) <= S i)%nat
    end.
Proof.
  induction files as [|f rest IH]; intros k; cbn [copyEach].
  - cbn [fst snd]. split; [intros i f Hf; discriminate Hf | reflexivity].
  - destruct (copyFile (fs k) f tmpdir) as [[e|] made] eqn:Hcopy; cbn [fst snd].
    + exists 0%nat, f. rewrite Nat.add_0_r, Hcopy.
      split; [reflexivity |]. split; [reflexivity |].
      split; [intros j g Hj; lia | destruct made; cbn; lia].
    + destruct (copyFile_made (fs k) f tmpdir) as [m Hm]; [now rewrite Hcopy |].
      rewrite Hcopy in Hm. cbn [snd] in Hm. subst made.
      specialize (IH (S k)).
      destruct (copyEach fs (S k) rest tmpdir) as [[e|] mades]; cbn [fst snd option_list app] in *.
      * destruct IH as (i & g & Hg & Hfail & Hbefore & Hlen).
        exists (S i), g. replace (k + S i)%nat with (S k + i)%nat by lia.
        split; [exact Hg |]. split; [exact Hfail |].
        split; [| change (option_list (Some m)) with [m]; cbn [app length]; lia].
        intros [|j] g' Hj Hg'.
        -- rewrite Nat.add_0_r. cbn in Hg'. injection Hg' as <-. now rewrite Hcopy.
        -- replace (k + S j)%nat with (S k + j)%nat by lia. apply (Hbefore j g'); [lia | exact Hg'].
      * destruct IH as (Hall & Hlen).
        split; [| change (option_list (Some m)) with [m]; cbn [app length]; now rewrite Hlen].
        intros [|i] g Hg.
        -- rewrite Nat.add_0_r. cbn in Hg. injection Hg as <-. now rewrite Hcopy.
        -- replace (k + S i)%nat with (S k + i)%nat by lia. now apply Hall.
Qed.

(** X24.  [copyBackup] returns the error of [os.MkdirTemp] without
    copying anything; otherwise it copies the files in order into the
    temporary directory and stops at the first copy that fails, returning
    its error: the files before it have been made, the files after it are
    not touched.  It returns [nil] only when every copy returned [nil],
    and has then made one file for each file listed. *)
Theorem copyBackup_stops_at_first_failure (mkdirTemp : string + error)
  (fs : nat -> FileSystem) (files : list File) :
  match mkdirTemp with
  | inr err => copyBackup mkdirTemp fs files = (Some err, [])
  | inl tmpdir =>
      match fst (copyBackup mkdirTemp fs files) with
      | None =>
          (forall i f, files !! i = Some f -> fst (copyFile (fs i) f tmpdir) = None) /\
          length (snd (copyBackup mkdirTemp fs files)) = length files
      | Some e =>
          exists i f,
            files !! i = Some f /\
            fst (copyFile (fs i) f tmpdir) = Some e /\
            (forall j g, (j < i)%nat -> files !! j = Some g ->
                         fst (copyFile (fs j) g tmpdir) = None) /\
            (i <= length (snd (copyBackup mkdirTemp fs files)) <= S i)%nat
      end
  end.
Proof.
  destruct mkdirTemp as [tmpdir|err]; [| reflexivity].
  exact (copyEach_first_failure fs tmpdir files 0).
Qed.

(** * Two calls on one server *)

(** The steps of the code on the shared server: [Lock] does not return
    while the mutex is held; every other step returns and leaves the
    server as its event says. *)
Lemma perform_spec (e : event) (s : Server) :
  perform e s
  = match e with
    | Locked => if backupMutex s then None else Some (tt, apply_event e s)
    | _ => Some (tt, apply_event e s)
    end.
Proof. destruct e; reflexivity. Qed.

(** A call that moves: it waits at [Lock] while the mutex is held, and
    does its next event otherwise. *)
Lemma advance_perform (t : caller) (p : Pool) :
  advance t p
  = match todo t p with
    | [] => p
    | e :: rest =>
        match e with
        | Locked => if backupMutex (shared p) then p else move t e rest p
        | _ => move t e rest p
        end
    end.
Proof.
  unfold advance. destruct (todo t p) as [|e rest]; [reflexivity |].
  rewrite perform_spec.
  destruct e; try reflexivity. now destruct (backupMutex (shared p)).
Qed.

(** The steps between [Lock] and [Unlock] all return. *)
Lemma performAll_critical (mid : list event) :
  Forall (fun e => e <> Locked /\ e <> Unlocked) mid ->
  forall s, performAll mid s = Some (replay mid s).
Proof.
  induction 1 as [|e mid [He _] _ IH]; intros s; [reflexivity |].
  cbn [performAll]. rewrite perform_spec, replay_cons.
  destruct e; try apply IH. now destruct He.
Qed.

(** A caller that is alone gets through the steps of a call exactly when
    it finds the mutex free. *)
Lemma performAll_bracketed (mid : list event) (s : Server) :
  Forall (fun e => e <> Locked /\ e <> Unlocked) mid ->
  performAll (Locked :: mid ++ [Unlocked]) s
  = if backupMutex s then None else Some (replay (Locked :: mid ++ [Unlocked]) s).
Proof.
  intros Hmid. cbn [performAll]. rewrite perform_spec.
  destruct (backupMutex s); [reflexivity |].
  rewrite replay_cons, replay_app.
  generalize (apply_event Locked s). intros s1.
  assert (Happ : forall j1 j2 s0, performAll (j1 ++ j2) s0
                                  = match performAll j1 s0 with
                                    | Some s' => performAll j2 s'
                                    | None => None
                                    end).
  { induction j1 as [|e j1 IH]; intros j2 s0; [reflexivity |].
    cbn [app performAll]. destruct (perform e s0) as [[u s']|]; [apply IH | reflexivity]. }
  rewrite Happ, (performAll_critical mid Hmid). reflexivity.
Qed.

Lemma bracket_cases (mid done : list event) (e : event) (rest : list event) :
  Locked :: mid ++ [Unlocked] = done ++ e :: rest ->
  (done = [] /\ e = Locked /\ rest = mid ++ [Unlocked]) \/
  (exists done' rest',
     done = Locked :: done' /\ mid = done' ++ e :: rest' /\ rest = rest' ++ [Unlocked]) \/
  (done = Locked :: mid /\ e = Unlocked /\ rest = []).
Proof.
  intros Heq. destruct done as [|d done'].
  - injection Heq as <- <-. now left.
  - injection Heq as <- Heq. right.
    destruct rest as [|r rest' _] using rev_ind.
    + apply app_inj_tail in Heq as [-> <-]. now right.
    + change (done' ++ e :: rest' ++ [r]) with (done' ++ (e :: rest') ++ [r]) in Heq.
      rewrite app_assoc in Heq.
      apply app_inj_tail in Heq as [-> <-]. left. now exists done', rest'.
Qed.

Section Bracketed.

Variable j : list event.
Hypothesis Hj : bracketed j.

Lemma bracketed_split (done : list event) (e : event) (rest : list event) :
  j = done ++ e :: rest ->
  (e = Locked -> done = [] /\ rest <> []) /\
  (e <> Locked -> done <> []) /\
  (e = Unlocked -> rest = []) /\
  (e <> Unlocked -> rest <> []).
Proof.
  intros Heq.
  destruct Hj as [-> | (mid & -> & Hmid)]; [now destruct done |].
  rewrite List.Forall_forall in Hmid.
  destruct (bracket_cases mid done e rest Heq)
    as [(-> & -> & ->) | [(done' & rest' & -> & -> & ->) | (-> & -> & ->)]].
  - split; [intros _; split; [reflexivity | now destruct mid] |].
    split; [intros H; now destruct H |].
    split; [discriminate |]. intros _. now destruct mid.
  - destruct (Hmid e (in_elt e done' rest')) as [Hl Hu].
    split; [intros H; now destruct (Hl H) |].
    split; [discriminate |].
    split; [intros H; now destruct (Hu H) |].
    intros _. now destruct rest'.
  - split; [discriminate |].
    split; [discriminate |].
    split; [reflexivity |]. intros H. now destruct H.
Qed.

End Bracketed.

Lemma pathEvents_critical (waits onErrorWaits : list Duration) (p : Path) :
  Forall (fun e => e <> Locked /\ e <> Unlocked) (pathEvents waits onErrorWaits p).
Proof.
  unfold pathEvents. apply Forall_app. split.
  - destruct p as [e|e|e|k e|k fs e|k fs e|k fs]; cbn [bodyEvents];
      repeat first [ apply List.Forall_cons; [split; discriminate |]
                   | apply List.Forall_nil
                   | apply Forall_app; split
                   | apply List.Forall_forall; intros x Hx; apply repeat_spec in Hx as ->;
                     split; discriminate ].
  - destruct (errAtReturn p); repeat constructor; discriminate.
Qed.

(** The events of a call of [Backup] are bracketed by the mutex. *)
Lemma script_bracketed {R : Regexp} (mHold mQuery mResume : string -> bool)
  (ctx : Context) (opts : BackupOptions) (env : Env) :
  regexp_Compile holdPattern = Some mHold ->
  regexp_Compile queryPattern = Some mQuery ->
  regexp_Compile resumePattern = Some mResume ->
  bracketed (script ctx opts env).
Proof.
  intros Hh Hq Hr. unfold script.
  destruct (Backupper opts) as [sink|] eqn:Hs.
  - destruct (Backup_run mHold mQuery mResume ctx opts env sink
                {| theConsole := {| input := []; subs := ∅ |}; backupMutex := false;
                   chans := 0; journal := [] |} Hh Hq Hr Hs eq_refl)
      as (p & after & _ & -> & Hj & _).
    right. eexists. split; [exact Hj | apply pathEvents_critical].
  - left. unfold Backup, BackupWith, defaultOptions. rewrite Hs. reflexivity.
Qed.

Section Interleaving.

Variables scriptA scriptB : list event.
Hypothesis HA : bracketed scriptA.
Hypothesis HB : bracketed scriptB.

Local Abbreviation scriptOf := (scriptOf scriptA scriptB).
Local Abbreviation serial := (serial scriptA scriptB).

Lemma scriptOf_bracketed (t : caller) : bracketed (scriptOf t).
Proof. now destruct t. Qed.

Lemma todo_move_same (t : caller) (e : event) (rest : list event) (p : Pool) :
  todo t (move t e rest p) = rest.
Proof. now destruct t. Qed.

Lemma todo_move_other (t : caller) (e : event) (rest : list event) (p : Pool) :
  todo (other t) (move t e rest p) = todo (other t) p.
Proof. now destruct t. Qed.

Lemma other_other (t : caller) : other (other t) = t.
Proof. now destruct t. Qed.

Lemma tagged_snoc (t : caller) (j : list event) (e : event) :
  tagged t (j ++ [e]) = tagged t j ++ [(t, e)].
Proof. unfold tagged. now rewrite map_app. Qed.

Lemma backupMutex_apply_event (e : event) (s : Server) :
  backupMutex (apply_event e s)
  = match e with
    | Locked => true
    | Unlocked => false
    | _ => backupMutex s
    end.
Proof. now destruct e. Qed.

Lemma inside_nil_l (rest : list event) : inside [] rest = false.
Proof. reflexivity. Qed.

Lemma inside_nil_r (done : list event) : inside done [] = false.
Proof. now destruct done. Qed.

Lemma inside_true (done rest : list event) :
  done <> [] -> rest <> [] -> inside done rest = true.
Proof. intros Hd Hr. destruct done; [now destruct Hd |]. destruct rest; [now destruct Hr | reflexivity]. Qed.

(** The mutex after a step of a call that is alone in the section. *)
Lemma mutex_after_step (t : caller) (done : list event) (e : event)
  (rest : list event) (s : Server) :
  scriptOf t = done ++ e :: rest ->
  (e = Locked -> backupMutex s = false) ->
  (e <> Locked -> backupMutex s = true) ->
  backupMutex (apply_event e s) = inside (done ++ [e]) rest.
Proof.
  intros Hs Hl Hn.
  destruct (bracketed_split _ (scriptOf_bracketed t) done e rest Hs)
    as (H1 & H2 & H3 & H4).
  rewrite backupMutex_apply_event.
  destruct e.
  - destruct (H1 eq_refl) as [_ Hr]. symmetry. apply inside_true; [now destruct done | exact Hr].
  - rewrite (H3 eq_refl). symmetry. apply inside_nil_r.
  - rewrite Hn by discriminate. symmetry.
    apply inside_true; [now destruct done | apply H4; discriminate].
  - rewrite Hn by discriminate. symmetry.
    apply inside_true; [now destruct done | apply H4; discriminate].
Qed.

(** A step of the call that came first, the other not having started. *)
Lemma step_first (p : Pool) (first : caller) (doneF : list event)
  (e : event) (rest : list event) :
  serial p first doneF [] ->
  todo first p = e :: rest ->
  serial (move first e rest p) first (doneF ++ [e]) [].
Proof.
  intros (Htr & HsF & HsO & _ & Hmx) Htodo.
  rewrite Htodo in HsF, Hmx. rewrite inside_nil_l, orb_false_r in Hmx.
  destruct (bracketed_split _ (scriptOf_bracketed first) doneF e rest HsF)
    as (H1 & H2 & _ & _).
  unfold serial. rewrite todo_move_same, todo_move_other.
  cbn [move trace shared].
  split; [rewrite Htr, tagged_snoc; cbn; now rewrite !app_nil_r |].
  split; [now rewrite <- app_assoc |].
  split; [exact HsO |].
  split; [intros Hne; now destruct Hne |].
  rewrite inside_nil_l, orb_false_r.
  apply (mutex_after_step first doneF e rest); [exact HsF | |].
  - intros He. rewrite Hmx. destruct (H1 He) as [-> _]. reflexivity.
  - intros He. rewrite Hmx. apply inside_true; [now apply H2 | discriminate].
Qed.

(** A step of the other call, the first having finished. *)
Lemma step_other (p : Pool) (first : caller) (doneF doneO : list event)
  (e : event) (rest : list event) :
  serial p first doneF doneO ->
  todo first p = [] ->
  todo (other first) p = e :: rest ->
  serial (move (other first) e rest p) first doneF (doneO ++ [e]).
Proof.
  intros (Htr & HsF & HsO & _ & Hmx) Hfin Htodo.
  rewrite Htodo in HsO, Hmx. rewrite Hfin, inside_nil_r in Hmx. cbn [orb] in Hmx.
  destruct (bracketed_split _ (scriptOf_bracketed (other first)) doneO e rest HsO)
    as (H1 & H2 & _ & _).
  assert (Hsame : todo first (move (other first) e rest p) = todo first p).
  { rewrite <- (other_other first) at 1. now rewrite todo_move_other, other_other. }
  unfold serial. rewrite todo_move_same, Hsame.
  cbn [move trace shared].
  split; [rewrite Htr, tagged_snoc; now rewrite <- app_assoc |].
  split; [exact HsF |].
  split; [now rewrite <- app_assoc |].
  split; [intros _; exact Hfin |].
  rewrite Hfin, inside_nil_r. cbn [orb].
  apply (mutex_after_step (other first) doneO e rest); [exact HsO | |].
  - intros He. rewrite Hmx. destruct (H1 He) as [-> _]. reflexivity.
  - intros He. rewrite Hmx. apply inside_true; [now apply H2 | discriminate].
Qed.

(** While neither call has started, either may count as the first. *)
Lemma serial_swap (p : Pool) (first : caller) :
  serial p first [] [] -> serial p (other first) [] [].
Proof.
  intros (Htr & HsF & HsO & _ & Hmx). unfold serial. rewrite other_other.
  split; [exact Htr |]. split; [exact HsO |]. split; [exact HsF |].
  split; [intros H; now destruct H | exact Hmx].
Qed.

(** One step of a call keeps the calls one after the other. *)
Lemma advance_serial (u : caller) (p : Pool) (first : caller) (doneF doneO : list event) :
  serial p first doneF doneO ->
  exists first' doneF' doneO', serial (advance u p) first' doneF' doneO'.
Proof.
  intros Hser. pose proof Hser as (Htr & HsF & HsO & Hord & Hmx).
  rewrite advance_perform.
  destruct (todo u p) as [|e rest] eqn:Htodo; [now exists first, doneF, doneO |].
  assert (Hu : u = first \/ u = other first) by (destruct u, first; auto).
  destruct Hu as [-> | ->].
  - (* the call that came first moves *)
    assert (HdO : doneO = []).
    { destruct doneO as [|x l]; [reflexivity |].
      rewrite Hord in Htodo by discriminate. discriminate Htodo. }
    subst doneO.
    pose proof (step_first p first doneF e rest Hser Htodo) as Hmoved.
    destruct e; try (do 3 eexists; exact Hmoved).
    rewrite Htodo in HsF.
    destruct (bracketed_split _ (scriptOf_bracketed first) doneF Locked rest HsF)
      as (H1 & _).
    destruct (H1 eq_refl) as [-> _]. cbn in Hmx. rewrite Hmx.
    do 3 eexists; exact Hmoved.
  - (* the other call moves *)
    pose proof HsO as HsO'. rewrite Htodo in HsO'.
    destruct (bracketed_split _ (scriptOf_bracketed (other first)) doneO e rest HsO')
      as (H1 & H2 & _ & _).
    assert (Hlater : e <> Locked ->
              exists first' doneF' doneO', serial (move (other first) e rest p)
                                                  first' doneF' doneO').
    { intros He. exists first, doneF, (doneO ++ [e]).
      apply step_other; [exact Hser | apply Hord; now apply H2 | exact Htodo]. }
    destruct e; try (apply Hlater; discriminate).
    (* it asks for the mutex *)
    destruct (H1 eq_refl) as [-> _].
    rewrite inside_nil_l, orb_false_r in Hmx. rewrite Hmx.
    destruct (inside doneF (todo first p)) eqn:Hin; [now exists first, doneF, [] |].
    destruct doneF as [|d doneF'].
    + (* the first call has not started: the other becomes the first *)
      exists (other first), ([] ++ [Locked]), [].
      apply step_first; [now apply serial_swap | exact Htodo].
    + (* the first call has finished *)
      exists first, (d :: doneF'), ([] ++ [Locked]).
      apply step_other; [exact Hser | | exact Htodo].
      destruct (todo first p); [reflexivity | discriminate Hin].
Qed.

Lemma interleave_serial (schedule : list caller) :
  forall p first doneF doneO,
    serial p first doneF doneO ->
    exists first' doneF' doneO', serial (interleave schedule p) first' doneF' doneO'.
Proof.
  induction schedule as [|u schedule IH]; intros p first doneF doneO Hser.
  - now exists first, doneF, doneO.
  - destruct (advance_serial u p first doneF doneO Hser) as (f' & dF' & dO' & Hser').
    exact (IH _ _ _ _ Hser').
Qed.

Lemma start_serial (s : Server) :
  backupMutex s = false -> serial (start s scriptA scriptB) CallA [] [].
Proof.
  intros Hfree. hnf. cbn.
  split; [reflexivity |]. split; [reflexivity |]. split; [reflexivity |].
  split; [intros H; now destruct H | exact Hfree].
Qed.

End Interleaving.

Lemma In_tagged (t u : caller) (e : event) (j : list event) :
  In (u, e) (tagged t j) -> u = t.
Proof.
  unfold tagged. intros H. apply in_map_iff in H as (x & [= -> _] & _). reflexivity.
Qed.

Lemma split_in_front {A : Type} (a b before after : list A) (x : A) :
  a ++ b = before ++ x :: after -> ~ In x b -> exists a', a = before ++ x :: a'.
Proof.
  intros Heq Hx.
  destruct (app_eq_app _ _ _ _ Heq) as (l & [[-> Hl] | [-> Hl]]).
  - destruct l as [|y l]; [cbn in Hl; subst b; destruct Hx; now left |].
    injection Hl as <- _. now exists l.
  - destruct Hx. rewrite Hl. apply in_elt.
Qed.

Lemma split_in_back {A : Type} (a b before after : list A) (x : A) :
  a ++ b = before ++ x :: after -> ~ In x a -> exists rest, before = a ++ rest.
Proof.
  intros Heq Hx.
  destruct (app_eq_app _ _ _ _ Heq) as (l & [[-> Hl] | [-> Hl]]).
  - destruct l as [|y l]; [exists []; now rewrite !app_nil_r |].
    injection Hl as <- _. destruct Hx. apply in_elt.
  - now exists l.
Qed.

Lemma other_differs (t : caller) : other t <> t.
Proof. destruct t; discriminate. Qed.

(** The steps of [script] are those of [Backup], on every server: a call
    of [Backup] returns exactly when a caller that is alone gets through
    the steps, and leaves the server they leave; on a server whose mutex
    is held it waits at [Lock]. *)
Lemma Backup_performs {R : Regexp} (mHold mQuery mResume : string -> bool)
  (ctx : Context) (opts : BackupOptions) (env : Env) (s : Server) :
  regexp_Compile holdPattern = Some mHold ->
  regexp_Compile queryPattern = Some mQuery ->
  regexp_Compile resumePattern = Some mResume ->
  option_map snd (Backup ctx opts env s) = performAll (script ctx opts env) s.
Proof.
  intros Hh Hq Hr. unfold script.
  destruct (Backupper opts) as [sink|] eqn:Hs.
  - destruct (BackupWith_pathOf mHold mQuery mResume Hh Hq Hr ctx opts env sink
                {| theConsole := {| input := []; subs := ∅ |}; backupMutex := false;
                   chans := 0; journal := [] |} Hs eq_refl)
      as (p & Hp & Hrun).
    unfold Backup at 2. rewrite (Hrun (5 * Minute)), journal_replay. cbn [journal app].
    rewrite performAll_bracketed by apply pathEvents_critical.
    destruct (backupMutex s) eqn:Hmx.
    + destruct (defaultOptions_accepts opts sink Hs) as (b & Hb & Hsink & _).
      unfold Backup, BackupWith. rewrite Hb, Hsink.
      unfold bind at 1. unfold Lock. rewrite Hmx. reflexivity.
    + destruct (BackupWith_pathOf mHold mQuery mResume Hh Hq Hr ctx opts env sink s Hs Hmx)
        as (p' & Hp' & Hrun').
      rewrite Hp in Hp'. injection Hp' as <-.
      unfold Backup. rewrite (Hrun' (5 * Minute)). reflexivity.
  - unfold Backup, BackupWith, defaultOptions. rewrite Hs. reflexivity.
Qed.

(** C4.  Two calls of [Backup] on one server run one after the other,
    however the scheduler interleaves their steps, the steps being those
    of [Backup] itself on the shared server.  The events so far are those
    of one call followed by those of the other, and the other has done
    nothing until the first has finished, its resume and the release of
    the mutex included.  While a call is between its [Lock] and its
    [Unlock] the mutex is held, so that [Lock] does not return for the
    other call: the second caller waits there and does not move.  So when
    the hold command of a call is sent, the other call has either done
    nothing yet or done everything it does. *)
Theorem Backup_calls_run_one_after_the_other {R : Regexp}
  (mHold mQuery mResume : string -> bool)
  (ctxA ctxB : Context) (optsA optsB : BackupOptions) (envA envB : Env)
  (s : Server) (schedule : list caller) :
  regexp_Compile holdPattern = Some mHold ->
  regexp_Compile queryPattern = Some mQuery ->
  regexp_Compile resumePattern = Some mResume ->
  backupMutex s = false ->
  let scriptA := script ctxA optsA envA in
  let scriptB := script ctxB optsB envB in
  let p := interleave schedule (start s scriptA scriptB) in
  ((forall s', option_map snd (Backup ctxA optsA envA s') = performAll scriptA s') /\
   (forall s', option_map snd (Backup ctxB optsB envB s') = performAll scriptB s')) /\
  (exists first doneF doneO,
     trace p = tagged first doneF ++ tagged (other first) doneO /\
     scriptOf scriptA scriptB first = doneF ++ todo first p /\
     scriptOf scriptA scriptB (other first) = doneO ++ todo (other first) p /\
     (doneO <> [] -> todo first p = []) /\
     backupMutex (shared p)
     = inside doneF (todo first p) || inside doneO (todo (other first) p) /\
     (inside doneF (todo first p) = true ->
        doneO = [] /\ Lock (shared p) = None /\ advance (other first) p = p)) /\
  (forall t before after waits,
     trace p = before ++ (t, Command "save hold" waits) :: after ->
     (forall e, ~ In (other t, e) before) \/
     (exists rest,
        before = tagged (other t) (scriptOf scriptA scriptB (other t)) ++ rest)).
Proof.
  intros Hh Hq Hr Hfree scriptA scriptB p.
  split.
  { split; intros s'; apply (Backup_performs mHold mQuery mResume); assumption. }
  pose proof (script_bracketed mHold mQuery mResume ctxA optsA envA Hh Hq Hr) as HA.
  pose proof (script_bracketed mHold mQuery mResume ctxB optsB envB Hh Hq Hr) as HB.
  destruct (interleave_serial scriptA scriptB HA HB schedule _ _ _ _
              (start_serial scriptA scriptB s Hfree))
    as (first & doneF & doneO & Htr & HsF & HsO & Hord & Hmx).
  fold scriptA scriptB p in Htr, HsF, HsO, Hord, Hmx.
  split.
  { exists first, doneF, doneO.
    split; [exact Htr |]. split; [exact HsF |]. split; [exact HsO |].
    split; [exact Hord |]. split; [exact Hmx |].
    intros Hin.
    assert (HdO : doneO = []).
    { destruct doneO as [|x l]; [reflexivity |].
      rewrite Hord in Hin by discriminate. now rewrite inside_nil_r in Hin. }
    subst doneO. rewrite Hin in Hmx. cbn [orb] in Hmx.
    split; [reflexivity |].
    split; [unfold Lock; now rewrite Hmx |].
    rewrite advance_perform.
    destruct (todo (other first) p) as [|e rest] eqn:Htodo; [reflexivity |].
    cbn [app] in HsO.
    destruct (bracketed_split _ (scriptOf_bracketed scriptA scriptB HA HB (other first))
                [] e rest HsO) as (_ & H2 & _).
    destruct e; try (now destruct (H2 ltac:(discriminate))).
    now rewrite Hmx. }
  intros t before after waits Hsplit. rewrite Htr in Hsplit.
  assert (Ht : t = first \/ t = other first) by (destruct t, first; auto).
  destruct Ht as [-> | ->].
  - left. intros e Hin.
    destruct (split_in_front _ _ _ _ _ Hsplit) as (a' & Ha).
    + intros H. apply In_tagged in H. now apply (other_differs first).
    + assert (Hin' : In (other first, e) (tagged first doneF))
        by (rewrite Ha; apply in_or_app; now left).
      apply In_tagged in Hin'. now apply (other_differs first).
  - right. rewrite other_other.
    destruct (split_in_back _ _ _ _ _ Hsplit) as (rest & ->).
    + intros H. apply In_tagged in H. now apply (other_differs first).
    + assert (HdO : doneO <> []).
      { intros ->. cbn in Hsplit. rewrite app_nil_r in Hsplit.
        assert (Hin' : In (other first, Command "save hold" waits) (tagged first doneF))
          by (rewrite Hsplit; apply in_elt).
        apply In_tagged in Hin'. now apply (other_differs first). }
      rewrite HsF, (Hord HdO), app_nil_r. now exists rest.
Qed.

Lemma Backup_calls_run_one_after_the_other_witness :
  let scriptA := script Background (withSink okSink 0) mute in
  let scriptB := script Background (withSink fullSink 0) answering in
  let p := interleave [CallA; CallB; CallA; CallB; CallB; CallA; CallA; CallB; CallB]
             (start idle scriptA scriptB) in
  (trace (interleave [CallA; CallB; CallA; CallB] (start idle scriptA scriptB))
   = [(CallA, Locked); (CallA, Command "save hold" [3 * Second])] /\
   trace p = [(CallA, Locked); (CallA, Command "save hold" [3 * Second]);
              (CallA, Command "save resume" [5 * Minute]); (CallA, Unlocked);
              (CallB, Locked); (CallB, Command "save hold" [3 * Second])]) /\
  ((forall s', option_map snd (Backup Background (withSink okSink 0) mute s')
               = performAll scriptA s') /\
   (forall s', option_map snd (Backup Background (withSink fullSink 0) answering s')
               = performAll scriptB s')) /\
  (exists first doneF doneO,
     trace p = tagged first doneF ++ tagged (other first) doneO /\
     scriptOf scriptA scriptB first = doneF ++ todo first p /\
     scriptOf scriptA scriptB (other first) = doneO ++ todo (other first) p /\
     (doneO <> [] -> todo first p = []) /\
     backupMutex (shared p)
     = inside doneF (todo first p) || inside doneO (todo (other first) p) /\
     (inside doneF (todo first p) = true ->
        doneO = [] /\ Lock (shared p) = None /\ advance (other first) p = p)) /\
  (forall t before after waits,
     trace p = before ++ (t, Command "save hold" waits) :: after ->
     (forall e, ~ In (other t, e) before) \/
     (exists rest,
        before = tagged (other t) (scriptOf scriptA scriptB (other t)) ++ rest)).
Proof.
  intros scriptA scriptB p.
  split; [split; vm_compute; reflexivity |].
  apply (Backup_calls_run_one_after_the_other (R := packageRegexp)
           (regexp.lineStartsWith "Saving...")
           (regexp.thenLater "Data saved. Files are now ready to be copied" "levelname.txt")
           (regexp.lineStartsWith "Changes to the world are resumed")
           Background Background (withSink okSink 0) (withSink fullSink 0) mute answering
           idle [CallA; CallB; CallA; CallB; CallB; CallA; CallA; CallB; CallB]);
    reflexivity.
Defined.
